(** * constlint: the analyzer that flags writes to [+const] fields and parameters

    A shallow embedding of [analyzer/analyzer.go] (package [analyzer]) and of
    the parts of the Go libraries it calls ([strings], [go/token], [go/types],
    [go/ast], the inspector and the analysis pass), followed by the theorems
    that settle the properties claimed of it.

    Layout: the library models come first, each in a module named after the Go
    package it stands for, then the analyzer's own functions under the names
    they have in the source, then lemmas and theorems. *)

From Stdlib Require Import ZArith Ascii String List Lia Bool.
From stdpp Require Import base option countable gmap strings list pretty.

Import ListNotations.
Local Open Scope Z_scope.

(* ===================================================================== *)
(** * Package [strings]                                                    *)
(* ===================================================================== *)

(** Go strings are byte sequences; [string] is a list of 8-bit characters.
    [Index] returns a Go [int], modelled as [Z], with [-1] for "absent". *)
Module strings.

Definition HasPrefix (s prefix : string) : bool := String.prefix prefix s.

Fixpoint index_nat (s substr : string) : option nat :=
  if String.prefix substr s then Some 0%nat
  else match s with
       | EmptyString => None
       | String _ s' => option_map S (index_nat s' substr)
       end.

Definition Index (s substr : string) : Z :=
  match index_nat s substr with
  | Some i => Z.of_nat i
  | None => -1
  end.

Definition Contains (s substr : string) : bool := 0 <=? Index s substr.

(** [Split s sep] for a one-byte separator, the only way the analyzer
    calls it ([strings.Split(constParamList, ",")]). *)
Fixpoint Split (s : string) (sep : ascii) : list string :=
  match s with
  | EmptyString => [EmptyString]
  | String c s' =>
      if Ascii.eqb c sep then EmptyString :: Split s' sep
      else match Split s' sep with
           | piece :: rest => String c piece :: rest
           | [] => [String c EmptyString]
           end
  end.

(** White space as [unicode.IsSpace] has it: the six ASCII characters of
    the [asciiSpace] table, and the UTF-8 encodings of U+0085, U+00A0,
    U+1680, U+2000..U+200A, U+2028, U+2029, U+202F, U+205F and U+3000. *)
Definition asciiSpace (c : ascii) : bool :=
  let n := nat_of_ascii c in
  ((9 <=? n)%nat && (n <=? 13)%nat) || (n =? 32)%nat.

Definition space2 (c1 c2 : ascii) : bool :=
  (nat_of_ascii c1 =? 194)%nat
  && ((nat_of_ascii c2 =? 133)%nat || (nat_of_ascii c2 =? 160)%nat).

Definition space3 (c1 c2 c3 : ascii) : bool :=
  let n1 := nat_of_ascii c1 in
  let n2 := nat_of_ascii c2 in
  let n3 := nat_of_ascii c3 in
  ((n1 =? 225) && (n2 =? 154) && (n3 =? 128))%nat
  || ((n1 =? 226) && (n2 =? 128)
      && (((128 <=? n3) && (n3 <=? 138))
          || (n3 =? 168) || (n3 =? 169) || (n3 =? 175)))%nat
  || ((n1 =? 226) && (n2 =? 129) && (n3 =? 159))%nat
  || ((n1 =? 227) && (n2 =? 128) && (n3 =? 128))%nat.

(** Leading white space, rune by rune. *)
Fixpoint trimLeft (l : list ascii) : list ascii :=
  match l with
  | c1 :: l1 =>
      if asciiSpace c1 then trimLeft l1
      else match l1 with
           | c2 :: l2 =>
               if space2 c1 c2 then trimLeft l2
               else match l2 with
                    | c3 :: l3 => if space3 c1 c2 c3 then trimLeft l3 else l
                    | [] => l
                    end
           | [] => l
           end
  | [] => []
  end.

(** Trailing white space: the same scan from the end of the string, the
    bytes of a rune met in reverse order. *)
Fixpoint trimLeftRev (l : list ascii) : list ascii :=
  match l with
  | c1 :: l1 =>
      if asciiSpace c1 then trimLeftRev l1
      else match l1 with
           | c2 :: l2 =>
               if space2 c2 c1 then trimLeftRev l2
               else match l2 with
                    | c3 :: l3 => if space3 c3 c2 c1 then trimLeftRev l3 else l
                    | [] => l
                    end
           | [] => l
           end
  | [] => []
  end.

Definition trimRight (l : list ascii) : list ascii := rev (trimLeftRev (rev l)).

Definition TrimSpace (s : string) : string :=
  string_of_list_ascii (trimRight (trimLeft (list_ascii_of_string s))).

(** Go's slice expressions [s[lo:]] and [s[lo:hi]] on strings, for indices
    within bounds (the analyzer only slices at indices [Index] returned). *)
Definition slice_from (s : string) (lo : Z) : string :=
  String.substring (Z.to_nat lo) (String.length s - Z.to_nat lo) s.

Definition slice (s : string) (lo hi : Z) : string :=
  String.substring (Z.to_nat lo) (Z.to_nat (hi - lo)) s.

Definition len (s : string) : Z := Z.of_nat (String.length s).

End strings.

(* ===================================================================== *)
(** * Package [go/token]                                                   *)
(* ===================================================================== *)

Module token.

(** [token.Pos] is an integer offset into the file set; [NoPos] is zero. *)
Definition Pos := Z.
Definition NoPos : Pos := 0.

(** The tokens an [*ast.AssignStmt] or an [*ast.IncDecStmt] can carry. *)
Inductive Token :=
| ASSIGN | DEFINE
| ADD_ASSIGN | SUB_ASSIGN | MUL_ASSIGN | QUO_ASSIGN | REM_ASSIGN
| AND_ASSIGN | OR_ASSIGN | XOR_ASSIGN | SHL_ASSIGN | SHR_ASSIGN
| AND_NOT_ASSIGN
| INC | DEC.

Definition eqb (t u : Token) : bool :=
  match t, u with
  | ASSIGN, ASSIGN | DEFINE, DEFINE
  | ADD_ASSIGN, ADD_ASSIGN | SUB_ASSIGN, SUB_ASSIGN
  | MUL_ASSIGN, MUL_ASSIGN | QUO_ASSIGN, QUO_ASSIGN
  | REM_ASSIGN, REM_ASSIGN | AND_ASSIGN, AND_ASSIGN
  | OR_ASSIGN, OR_ASSIGN | XOR_ASSIGN, XOR_ASSIGN
  | SHL_ASSIGN, SHL_ASSIGN | SHR_ASSIGN, SHR_ASSIGN
  | AND_NOT_ASSIGN, AND_NOT_ASSIGN | INC, INC | DEC, DEC => true
  | _, _ => false
  end.

End token.

(* ===================================================================== *)
(** * Package [go/ast]                                                     *)
(* ===================================================================== *)

(** Every syntax node is a heap object in Go and the analyzer compares
    nodes by pointer ([n == target]) and uses them as keys of the type
    checker's maps.  A node therefore carries its address. *)
Definition addr := Z.

Module ast.

Local Set Warnings "-register-all".

Record Comment := { Slash : token.Pos; Text : string }.
Record CommentGroup := { List_ : list Comment }.

(** [*ast.Ident] *)
Record ident := { id_addr : addr; NamePos : token.Pos; Name : string }.

(** [ast.Node] is an interface; a type switch on it is a [match] on the
    constructor.  The constructors are the node types the analyzer tells
    apart, [IncDecStmt], the declarations and files that hold them, and
    [Other] for every other expression, statement or specification, with
    its children in the order [ast.Walk] visits them. *)
Inductive Node : Type :=
| Ident (id : ident)
| SelectorExpr (a : addr) (X : Node) (Sel : ident)
| CompositeLit (a : addr) (Type_ : option Node) (Lbrace : token.Pos)
               (Elts : list Node)
| AssignStmt (a : addr) (Lhs : list Node) (Tok : token.Token)
             (Rhs : list Node)
| IncDecStmt (a : addr) (X : Node) (Tok : token.Token)
| BlockStmt (a : addr) (Lbrace : token.Pos) (List_ : list Node)
| StructType (a : addr) (Struct : token.Pos) (Fields : list Field)
| TypeSpec (a : addr) (Name : ident) (Type_ : Node)
| GenDecl (a : addr) (TokPos : token.Pos) (Specs : list Node)
| FuncDecl (a : addr) (Doc : option CommentGroup)
           (Recv : option (list Field)) (Name : ident) (Type_ : FuncType)
           (Body : option Node)
| File (a : addr) (Package : token.Pos) (Name : ident) (Decls : list Node)
| Other (a : addr) (kind : string) (pos : token.Pos) (kids : list Node)
(** [*ast.Field]: one entry of a field list (a struct field, a parameter,
    a result or a receiver): zero or more names sharing one type. *)
with Field : Type :=
| mkField (Doc : option CommentGroup) (Names : list ident) (Type_ : Node)
          (Comment : option CommentGroup)
(** [*ast.FuncType]; a [nil] field list is [None]. *)
with FuncType : Type :=
| mkFuncType (Func : token.Pos) (Params : option (list Field))
             (Results : option (list Field)).

Definition Field_Doc (f : Field) := let 'mkField d _ _ _ := f in d.
Definition Field_Names (f : Field) := let 'mkField _ n _ _ := f in n.
Definition Field_Type (f : Field) := let 'mkField _ _ t _ := f in t.
Definition Field_Comment (f : Field) := let 'mkField _ _ _ c := f in c.
Definition FuncType_Func (t : FuncType) := let 'mkFuncType p _ _ := t in p.
Definition FuncType_Params (t : FuncType) := let 'mkFuncType _ p _ := t in p.
Definition FuncType_Results (t : FuncType) := let 'mkFuncType _ _ r := t in r.

(** The address of a node. *)
Definition addr_of (n : Node) : addr :=
  match n with
  | Ident id => id_addr id
  | SelectorExpr a _ _ | CompositeLit a _ _ _ | AssignStmt a _ _ _
  | IncDecStmt a _ _ | BlockStmt a _ _ | StructType a _ _ | TypeSpec a _ _
  | GenDecl a _ _ | FuncDecl a _ _ _ _ _ | File a _ _ _ | Other a _ _ _ => a
  end.

(** [n == target] on two non-nil [ast.Node] values. *)
Definition same (n m : Node) : bool := addr_of n =? addr_of m.

(** [n.Pos()] *)
Fixpoint Pos (n : Node) : token.Pos :=
  match n with
  | Ident id => NamePos id
  | SelectorExpr _ X _ => Pos X
  | CompositeLit _ (Some t) _ _ => Pos t
  | CompositeLit _ None lbrace _ => lbrace
  | AssignStmt _ (l :: _) _ _ => Pos l
  | AssignStmt _ [] _ _ => token.NoPos
  | IncDecStmt _ X _ => Pos X
  | BlockStmt _ lbrace _ => lbrace
  | StructType _ p _ => p
  | TypeSpec _ name _ => NamePos name
  | GenDecl _ p _ => p
  | FuncDecl _ _ _ _ t _ => FuncType_Func t
  | File _ p _ _ => p
  | Other _ _ p _ => p
  end.

(** ** [ast.Walk] and [ast.Inspect]

    [Inspect node f] calls [f] on [node]; when [f] answers [true] it
    walks the children of [node] in source order and then calls [f nil].
    The callback is a closure over variables it updates; here it threads
    a state [S].  Comments, field lists, fields and function types are
    nodes for [ast.Walk] as well; no callback of the analyzer can tell
    them from any other node that is not its target, a [FuncDecl] or a
    [CompositeLit], and the walk below goes through them silently. *)
Section Walk.
Context {S : Type} (f : option Node -> S -> S * bool).

Definition walkIdent (id : ident) (s : S) : S :=
  let '(s1, go) := f (Some (Ident id)) s in
  if go then fst (f None s1) else s1.

Definition walkOpt {A} (w : A -> S -> S) (o : option A) (s : S) : S :=
  match o with Some x => w x s | None => s end.

Fixpoint Walk (n : Node) (s : S) : S :=
  let '(s1, go) := f (Some n) s in
  if go then
    let s2 :=
      match n with
      | Ident _ => s1
      | SelectorExpr _ X Sel => walkIdent Sel (Walk X s1)
      | CompositeLit _ t _ elts =>
          fold_left (fun s e => Walk e s) elts (walkOpt Walk t s1)
      | AssignStmt _ lhs _ rhs =>
          fold_left (fun s e => Walk e s) rhs
            (fold_left (fun s e => Walk e s) lhs s1)
      | IncDecStmt _ X _ => Walk X s1
      | BlockStmt _ _ l => fold_left (fun s e => Walk e s) l s1
      | StructType _ _ fields =>
          fold_left (fun s fld => walkField fld s) fields s1
      | TypeSpec _ name t => Walk t (walkIdent name s1)
      | GenDecl _ _ specs => fold_left (fun s e => Walk e s) specs s1
      | FuncDecl _ _ recv name t body =>
          walkOpt Walk body
            (walkFuncType t
               (walkIdent name
                  (walkOpt (fun l s => fold_left (fun s fld => walkField fld s) l s)
                     recv s1)))
      | File _ _ name decls =>
          fold_left (fun s e => Walk e s) decls (walkIdent name s1)
      | Other _ _ _ kids => fold_left (fun s e => Walk e s) kids s1
      end in
    fst (f None s2)
  else s1
with walkField (fld : Field) (s : S) : S :=
  match fld with
  | mkField _ names t _ =>
      Walk t (fold_left (fun s id => walkIdent id s) names s)
  end
with walkFuncType (t : FuncType) (s : S) : S :=
  match t with
  | mkFuncType _ params results =>
      walkOpt (fun l s => fold_left (fun s fld => walkField fld s) l s) results
        (walkOpt (fun l s => fold_left (fun s fld => walkField fld s) l s)
           params s)
  end.

Definition Inspect (node : Node) (s : S) : S := Walk node s.
End Walk.

(** ** The nodes of a tree in depth-first order

    The order in which [ast.Walk] reaches them, and the order in which
    [inspector.Preorder] presents them. *)
Fixpoint nodes (n : Node) : list Node :=
  n ::
  match n with
  | Ident _ => []
  | SelectorExpr _ X Sel => nodes X ++ [Ident Sel]
  | CompositeLit _ t _ elts =>
      match t with Some t => nodes t | None => [] end ++ flat_map nodes elts
  | AssignStmt _ lhs _ rhs => flat_map nodes lhs ++ flat_map nodes rhs
  | IncDecStmt _ X _ => nodes X
  | BlockStmt _ _ l => flat_map nodes l
  | StructType _ _ fields => flat_map nodesField fields
  | TypeSpec _ name t => Ident name :: nodes t
  | GenDecl _ _ specs => flat_map nodes specs
  | FuncDecl _ _ recv name t body =>
      match recv with Some l => flat_map nodesField l | None => [] end
      ++ Ident name :: nodesFuncType t
      ++ match body with Some b => nodes b | None => [] end
  | File _ _ name decls => Ident name :: flat_map nodes decls
  | Other _ _ _ kids => flat_map nodes kids
  end
with nodesField (fld : Field) : list Node :=
  match fld with
  | mkField _ names t _ => map Ident names ++ nodes t
  end
with nodesFuncType (t : FuncType) : list Node :=
  match t with
  | mkFuncType _ params results =>
      match params with Some l => flat_map nodesField l | None => [] end
      ++ match results with Some l => flat_map nodesField l | None => [] end
  end.

End ast.

(* ===================================================================== *)
(** * Package [go/types]                                                   *)
(* ===================================================================== *)

Module types.

Local Set Warnings "-register-all".

(** [*types.TypeName]: the object a type declaration introduces.  Two
    declarations are two objects, whatever their names: [obj_id] is the
    object's identity, [Name] what [typeName.Name()] prints. *)
Record TypeName := { obj_id : Z; Name : string }.

#[global] Instance TypeName_eq_dec : EqDecision TypeName.
Proof. solve_decision. Defined.

#[global] Instance TypeName_countable : Countable TypeName :=
  inj_countable' (fun t => (obj_id t, Name t))
                 (fun p => {| obj_id := fst p; Name := snd p |})
                 (fun t => match t with Build_TypeName _ _ => eq_refl end).

(** [types.Type]: the named types (with the type arguments of an
    instantiated generic type), the pointers, and every other type as an
    opaque shape. *)
Inductive Type_ :=
| Named (Obj : TypeName) (TypeArgs : list Type_)
| Pointer (Elem : Type_)
| Unnamed (shape : Z).

(** [types.Identical] *)
Fixpoint Identical (x y : Type_) : bool :=
  match x, y with
  | Named o1 a1, Named o2 a2 =>
      bool_decide (o1 = o2)
      && (fix all2 (l1 l2 : list Type_) : bool :=
            match l1, l2 with
            | [], [] => true
            | t1 :: l1, t2 :: l2 => Identical t1 t2 && all2 l1 l2
            | _, _ => false
            end) a1 a2
  | Pointer e1, Pointer e2 => Identical e1 e2
  | Unnamed s1, Unnamed s2 => s1 =? s2
  | _, _ => false
  end.

(** [types.Object]: what an identifier denotes. *)
Inductive Object :=
| ObjTypeName (tn : TypeName) (pos : token.Pos)
| ObjVar (id : Z) (name : string) (pos : token.Pos) (typ : Type_)
| ObjOther (id : Z) (name : string) (pos : token.Pos) (typ : option Type_).

Definition Object_Pos (o : Object) : token.Pos :=
  match o with
  | ObjTypeName _ p | ObjVar _ _ p _ | ObjOther _ _ p _ => p
  end.

Definition Object_Type (o : Object) : option Type_ :=
  match o with
  | ObjTypeName tn _ => Some (Named tn [])
  | ObjVar _ _ _ t => Some t
  | ObjOther _ _ _ t => t
  end.

Inductive SelectionKind := FieldVal | MethodVal | MethodExpr.

(** [*types.Selection]; [Recv] is [None] for a nil receiver type. *)
Record Selection := { Kind : SelectionKind; Recv : option Type_ }.

(** [types.Info]: the maps the type checker fills, keyed by node.  A key
    bound to a nil object reads like a missing key everywhere below. *)
Record Info := {
  Types : gmap addr Type_;
  Defs : gmap addr Object;
  Uses : gmap addr Object;
  Selections : gmap addr Selection
}.

Definition ObjectOf (info : Info) (id : ast.ident) : option Object :=
  match Defs info !! ast.id_addr id with
  | Some obj => Some obj
  | None => Uses info !! ast.id_addr id
  end.

Definition TypeOf (info : Info) (e : ast.Node) : option Type_ :=
  match Types info !! ast.addr_of e with
  | Some t => Some t
  | None =>
      match e with
      | ast.Ident id =>
          match ObjectOf info id with
          | Some obj => Object_Type obj
          | None => None
          end
      | _ => None
      end
  end.

End types.

(* ===================================================================== *)
(** * Package [analysis]: the pass, its diagnostics, and panics            *)
(* ===================================================================== *)

Record Diagnostic := { Pos : token.Pos; Message : string }.

(** [*analysis.Pass], as far as the analyzer reads it. [Fset_Position p]
    is the text [pass.Fset.Position(p)] prints under [%s]. *)
Record Pass := {
  Files : list ast.Node;
  TypesInfo : types.Info;
  Pkg_Path : string;
  Fset_Position : token.Pos -> string
}.

(** A computation of the analyzer appends to the diagnostics reported so
    far and either returns or panics; what was reported before a panic
    stays reported. *)
Inductive outcome (A : Type) :=
| Returned (a : A)
| Panicked.
Arguments Returned {A} a.
Arguments Panicked {A}.

Definition M (A : Type) : Type := list Diagnostic -> outcome A * list Diagnostic.

#[global] Instance M_ret : MRet M := fun A a log => (Returned a, log).

#[global] Instance M_bind : MBind M := fun A B f m log =>
  match m log with
  | (Returned a, log') => f a log'
  | (Panicked, log') => (Panicked, log')
  end.

Definition panic {A} : M A := fun log => (Panicked, log).

(** [pass.Reportf(pos, format, args...)], the message already formatted. *)
Definition Reportf (pos : token.Pos) (msg : string) : M unit :=
  fun log => (Returned tt, log ++ [{| Pos := pos; Message := msg |}]).

(** A [for ... range] loop whose body runs in [M] and updates the
    variables [t] it closes over. *)
Fixpoint foldM {A T} (body : A -> T -> M T) (l : list A) (t : T) : M T :=
  match l with
  | [] => mret t
  | x :: l' => t' ← body x t; foldM body l' t'
  end.

Definition forM_ {A} (l : list A) (body : A -> M unit) : M unit :=
  foldM (fun x _ => body x) l tt.

(** [inspector.Preorder(types, f)]: [f] is called on every node of every
    file of the pass, in depth-first order, whose type is in [types]. *)
Module inspector.

Definition Preorder {T} (files : list ast.Node) (types : ast.Node -> bool)
    (f : ast.Node -> T -> M T) (t : T) : M T :=
  foldM (fun n t => if types n then f n t else mret t)
        (flat_map ast.nodes files) t.

End inspector.

(* ===================================================================== *)
(** * Package [analyzer]                                                   *)
(* ===================================================================== *)

(** [constField] represents a field that should be treated as constant. *)
Record constField := { structType : types.TypeName; fieldName : string }.

(** [constParam] represents a parameter that should be treated as constant. *)
Record constParam := {
  funcName : string;
  paramName : string;
  packagePath : string
}.

#[global] Instance constField_eq_dec : EqDecision constField.
Proof. solve_decision. Defined.

#[global] Instance constField_countable : Countable constField :=
  inj_countable' (fun k => (structType k, fieldName k))
                 (fun p => {| structType := fst p; fieldName := snd p |})
                 (fun k => match k with Build_constField _ _ => eq_refl end).

#[global] Instance constParam_eq_dec : EqDecision constParam.
Proof. solve_decision. Defined.

#[global] Instance constParam_countable : Countable constParam :=
  inj_countable' (fun k => (funcName k, paramName k, packagePath k))
                 (fun p => {| funcName := fst (fst p);
                              paramName := snd (fst p);
                              packagePath := snd p |})
                 (fun k => match k with Build_constParam _ _ _ => eq_refl end).

(** ** First pass: struct fields and function parameters marked [+const] *)

(** The loop over a comment group that sets [hasConstMarker] and breaks at
    the first comment whose text contains [+const]. *)
Definition commentsHaveConst (g : ast.CommentGroup) : bool :=
  existsb (fun comment => strings.Contains (ast.Text comment) "+const")
          (ast.List_ g).

(** The body of [for _, field := range structType.Fields.List]. *)
Definition indexField (typeName : types.TypeName)
    (constFields : gmap constField token.Pos) (field : ast.Field)
    : gmap constField token.Pos :=
  match ast.Field_Doc field, ast.Field_Comment field with
  | None, None => constFields
  | doc, comment =>
      let hasConstMarker :=
        match doc with
        | Some g => commentsHaveConst g
        | None => false
        end in
      let hasConstMarker :=
        if negb hasConstMarker then
          match comment with
          | Some g => commentsHaveConst g
          | None => false
          end
        else hasConstMarker in
      if hasConstMarker then
        fold_left
          (fun m name =>
             <[ {| structType := typeName; fieldName := ast.Name name |}
                := ast.NamePos name ]> m)
          (ast.Field_Names field) constFields
      else constFields
  end.

(** The first test of the loop over [node.Doc.List]: the text between
    [// +const:[] and the next closing bracket, when both are there. *)
Definition listMarker (text : string) : option string :=
  let constIndex := strings.Index text "// +const:[" in
  if negb (constIndex =? -1) then
    let startIdx := constIndex + strings.len "// +const:[" in
    let endIdx := strings.Index (strings.slice_from text startIdx) "]" in
    if negb (endIdx =? -1)
    then Some (strings.slice text startIdx (startIdx + endIdx))
    else None
  else None.

(** The loop over [node.Doc.List] of the [*ast.FuncDecl] case: the values
    of [constParamList] and [allParamsConst] when it ends. *)
Fixpoint scanDoc (comments : list ast.Comment) : string * bool :=
  match comments with
  | [] => (EmptyString, false)
  | comment :: rest =>
      let text := ast.Text comment in
      match listMarker text with
      | Some constParamList => (constParamList, false)
      | None =>
          if String.eqb (strings.TrimSpace text) "// +const"
          then (EmptyString, true)
          else scanDoc rest
      end
  end.

(** The names gathered when [allParamsConst] is set: every name of every
    entry of [node.Type.Params.List], none when [Params] is nil. *)
Definition allParamNames (t : ast.FuncType) : list string :=
  match ast.FuncType_Params t with
  | Some params =>
      flat_map (fun field => map ast.Name (ast.Field_Names field)) params
  | None => []
  end.

(** The parameter names the [*ast.FuncDecl] case marks: none when neither
    form of the marker was found. *)
Definition markedParams (doc : option ast.CommentGroup) (t : ast.FuncType)
    : list string :=
  match doc with
  | None => []
  | Some g =>
      let '(constParamList, allParamsConst) := scanDoc (ast.List_ g) in
      if String.eqb constParamList EmptyString && negb allParamsConst then []
      else if allParamsConst then allParamNames t
      else map strings.TrimSpace (strings.Split constParamList ",")
  end.

(** The callback of the first [inspector.Preorder]. *)
Definition indexNode (pass : Pass) (n : ast.Node)
    (tables : gmap constField token.Pos * gmap constParam token.Pos)
    : gmap constField token.Pos * gmap constParam token.Pos :=
  let '(constFields, constParams) := tables in
  match n with
  | ast.TypeSpec _ name (ast.StructType _ _ fields) =>
      match types.Defs (TypesInfo pass) !! ast.id_addr name with
      | Some (types.ObjTypeName typeName _) =>
          (fold_left (indexField typeName) fields constFields, constParams)
      | _ => tables
      end
  | ast.FuncDecl _ doc _ name t _ =>
      let paramNames := markedParams doc t in
      let funcName := ast.Name name in
      let packagePath := Pkg_Path pass in
      (constFields,
       fold_left
         (fun m paramName =>
            <[ {| funcName := funcName; paramName := paramName;
                  packagePath := packagePath |} := ast.Pos n ]> m)
         paramNames constParams)
  | _ => tables
  end.

Definition nodeFilter (n : ast.Node) : bool :=
  match n with
  | ast.TypeSpec _ _ _ | ast.FuncDecl _ _ _ _ _ _ => true
  | _ => false
  end.

Definition assignFilter (n : ast.Node) : bool :=
  match n with
  | ast.AssignStmt _ _ _ _ => true
  | _ => false
  end.

(** ** [astPath] and the enclosing function *)

(** The closure [astPath] hands to [ast.Inspect]; its variables are
    [path] and [found]. *)
Definition astPath_visit (target : ast.Node) (n : option ast.Node)
    (s : list ast.Node * bool) : (list ast.Node * bool) * bool :=
  let '(path, found) := s in
  if found then (s, false)
  else match n with
       | Some n' =>
           if ast.same n' target then ((path, true), false)
           else ((path ++ [n'], found), true)
       | None => (s, true)
       end.

Fixpoint astPath (files : list ast.Node) (target : ast.Node)
    : list ast.Node * bool :=
  match files with
  | [] => ([], false)
  | file :: rest =>
      let '(path, found) := ast.Inspect (astPath_visit target) file ([], false) in
      if found then (path, found) else astPath rest target
  end.

Definition isFuncDecl (n : ast.Node) : bool :=
  match n with
  | ast.FuncDecl _ _ _ _ _ _ => true
  | _ => false
  end.

(** [for i := len(path) - 1; i >= 0; i--]: the last [*ast.FuncDecl] of
    the path. *)
Definition lastFuncDecl (path : list ast.Node) : option ast.Node :=
  find isFuncDecl (rev path).

(** ** [isInstanciator] *)

(** The closure [isInstanciator] hands to [ast.Inspect]; its variable is
    [foundInstantiation]. *)
Definition isInstanciator_visit (pass : Pass) (namedType : types.Type_)
    (n : option ast.Node) (foundInstantiation : bool) : bool * bool :=
  if foundInstantiation then (foundInstantiation, false)
  else match n with
       | Some (ast.CompositeLit _ t _ _) =>
           match t ≫= types.TypeOf (TypesInfo pass) with
           | None => (foundInstantiation, true)
           | Some litType =>
               let litType :=
                 match litType with
                 | types.Pointer elem => elem
                 | _ => litType
                 end in
               if types.Identical litType namedType then (true, false)
               else (foundInstantiation, true)
           end
       | _ => (foundInstantiation, true)
       end.

(** [ast.Inspect(funcDecl.Body, ...)] on a declaration without a body
    walks into a nil [*ast.BlockStmt] and panics. *)
Definition isInstanciator (pass : Pass) (expr : ast.Node)
    (namedType : types.Type_) : M bool :=
  let '(path, _) := astPath (Files pass) expr in
  match lastFuncDecl path with
  | Some (ast.FuncDecl _ _ _ _ _ body) =>
      match body with
      | Some b => mret (ast.Inspect (isInstanciator_visit pass namedType) b false)
      | None => panic
      end
  | _ => mret false
  end.

(** ** The two checks of an assignment target *)

Definition fieldMessage (pass : Pass) (typeName : types.TypeName)
    (fieldName : string) (fieldPos : token.Pos) : string :=
  "assignment to const field " +:+ types.Name typeName +:+ "." +:+ fieldName
  +:+ " (marked with // +const at " +:+ Fset_Position pass fieldPos +:+ ")".

Definition paramMessage (pass : Pass) (name : string) (paramPos : token.Pos)
    : string :=
  "assignment to const parameter " +:+ name
  +:+ " (marked with // +const at " +:+ Fset_Position pass paramPos +:+ ")".

Definition checkAssignment (pass : Pass) (expr : ast.Node)
    (constFields : gmap constField token.Pos) : M unit :=
  match expr with
  | ast.SelectorExpr a _ Sel =>
      match types.Selections (TypesInfo pass) !! a with
      | None => mret tt
      | Some selection =>
          match types.Kind selection, types.Recv selection with
          | types.FieldVal, Some recvType =>
              let namedType :=
                match recvType with
                | types.Named _ _ => Some recvType
                | types.Pointer (types.Named _ _ as named) => Some named
                | _ => None
                end in
              match namedType with
              | Some (types.Named typeName _ as namedType) =>
                  let fieldName := ast.Name Sel in
                  let cf := {| structType := typeName; fieldName := fieldName |} in
                  match constFields !! cf with
                  | Some fieldPos =>
                      inConstructor ← isInstanciator pass expr namedType;
                      if negb inConstructor
                      then Reportf (ast.Pos expr)
                             (fieldMessage pass typeName fieldName fieldPos)
                      else mret tt
                  | None => mret tt
                  end
              | _ => mret tt
              end
          | _, _ => mret tt
          end
      end
  | _ => mret tt
  end.

Definition checkFieldAssignment (pass : Pass) (expr : ast.Node)
    (constFields : gmap constField token.Pos) : M unit :=
  checkAssignment pass expr constFields.

Definition checkParamAssignment (pass : Pass) (expr : ast.Node)
    (constParams : gmap constParam token.Pos) : M unit :=
  match expr with
  | ast.Ident ident =>
      let '(path, found) := astPath (Files pass) expr in
      if negb found then mret tt
      else
        match lastFuncDecl path with
        | Some (ast.FuncDecl _ _ _ name _ _) =>
            match types.ObjectOf (TypesInfo pass) ident with
            | None => mret tt
            | Some obj =>
                if types.Object_Pos obj =? token.NoPos then mret tt
                else
                  let cp := {| funcName := ast.Name name;
                               paramName := ast.Name ident;
                               packagePath := Pkg_Path pass |} in
                  match constParams !! cp with
                  | Some paramPos =>
                      Reportf (ast.NamePos ident)
                        (paramMessage pass (ast.Name ident) paramPos)
                  | None => mret tt
                  end
            end
        | _ => mret tt
        end
  | _ => mret tt
  end.

(** ** Second pass and [run] *)

(** The body of [for _, lhs := range assignStmt.Lhs]. *)
Definition checkLhs (pass : Pass)
    (constFields : gmap constField token.Pos)
    (constParams : gmap constParam token.Pos) (lhs : ast.Node) : M unit :=
  checkFieldAssignment pass lhs constFields;;
  checkParamAssignment pass lhs constParams.

(** The callback of the second [inspector.Preorder]. *)
Definition scanNode (pass : Pass)
    (constFields : gmap constField token.Pos)
    (constParams : gmap constParam token.Pos) (n : ast.Node) : M unit :=
  match n with
  | ast.AssignStmt _ lhs tok _ =>
      if token.eqb tok token.DEFINE then mret tt
      else forM_ lhs (checkLhs pass constFields constParams)
  | _ => mret tt
  end.

(** The two tables when the first pass ends. *)
Definition buildIndex (pass : Pass)
    : M (gmap constField token.Pos * gmap constParam token.Pos) :=
  inspector.Preorder (Files pass) nodeFilter
    (fun n tables => mret (indexNode pass n tables)) (∅, ∅).

Definition run (pass : Pass) : M unit :=
  tables ← buildIndex pass;
  let '(constFields, constParams) := tables in
  inspector.Preorder (Files pass) assignFilter
    (fun n _ => scanNode pass constFields constParams n) tt.

(* ===================================================================== *)
(** * The earlier classifier, [isInConstructor]                            *)
(* ===================================================================== *)

(** The revision of the analyzer that came before [isInstanciator] decided
    the initialization context by name and by result type. [run] above
    does not call it.  [x == y] on two [types.Type] values compares
    objects; a type is one object here, so [==] is [types.Identical].
    [Underlying] is [namedType.Underlying()], which [go/types] computes
    from the declaration. *)
Module legacy.
Section WithUnderlying.
Variable Underlying : types.Type_ -> types.Type_.

Definition isConstructorName (name : string) : bool :=
let constructorPrefixes := ["New"; "Create"; "Init"; "Make"] in
existsb (fun prefix => strings.HasPrefix name prefix) constructorPrefixes.

Definition returnsOwnType (pass : Pass) (funcDecl_Type : ast.FuncType)
  (namedType : types.Type_) : bool :=
match ast.FuncType_Results funcDecl_Type with
| None => false
| Some results =>
    existsb
      (fun result =>
         match types.TypeOf (TypesInfo pass) (ast.Field_Type result) with
         | None => false
         | Some resultType =>
             let resultType :=
               match resultType with
               | types.Pointer elem => elem
               | _ => resultType
               end in
             types.Identical resultType namedType
         end)
      results
end.

Definition isInConstructor (pass : Pass) (expr : ast.Node)
  (namedType : types.Type_) : bool :=
let '(path, _) := astPath (Files pass) expr in
match lastFuncDecl path with
| Some (ast.FuncDecl _ _ recv name t _) =>
    match recv with
    | Some [recvField] =>
        match types.TypeOf (TypesInfo pass) (ast.Field_Type recvField) with
        | None => false
        | Some recvType =>
            let recvType :=
              match recvType with
              | types.Pointer elem => elem
              | _ => recvType
              end in
            if types.Identical recvType (Underlying namedType)
            then isConstructorName (ast.Name name)
                 || returnsOwnType pass t namedType
            else returnsOwnType pass t namedType
        end
    | _ => returnsOwnType pass t namedType
    end
| _ => false
end.
End WithUnderlying.

(** The loop over [funcDecl.Doc.List] of the earlier [run], which knew
    the list form of the parameter marker only: the value of
    [constParamList] when it ends. *)
Fixpoint scanDoc (comments : list ast.Comment) : string :=
  match comments with
  | [] => EmptyString
  | comment :: rest =>
      match listMarker (ast.Text comment) with
      | Some constParamList => constParamList
      | None => scanDoc rest
      end
  end.

(** The parameter names the earlier [run] marked for a function
    declaration. *)
Definition markedParams (doc : option ast.CommentGroup) : list string :=
  match doc with
  | None => []
  | Some g =>
      let constParamList := scanDoc (ast.List_ g) in
      if String.eqb constParamList EmptyString then []
      else map strings.TrimSpace (strings.Split constParamList ",")
  end.
End legacy.

(* ===================================================================== *)
(** * Vocabulary of the statements                                         *)
(* ===================================================================== *)

(** ** Induction on syntax trees *)

Section Node_induction.
Variable P : ast.Node -> Prop.

Definition PField (fld : ast.Field) : Prop := P (ast.Field_Type fld).
Definition PFields (o : option (list ast.Field)) : Prop :=
  match o with Some l => Forall PField l | None => True end.
Definition POpt (o : option ast.Node) : Prop :=
  match o with Some n => P n | None => True end.

Hypothesis HIdent : forall id, P (ast.Ident id).
Hypothesis HSelectorExpr : forall a X Sel, P X -> P (ast.SelectorExpr a X Sel).
Hypothesis HCompositeLit : forall a t lb elts,
    POpt t -> Forall P elts -> P (ast.CompositeLit a t lb elts).
Hypothesis HAssignStmt : forall a lhs tok rhs,
    Forall P lhs -> Forall P rhs -> P (ast.AssignStmt a lhs tok rhs).
Hypothesis HIncDecStmt : forall a X tok, P X -> P (ast.IncDecStmt a X tok).
Hypothesis HBlockStmt : forall a lb l, Forall P l -> P (ast.BlockStmt a lb l).
Hypothesis HStructType : forall a p fields,
    Forall PField fields -> P (ast.StructType a p fields).
Hypothesis HTypeSpec : forall a name t, P t -> P (ast.TypeSpec a name t).
Hypothesis HGenDecl : forall a p specs, Forall P specs -> P (ast.GenDecl a p specs).
Hypothesis HFuncDecl : forall a doc recv name fp params results body,
    PFields recv -> PFields params -> PFields results -> POpt body ->
    P (ast.FuncDecl a doc recv name (ast.mkFuncType fp params results) body).
Hypothesis HFile : forall a p name decls, Forall P decls -> P (ast.File a p name decls).
Hypothesis HOther : forall a kind p kids, Forall P kids -> P (ast.Other a kind p kids).

Fixpoint Node_induction (n : ast.Node) : P n :=
  let all := fix all (l : list ast.Node) : Forall P l :=
    match l with
    | [] => List.Forall_nil P
    | x :: l' => List.Forall_cons P x l' (Node_induction x) (all l')
    end in
  let allF := fix allF (l : list ast.Field) : Forall PField l :=
    match l with
    | [] => List.Forall_nil PField
    | fld :: l' =>
        List.Forall_cons PField fld l'
          (match fld return PField fld with
           | ast.mkField _ _ t _ => Node_induction t
           end) (allF l')
    end in
  let optF := fun o : option (list ast.Field) =>
    match o return PFields o with Some l => allF l | None => I end in
  let opt := fun o : option ast.Node =>
    match o return POpt o with Some x => Node_induction x | None => I end in
  match n with
  | ast.Ident id => HIdent id
  | ast.SelectorExpr a X Sel => HSelectorExpr a X Sel (Node_induction X)
  | ast.CompositeLit a t lb elts => HCompositeLit a t lb elts (opt t) (all elts)
  | ast.AssignStmt a lhs tok rhs => HAssignStmt a lhs tok rhs (all lhs) (all rhs)
  | ast.IncDecStmt a X tok => HIncDecStmt a X tok (Node_induction X)
  | ast.BlockStmt a lb l => HBlockStmt a lb l (all l)
  | ast.StructType a p fields => HStructType a p fields (allF fields)
  | ast.TypeSpec a name t => HTypeSpec a name t (Node_induction t)
  | ast.GenDecl a p specs => HGenDecl a p specs (all specs)
  | ast.FuncDecl a doc recv name (ast.mkFuncType fp params results) body =>
      HFuncDecl a doc recv name fp params results body
        (optF recv) (optF params) (optF results) (opt body)
  | ast.File a p name decls => HFile a p name decls (all decls)
  | ast.Other a kind p kids => HOther a kind p kids (all kids)
  end.
End Node_induction.

(** ** Callbacks that scan until they stop

    Both closures the analyzer hands to [ast.Inspect] leave their state
    alone once a flag is set, refuse to descend exactly when the flag is
    set, and ignore the closing [nil] call.  Such a walk is a left fold of
    [scan_step] over the nodes in depth-first order. *)
Definition scan_step {S : Type} (stopped : S -> bool) (g : ast.Node -> S -> S)
    (s : S) (n : ast.Node) : S :=
  if stopped s then s else g n s.

(** One step of [astPath]'s closure on a non-nil node. *)
Definition astPath_step (target : ast.Node) (s : list ast.Node * bool)
    (n : ast.Node) : list ast.Node * bool :=
  if snd s then s
  else if ast.same n target then (fst s, true) else (fst s ++ [n], false).

(** [n] is a composite literal whose type is [namedType] or a pointer to
    it: what [isInstanciator] looks for. *)
Definition instantiates (pass : Pass) (namedType : types.Type_)
    (n : ast.Node) : bool :=
  match n with
  | ast.CompositeLit _ (Some t) _ _ =>
      match types.TypeOf (TypesInfo pass) t with
      | Some (types.Pointer elem) => types.Identical elem namedType
      | Some litType => types.Identical litType namedType
      | None => false
      end
  | _ => false
  end.

(** ** Well-formed units *)

(** Distinct nodes are distinct objects. *)
Definition unique_addrs (files : list ast.Node) : Prop :=
  NoDup (map ast.addr_of (flat_map ast.nodes files)).

(** [target] lies inside the function declaration [R], a top-level
    declaration of a file of the pass; nothing inside [R] is a function
    declaration (Go has none but at top level). *)
Record enclosed_in (pass : Pass) (R target : ast.Node) : Prop := {
  enc_unique : unique_addrs (Files pass);
  enc_decl : exists a p name decls,
      In (ast.File a p name decls) (Files pass) /\ In R decls;
  enc_func : isFuncDecl R = true;
  enc_target : In target (tl (ast.nodes R));
  enc_flat : existsb isFuncDecl (tl (ast.nodes R)) = false
}.

(** ** The tables of a unit *)

(** The two tables the first pass leaves. *)
Definition index (pass : Pass)
    : gmap constField token.Pos * gmap constParam token.Pos :=
  fold_left (fun tables n => indexNode pass n tables)
            (flat_map ast.nodes (Files pass)) (∅, ∅).

(** A field's doc comment or its line comment has a comment containing
    [+const]. *)
Definition fieldMarked (field : ast.Field) : bool :=
  match ast.Field_Doc field with
  | Some g => commentsHaveConst g
  | None => false
  end
  || match ast.Field_Comment field with
     | Some g => commentsHaveConst g
     | None => false
     end.

(** The type declaration [n] has, under the type name [structType k], a
    marked field one of whose names is [fieldName k], written at [pos]. *)
Definition declaresField (pass : Pass) (n : ast.Node) (k : constField)
    (pos : token.Pos) : Prop :=
  exists a name sa sp fields T tpos field id,
    n = ast.TypeSpec a name (ast.StructType sa sp fields)
    /\ types.Defs (TypesInfo pass) !! ast.id_addr name
       = Some (types.ObjTypeName T tpos)
    /\ In field fields /\ fieldMarked field = true
    /\ In id (ast.Field_Names field)
    /\ k = {| structType := T; fieldName := ast.Name id |}
    /\ pos = ast.NamePos id.

(** The function declaration [n] marks the parameter name [paramName k]. *)
Definition declaresParam (pass : Pass) (n : ast.Node) (k : constParam)
    : Prop :=
  exists a doc recv name t body p,
    n = ast.FuncDecl a doc recv name t body
    /\ In p (markedParams doc t)
    /\ k = {| funcName := ast.Name name; paramName := p;
              packagePath := Pkg_Path pass |}.

(** A loop of map stores [m[key x] = val x]. *)
Definition insertAll {A K V : Type} `{Countable K} (key : A -> K)
    (val : A -> V) (l : list A) (m : gmap K V) : gmap K V :=
  fold_left (fun m x => <[ key x := val x ]> m) l m.

(** Whatever the log, the computation [m] only appends diagnostics that
    satisfy [Q]. *)
Definition emits {A} (Q : Diagnostic -> Prop) (m : M A) : Prop :=
  forall log, exists ds, snd (m log) = log ++ ds /\ Forall Q ds.

(** ** The second pass, target by target *)

(** The left-hand sides the second pass checks at a node. *)
Definition lhsTargets (n : ast.Node) : list ast.Node :=
  match n with
  | ast.AssignStmt _ lhs tok _ =>
      if token.eqb tok token.DEFINE then [] else lhs
  | _ => []
  end.

(** The targets of a unit, in the order the second pass reaches them. *)
Definition targets (pass : Pass) : list ast.Node :=
  flat_map lhsTargets (flat_map ast.nodes (Files pass)).

(** What the two checks report for one target, with the tables of the
    unit. *)
Definition reports (pass : Pass) (lhs : ast.Node) : list Diagnostic :=
  snd (checkLhs pass (fst (index pass)) (snd (index pass)) lhs []).

(** Every function declaration of the unit has a body (none is a
    declaration of a function implemented outside Go). *)
Definition hasBody (n : ast.Node) : bool :=
  match n with
  | ast.FuncDecl _ _ _ _ _ None => false
  | _ => true
  end.

Definition bodies (pass : Pass) : bool :=
  forallb hasBody (flat_map ast.nodes (Files pass)).

(** [m] returns [a], and what it reports is [ds] whatever was reported
    before. *)
Definition returns {A} (m : M A) (a : A) (ds : list Diagnostic) : Prop :=
  forall log, m log = (Returned a, log ++ ds).

(** ** The initialization context as the specification words it *)



(** Rule (c): the body holds a composite literal of the owner. *)
Definition spec_rule_instantiates (pass : Pass) (R : ast.Node)
    (owner : types.Type_) : bool :=
  match R with
  | ast.FuncDecl _ _ _ _ _ (Some body) =>
      existsb (instantiates pass owner) (ast.nodes body)
  | _ => false
  end.

(** A byte that can be part of white space: an ASCII space character or a
    byte of a multi-byte rune. *)
Definition spaceByte (c : ascii) : bool :=
  strings.asciiSpace c || (128 <=? nat_of_ascii c)%nat.

(** The comments of a comment group that may be nil. *)
Definition commentsOf (g : option ast.CommentGroup) : list ast.Comment :=
  match g with Some g => ast.List_ g | None => [] end.

(** [d] is at the position of a left-hand side of [n], an assignment
    statement that is not a definition. *)
Definition assignedAt (n : ast.Node) (d : Diagnostic) : Prop :=
  exists a lhs tok rhs e,
    n = ast.AssignStmt a lhs tok rhs /\ token.eqb tok token.DEFINE = false
    /\ In e lhs /\ Pos d = ast.Pos e.

(** Whatever the log, the computation [m] appends at most [k]
    diagnostics. *)
Definition emitsUpTo {A} (k : nat) (m : M A) : Prop :=
  forall log, exists ds, snd (m log) = log ++ ds /\ (length ds <= k)%nat.

(** The message of [d] is the one of a field diagnostic, and the field and
    the position it names are those of a marked field of a struct type of
    the unit. *)
Definition citesField (pass : Pass) (d : Diagnostic) : Prop :=
  exists T F pos n,
    Message d = fieldMessage pass T F pos
    /\ In n (flat_map ast.nodes (Files pass))
    /\ declaresField pass n {| structType := T; fieldName := F |} pos.

(** The message of [d] is the one of a parameter diagnostic, and the name
    and the position it names are those of a function declaration of the
    unit that marks the name. *)
Definition citesParam (pass : Pass) (d : Diagnostic) : Prop :=
  exists n k,
    Message d = paramMessage pass (paramName k) (ast.Pos n)
    /\ In n (flat_map ast.nodes (Files pass))
    /\ declaresParam pass n k.

(** [target] is the left-hand side [x.F] of a write to a field of the
    named type [T], through a value or through one pointer. *)
Definition writesField (pass : Pass) (target : ast.Node)
    (T : types.TypeName) (targs : list types.Type_) (F : string) : Prop :=
  exists sa X Sel recvT,
    target = ast.SelectorExpr sa X Sel /\ ast.Name Sel = F
    /\ types.Selections (TypesInfo pass) !! sa
       = Some {| types.Kind := types.FieldVal; types.Recv := Some recvT |}
    /\ (recvT = types.Named T targs
        \/ recvT = types.Pointer (types.Named T targs)).

(** ** Markers as the author writes them *)

(** The line carries a closed list: it reads [pre // +const:[lst] post]. *)
Definition hasClosedList (text : string) : Prop :=
  exists pre lst post,
    text = pre +:+ "// +const:[" +:+ lst +:+ "]" +:+ post.

(** [c] is the first marker line of the doc comment [g]: no line before
    it carries a closed list or is the standalone marker. *)
Definition firstMarkerLine (g : ast.CommentGroup) (c : ast.Comment) : Prop :=
  exists pre post,
    ast.List_ g = pre ++ c :: post
    /\ forall c', In c' pre ->
         ~ hasClosedList (ast.Text c')
         /\ strings.TrimSpace (ast.Text c') <> "// +const".

(** The line starts with a list [// +const:[item,...,item]] one of whose
    items, trimmed of white space, is [name]. *)
Definition listsParam (text name : string) : Prop :=
  exists items rest,
    text = "// +const:[" +:+ String.concat "," items +:+ "]" +:+ rest
    /\ Forall (fun x => ~ In ","%char (list_ascii_of_string x)
                        /\ ~ In "]"%char (list_ascii_of_string x)) items
    /\ String.concat "," items <> ""
    /\ exists item, In item items /\ strings.TrimSpace item = name.

(** [name] is one of the parameter names the signature declares. *)
Definition declaresParamName (t : ast.FuncType) (name : string) : Prop :=
  exists params field id,
    ast.FuncType_Params t = Some params /\ In field params
    /\ In id (ast.Field_Names field) /\ ast.Name id = name.

(** The name an embedded field goes by: the name of its type, with the
    pointer and the package qualifier, if any, left out. *)
Definition embeddedName (ty : ast.Node) : option string :=
  match ty with
  | ast.Ident id => Some (ast.Name id)
  | ast.SelectorExpr _ _ Sel => Some (ast.Name Sel)
  | ast.Other _ _ _ [ast.Ident id] => Some (ast.Name id)
  | ast.Other _ _ _ [ast.SelectorExpr _ _ Sel] => Some (ast.Name Sel)
  | _ => None
  end.

(* ===================================================================== *)
(** * Sample units                                                         *)
(* ===================================================================== *)

(** In the samples a node's address doubles as its offset in the file. *)
Module sample.

Definition id (a : addr) (name : string) : ast.ident :=
  {| ast.id_addr := a; ast.NamePos := a; ast.Name := name |}.

Definition comments (lines : list string) : option ast.CommentGroup :=
  Some {| ast.List_ :=
            map (fun t => {| ast.Slash := 0; ast.Text := t |}) lines |}.

Definition position (file : string) (p : token.Pos) : string :=
  file +:+ ":" +:+ pretty p.

Definition Person : types.TypeName :=
  {| types.obj_id := 1; types.Name := "Person" |}.
Definition TPerson : types.Type_ := types.Named Person [].

Definition fieldOf (t : types.Type_) : types.Selection :=
  {| types.Kind := types.FieldVal; types.Recv := Some t |}.

(** **** Fields

<<
package a

type Person struct {
	// +const
	Name string
	Age int
	Email string // +const
}

func (p *Person) SetName(name string) {
	p.Name = name
}

func CreatePerson() *Person {
	p := &Person{}
	p.Name = "Alice"
	return p
}

func (p *Person) NewName(n string) *Person {
	p.Name = n
	return p
}
>> *)
Definition personSpec : ast.Node :=
  ast.TypeSpec 4 (id 5 "Person")
    (ast.StructType 6 6
       [ast.mkField (comments ["// +const"]) [id 7 "Name"]
          (ast.Ident (id 8 "string")) None;
        ast.mkField None [id 9 "Age"] (ast.Ident (id 10 "int")) None;
        ast.mkField None [id 11 "Email"] (ast.Ident (id 12 "string"))
          (comments ["// +const"])]).

Definition personDecl : ast.Node := ast.GenDecl 3 3 [personSpec].

Definition setNameWrite : ast.Node :=
  ast.SelectorExpr 29 (ast.Ident (id 30 "p")) (id 31 "Name").

Definition setName : ast.Node :=
  ast.FuncDecl 20 None
    (Some [ast.mkField None [id 21 "p"]
             (ast.Other 22 "StarExpr" 22 [ast.Ident (id 23 "Person")]) None])
    (id 24 "SetName")
    (ast.mkFuncType 20
       (Some [ast.mkField None [id 25 "name"] (ast.Ident (id 26 "string")) None])
       None)
    (Some (ast.BlockStmt 27 27
             [ast.AssignStmt 28 [setNameWrite] token.ASSIGN
                [ast.Ident (id 32 "name")]])).

Definition createPersonWrite : ast.Node :=
  ast.SelectorExpr 51 (ast.Ident (id 52 "p")) (id 53 "Name").

Definition createPerson : ast.Node :=
  ast.FuncDecl 40 None None (id 41 "CreatePerson")
    (ast.mkFuncType 40 (Some [])
       (Some [ast.mkField None []
                (ast.Other 42 "StarExpr" 42 [ast.Ident (id 43 "Person")])
                None]))
    (Some (ast.BlockStmt 44 44
             [ast.AssignStmt 45 [ast.Ident (id 46 "p")] token.DEFINE
                [ast.Other 47 "UnaryExpr" 47
                   [ast.CompositeLit 48 (Some (ast.Ident (id 49 "Person")))
                      49 []]];
              ast.AssignStmt 50 [createPersonWrite] token.ASSIGN
                [ast.Other 54 "BasicLit" 54 []];
              ast.Other 55 "ReturnStmt" 55 [ast.Ident (id 56 "p")]])).

Definition newNameWrite : ast.Node :=
  ast.SelectorExpr 71 (ast.Ident (id 72 "p")) (id 73 "Name").

Definition newName : ast.Node :=
  ast.FuncDecl 60 None
    (Some [ast.mkField None [id 61 "p"]
             (ast.Other 62 "StarExpr" 62 [ast.Ident (id 63 "Person")]) None])
    (id 64 "NewName")
    (ast.mkFuncType 60
       (Some [ast.mkField None [id 65 "n"] (ast.Ident (id 66 "string")) None])
       (Some [ast.mkField None []
                (ast.Other 67 "StarExpr" 67 [ast.Ident (id 68 "Person")])
                None]))
    (Some (ast.BlockStmt 69 69
             [ast.AssignStmt 70 [newNameWrite] token.ASSIGN
                [ast.Ident (id 74 "n")];
              ast.Other 75 "ReturnStmt" 75 [ast.Ident (id 76 "p")]])).

Definition fieldsFile : ast.Node :=
  ast.File 1 1 (id 2 "a") [personDecl; setName; createPerson; newName].

Definition fieldsInfo : types.Info :=
  {| types.Types :=
       {[ 22 := types.Pointer TPerson; 23 := TPerson;
          42 := types.Pointer TPerson; 43 := TPerson;
          49 := TPerson;
          62 := types.Pointer TPerson; 63 := TPerson;
          67 := types.Pointer TPerson; 68 := TPerson ]};
     types.Defs :=
       {[ 5 := types.ObjTypeName Person 5;
          21 := types.ObjVar 21 "p" 21 (types.Pointer TPerson);
          46 := types.ObjVar 46 "p" 46 (types.Pointer TPerson);
          61 := types.ObjVar 61 "p" 61 (types.Pointer TPerson) ]};
     types.Uses :=
       {[ 30 := types.ObjVar 21 "p" 21 (types.Pointer TPerson);
          52 := types.ObjVar 46 "p" 46 (types.Pointer TPerson);
          56 := types.ObjVar 46 "p" 46 (types.Pointer TPerson);
          72 := types.ObjVar 61 "p" 61 (types.Pointer TPerson);
          76 := types.ObjVar 61 "p" 61 (types.Pointer TPerson) ]};
     types.Selections :=
       {[ 29 := fieldOf (types.Pointer TPerson);
          51 := fieldOf (types.Pointer TPerson);
          71 := fieldOf (types.Pointer TPerson) ]} |}.

Definition fieldsPass : Pass :=
  {| Files := [fieldsFile]; TypesInfo := fieldsInfo; Pkg_Path := "a";
     Fset_Position := position "person.go" |}.

(** **** Parameters

<<
package a

// UpdatePersonWithConstParams updates a person with const parameters.
// +const:[name, age]
func UpdatePersonWithConstParams(name string, age int, email string) {
	name = "John"
	age = 30
	email = "john@example.com"
}

// +const
func Scale(x int, y int) {
	x = y
}

// +const:[a]
// +const
func Both(a int, b int) {
	b = 1
}

// +const:[name]
func Shadow(name string) {
	{
		name := "local"
		name = "changed"
		_ = name
	}
}
>> *)
Definition TString : types.Type_ := types.Unnamed 1.
Definition TInt : types.Type_ := types.Unnamed 2.

Definition param (a : addr) (name : string) (ta : addr) (tname : string)
    : ast.Field :=
  ast.mkField None [id a name] (ast.Ident (id ta tname)) None.

Definition lit (a : addr) : ast.Node := ast.Other a "BasicLit" a [].

Definition updateType : ast.FuncType :=
  ast.mkFuncType 10
    (Some [param 12 "name" 13 "string"; param 14 "age" 15 "int";
           param 16 "email" 17 "string"])
    None.

Definition updateDoc : option ast.CommentGroup :=
  comments ["// UpdatePersonWithConstParams updates a person with const parameters.";
            "// +const:[name, age]"].

Definition update : ast.Node :=
  ast.FuncDecl 10 updateDoc None (id 11 "UpdatePersonWithConstParams")
    updateType
    (Some (ast.BlockStmt 18 18
             [ast.AssignStmt 19 [ast.Ident (id 20 "name")] token.ASSIGN [lit 21];
              ast.AssignStmt 22 [ast.Ident (id 23 "age")] token.ASSIGN [lit 24];
              ast.AssignStmt 25 [ast.Ident (id 26 "email")] token.ASSIGN
                [lit 27]])).

Definition scaleType : ast.FuncType :=
  ast.mkFuncType 30 (Some [param 32 "x" 33 "int"; param 34 "y" 35 "int"]) None.

Definition scaleDoc : ast.CommentGroup :=
  {| ast.List_ := [ {| ast.Slash := 28; ast.Text := "// +const" |} ] |}.

Definition scale : ast.Node :=
  ast.FuncDecl 30 (Some scaleDoc) None (id 31 "Scale") scaleType
    (Some (ast.BlockStmt 36 36
             [ast.AssignStmt 37 [ast.Ident (id 38 "x")] token.ASSIGN
                [ast.Ident (id 39 "y")]])).

Definition bothType : ast.FuncType :=
  ast.mkFuncType 40 (Some [param 42 "a" 43 "int"; param 44 "b" 45 "int"]) None.

Definition bothDoc : ast.CommentGroup :=
  {| ast.List_ := [ {| ast.Slash := 0; ast.Text := "// +const:[a]" |};
                    {| ast.Slash := 0; ast.Text := "// +const" |} ] |}.

Definition both : ast.Node :=
  ast.FuncDecl 40 (Some bothDoc) None (id 41 "Both") bothType
    (Some (ast.BlockStmt 46 46
             [ast.AssignStmt 47 [ast.Ident (id 48 "b")] token.ASSIGN [lit 49]])).

Definition shadow : ast.Node :=
  ast.FuncDecl 50 (comments ["// +const:[name]"]) None (id 51 "Shadow")
    (ast.mkFuncType 50 (Some [param 52 "name" 53 "string"]) None)
    (Some (ast.BlockStmt 54 54
             [ast.BlockStmt 55 55
                [ast.AssignStmt 56 [ast.Ident (id 57 "name")] token.DEFINE
                   [lit 58];
                 ast.AssignStmt 59 [ast.Ident (id 60 "name")] token.ASSIGN
                   [lit 61];
                 ast.AssignStmt 62 [ast.Ident (id 63 "_")] token.ASSIGN
                   [ast.Ident (id 64 "name")]]])).

Definition paramsFile : ast.Node :=
  ast.File 1 1 (id 2 "a") [update; scale; both; shadow].

(** The parameter [name] of [Shadow] and the variable the inner block
    declares are two objects.  The blank identifier of [_ = name] has no
    object. *)
Definition shadowParam : types.Object := types.ObjVar 52 "name" 52 TString.
Definition shadowLocal : types.Object := types.ObjVar 57 "name" 57 TString.

Definition paramsInfo : types.Info :=
  {| types.Types := ∅;
     types.Defs :=
       {[ 12 := types.ObjVar 12 "name" 12 TString;
          14 := types.ObjVar 14 "age" 14 TInt;
          16 := types.ObjVar 16 "email" 16 TString;
          32 := types.ObjVar 32 "x" 32 TInt;
          34 := types.ObjVar 34 "y" 34 TInt;
          42 := types.ObjVar 42 "a" 42 TInt;
          44 := types.ObjVar 44 "b" 44 TInt;
          52 := shadowParam;
          57 := shadowLocal ]};
     types.Uses :=
       {[ 20 := types.ObjVar 12 "name" 12 TString;
          23 := types.ObjVar 14 "age" 14 TInt;
          26 := types.ObjVar 16 "email" 16 TString;
          38 := types.ObjVar 32 "x" 32 TInt;
          39 := types.ObjVar 34 "y" 34 TInt;
          48 := types.ObjVar 44 "b" 44 TInt;
          60 := shadowLocal;
          64 := shadowLocal ]};
     types.Selections := ∅ |}.

Definition paramsPass : Pass :=
  {| Files := [paramsFile]; TypesInfo := paramsInfo; Pkg_Path := "a";
     Fset_Position := position "const_params.go" |}.

(** **** A field comment with an unclosed bracket

<<
package a

type Config struct {
	APIKey string // +const:[
}

func UpdateConfig(c *Config) {
	c.APIKey = "new-secret"
}
>> *)
Definition Config : types.TypeName :=
  {| types.obj_id := 2; types.Name := "Config" |}.
Definition TConfig : types.Type_ := types.Named Config [].

Definition apiKeyField : ast.Field :=
  ast.mkField None [id 7 "APIKey"] (ast.Ident (id 8 "string"))
    (comments ["// +const:["]).

Definition configSpec : ast.Node :=
  ast.TypeSpec 4 (id 5 "Config") (ast.StructType 6 6 [apiKeyField]).

Definition updateConfig : ast.Node :=
  ast.FuncDecl 10 None None (id 11 "UpdateConfig")
    (ast.mkFuncType 10
       (Some [ast.mkField None [id 12 "c"]
                (ast.Other 13 "StarExpr" 13 [ast.Ident (id 14 "Config")])
                None])
       None)
    (Some (ast.BlockStmt 15 15
             [ast.AssignStmt 16
                [ast.SelectorExpr 17 (ast.Ident (id 18 "c")) (id 19 "APIKey")]
                token.ASSIGN [lit 20]])).

Definition configFile : ast.Node :=
  ast.File 1 1 (id 2 "a") [ast.GenDecl 3 3 [configSpec]; updateConfig].

Definition configInfo : types.Info :=
  {| types.Types := {[ 13 := types.Pointer TConfig; 14 := TConfig ]};
     types.Defs :=
       {[ 5 := types.ObjTypeName Config 5;
          12 := types.ObjVar 12 "c" 12 (types.Pointer TConfig) ]};
     types.Uses := {[ 18 := types.ObjVar 12 "c" 12 (types.Pointer TConfig) ]};
     types.Selections := {[ 17 := fieldOf (types.Pointer TConfig) ]} |}.

Definition configPass : Pass :=
  {| Files := [configFile]; TypesInfo := configInfo; Pkg_Path := "a";
     Fset_Position := position "config.go" |}.

(** **** Two local types of one name

<<
package a

func f() {
	type Local struct {
		ID int // +const
	}
	var v Local
	v.ID = 1
}

func g() {
	type Local struct {
		ID int
	}
	var v Local
	v.ID = 2
}
>> *)
Definition LocalF : types.TypeName := {| types.obj_id := 3; types.Name := "Local" |}.
Definition LocalG : types.TypeName := {| types.obj_id := 4; types.Name := "Local" |}.

Definition localDecl (a : addr) (doc : option ast.CommentGroup) : ast.Node :=
  ast.Other a "DeclStmt" a
    [ast.GenDecl (a + 1) (a + 1)
       [ast.TypeSpec (a + 2) (id (a + 3) "Local")
          (ast.StructType (a + 4) (a + 4)
             [ast.mkField None [id (a + 5) "ID"] (ast.Ident (id (a + 6) "int"))
                doc])]].

Definition varDecl (a : addr) : ast.Node :=
  ast.Other a "DeclStmt" a
    [ast.GenDecl (a + 1) (a + 1)
       [ast.Other (a + 2) "ValueSpec" (a + 3)
          [ast.Ident (id (a + 3) "v"); ast.Ident (id (a + 4) "Local")]]].

Definition writeID (a : addr) : ast.Node :=
  ast.SelectorExpr a (ast.Ident (id (a + 1) "v")) (id (a + 2) "ID").

Definition localsF : ast.Node :=
  ast.FuncDecl 10 None None (id 11 "f") (ast.mkFuncType 10 (Some []) None)
    (Some (ast.BlockStmt 12 12
             [localDecl 13 (comments ["// +const"]);
              varDecl 20;
              ast.AssignStmt 25 [writeID 26] token.ASSIGN [lit 29]])).

Definition localsG : ast.Node :=
  ast.FuncDecl 30 None None (id 31 "g") (ast.mkFuncType 30 (Some []) None)
    (Some (ast.BlockStmt 32 32
             [localDecl 33 None;
              varDecl 40;
              ast.AssignStmt 45 [writeID 46] token.ASSIGN [lit 49]])).

Definition localsFile : ast.Node := ast.File 1 1 (id 2 "a") [localsF; localsG].

Definition localsInfo : types.Info :=
  {| types.Types :=
       {[ 24 := types.Named LocalF []; 44 := types.Named LocalG [] ]};
     types.Defs :=
       {[ 16 := types.ObjTypeName LocalF 16;
          36 := types.ObjTypeName LocalG 36;
          23 := types.ObjVar 23 "v" 23 (types.Named LocalF []);
          43 := types.ObjVar 43 "v" 43 (types.Named LocalG []) ]};
     types.Uses :=
       {[ 24 := types.ObjTypeName LocalF 16;
          44 := types.ObjTypeName LocalG 36;
          27 := types.ObjVar 23 "v" 23 (types.Named LocalF []);
          47 := types.ObjVar 43 "v" 43 (types.Named LocalG []) ]};
     types.Selections :=
       {[ 26 := fieldOf (types.Named LocalF []);
          46 := fieldOf (types.Named LocalG []) ]} |}.

Definition localsPass : Pass :=
  {| Files := [localsFile]; TypesInfo := localsInfo; Pkg_Path := "a";
     Fset_Position := position "locals.go" |}.

(** **** A function without a body before a function literal

<<
package a

type T struct {
	F int // +const
}

func ext()

var h = func(t *T) { t.F = 1 }
>> *)
Definition StubT : types.TypeName := {| types.obj_id := 5; types.Name := "T" |}.

Definition stubFile : ast.Node :=
  ast.File 1 1 (id 2 "a")
    [ast.GenDecl 3 3
       [ast.TypeSpec 4 (id 5 "T")
          (ast.StructType 6 6
             [ast.mkField None [id 7 "F"] (ast.Ident (id 8 "int"))
                (comments ["// +const"])])];
     ast.FuncDecl 10 None None (id 11 "ext") (ast.mkFuncType 10 (Some []) None)
       None;
     ast.GenDecl 20 20
       [ast.Other 21 "ValueSpec" 22
          [ast.Ident (id 22 "h");
           ast.Other 23 "FuncLit" 23
             [ast.Ident (id 24 "t");
              ast.Other 25 "StarExpr" 25 [ast.Ident (id 26 "T")];
              ast.BlockStmt 27 27
                [ast.AssignStmt 28
                   [ast.SelectorExpr 29 (ast.Ident (id 30 "t")) (id 31 "F")]
                   token.ASSIGN [lit 32]]]]]].

Definition stubInfo : types.Info :=
  {| types.Types :=
       {[ 25 := types.Pointer (types.Named StubT []);
          26 := types.Named StubT [] ]};
     types.Defs := {[ 5 := types.ObjTypeName StubT 5 ]};
     types.Uses := ∅;
     types.Selections :=
       {[ 29 := fieldOf (types.Pointer (types.Named StubT [])) ]} |}.

Definition stubPass : Pass :=
  {| Files := [stubFile]; TypesInfo := stubInfo; Pkg_Path := "a";
     Fset_Position := position "stub.go" |}.

(** **** Methods of one name

<<
package a

type A struct{}
type B struct{}
type C struct{}

// +const:[x]
func (a A) Set(x int) { x = 1 }

func (b B) Set(x int) { x = 2 }

// +const
func (c C) Set(x int) { x = 3 }
>> *)
Definition emptyStruct (a : addr) (name : string) : ast.Node :=
  ast.GenDecl a a
    [ast.TypeSpec (a + 1) (id (a + 2) name) (ast.StructType (a + 3) (a + 3) [])].

Definition setter (a : addr) (doc : option ast.CommentGroup)
    (recv tname : string) : ast.Node :=
  ast.FuncDecl a doc
    (Some [ast.mkField None [id (a + 1) recv] (ast.Ident (id (a + 2) tname)) None])
    (id (a + 3) "Set")
    (ast.mkFuncType a (Some [param (a + 4) "x" (a + 5) "int"]) None)
    (Some (ast.BlockStmt (a + 6) (a + 6)
             [ast.AssignStmt (a + 7) [ast.Ident (id (a + 8) "x")] token.ASSIGN
                [lit (a + 9)]])).

Definition setA : ast.Node := setter 20 (comments ["// +const:[x]"]) "a" "A".
Definition setB : ast.Node := setter 30 None "b" "B".
Definition setC : ast.Node := setter 40 (comments ["// +const"]) "c" "C".

Definition methodsFile : ast.Node :=
  ast.File 1 1 (id 2 "a")
    [emptyStruct 3 "A"; emptyStruct 7 "B"; emptyStruct 11 "C"; setA; setB; setC].

Definition methodsInfo : types.Info :=
  {| types.Types := ∅;
     types.Defs :=
       {[ 24 := types.ObjVar 24 "x" 24 TInt;
          34 := types.ObjVar 34 "x" 34 TInt;
          44 := types.ObjVar 44 "x" 44 TInt ]};
     types.Uses :=
       {[ 28 := types.ObjVar 24 "x" 24 TInt;
          38 := types.ObjVar 34 "x" 34 TInt;
          48 := types.ObjVar 44 "x" 44 TInt ]};
     types.Selections := ∅ |}.

Definition methodsPass : Pass :=
  {| Files := [methodsFile]; TypesInfo := methodsInfo; Pkg_Path := "a";
     Fset_Position := position "methods.go" |}.

(** **** A function literal after a constructor

<<
package a

type T struct {
	F int // +const
}

// +const
func NewT(n int) *T { return &T{} }

var h = func(t *T, n int) {
	t.F = 1
	n = 2
}
>> *)
Definition litT : types.TypeName := {| types.obj_id := 6; types.Name := "T" |}.

Definition litTypeDecl : ast.Node :=
  ast.GenDecl 3 3
    [ast.TypeSpec 4 (id 5 "T")
       (ast.StructType 6 6
          [ast.mkField None [id 7 "F"] (ast.Ident (id 8 "int"))
             (comments ["// +const"])])].

Definition newTType : ast.FuncType :=
  ast.mkFuncType 10 (Some [param 12 "n" 13 "int"])
    (Some [ast.mkField None []
             (ast.Other 14 "StarExpr" 14 [ast.Ident (id 15 "T")]) None]).

Definition newTBody : ast.Node :=
  ast.BlockStmt 16 16
    [ast.Other 17 "ReturnStmt" 17
       [ast.Other 18 "UnaryExpr" 18
          [ast.CompositeLit 19 (Some (ast.Ident (id 20 "T"))) 20 []]]].

Definition newT : ast.Node :=
  ast.FuncDecl 10 (comments ["// +const"]) None (id 11 "NewT") newTType
    (Some newTBody).

Definition litFieldWrite : ast.Node :=
  ast.SelectorExpr 41 (ast.Ident (id 42 "t")) (id 43 "F").

Definition litParamWrite : ast.Node := ast.Ident (id 46 "n").

Definition litVarDecl : ast.Node :=
  ast.GenDecl 30 30
    [ast.Other 31 "ValueSpec" 32
       [ast.Ident (id 32 "h");
        ast.Other 33 "FuncLit" 33
          [ast.Ident (id 34 "t");
           ast.Other 35 "StarExpr" 35 [ast.Ident (id 36 "T")];
           ast.Ident (id 37 "n");
           ast.Ident (id 38 "int");
           ast.BlockStmt 39 39
             [ast.AssignStmt 40 [litFieldWrite] token.ASSIGN [lit 44];
              ast.AssignStmt 45 [litParamWrite] token.ASSIGN [lit 47]]]]].

Definition literalFile : ast.Node :=
  ast.File 1 1 (id 2 "a") [litTypeDecl; newT; litVarDecl].

Definition literalInfo : types.Info :=
  {| types.Types :=
       {[ 14 := types.Pointer (types.Named litT []);
          15 := types.Named litT [];
          20 := types.Named litT [];
          35 := types.Pointer (types.Named litT []);
          36 := types.Named litT [] ]};
     types.Defs :=
       {[ 5 := types.ObjTypeName litT 5;
          12 := types.ObjVar 12 "n" 12 TInt;
          34 := types.ObjVar 34 "t" 34 (types.Pointer (types.Named litT []));
          37 := types.ObjVar 37 "n" 37 TInt ]};
     types.Uses :=
       {[ 42 := types.ObjVar 34 "t" 34 (types.Pointer (types.Named litT []));
          46 := types.ObjVar 37 "n" 37 TInt ]};
     types.Selections :=
       {[ 41 := fieldOf (types.Pointer (types.Named litT [])) ]} |}.

Definition literalPass : Pass :=
  {| Files := [literalFile]; TypesInfo := literalInfo; Pkg_Path := "a";
     Fset_Position := position "literal.go" |}.

(** **** The same declarations, the function literal first

<<
package a

type T struct {
	F int // +const
}

var h = func(t *T, n int) {
	t.F = 1
	n = 2
}

// +const
func NewT(n int) *T { return &T{} }
>> *)
Definition topFile : ast.Node :=
  ast.File 1 1 (id 2 "a") [litTypeDecl; litVarDecl; newT].

Definition topPass : Pass :=
  {| Files := [topFile]; TypesInfo := literalInfo; Pkg_Path := "a";
     Fset_Position := position "top.go" |}.

(** **** The same declarations in two files

<<
// t.go
package a

type T struct {
	F int // +const
}

// +const
func NewT(n int) *T { return &T{} }

// h.go
package a

var h = func(t *T, n int) {
	t.F = 1
	n = 2
}
>> *)
Definition splitFileT : ast.Node :=
  ast.File 1 1 (id 2 "a") [litTypeDecl; newT].

Definition splitFileH : ast.Node :=
  ast.File 21 21 (id 22 "a") [litVarDecl].

Definition splitPass : Pass :=
  {| Files := [splitFileT; splitFileH]; TypesInfo := literalInfo;
     Pkg_Path := "a";
     Fset_Position :=
       fun p => if p <? 21 then position "t.go" p else position "h.go" p |}.

(** **** A unit without markers

<<
package a

type P struct {
	N int
}

func set(p *P, n int) {
	p.N = n
	n = 0
}
>> *)
Definition plainP : types.TypeName := {| types.obj_id := 7; types.Name := "P" |}.

Definition plainFile : ast.Node :=
  ast.File 1 1 (id 2 "a")
    [ast.GenDecl 3 3
       [ast.TypeSpec 4 (id 5 "P")
          (ast.StructType 6 6
             [ast.mkField None [id 7 "N"] (ast.Ident (id 8 "int")) None])];
     ast.FuncDecl 10 None None (id 11 "set")
       (ast.mkFuncType 10
          (Some [ast.mkField None [id 12 "p"]
                   (ast.Other 13 "StarExpr" 13 [ast.Ident (id 14 "P")]) None;
                 param 15 "n" 16 "int"])
          None)
       (Some (ast.BlockStmt 17 17
                [ast.AssignStmt 18
                   [ast.SelectorExpr 19 (ast.Ident (id 20 "p")) (id 21 "N")]
                   token.ASSIGN [ast.Ident (id 22 "n")];
                 ast.AssignStmt 23 [ast.Ident (id 24 "n")] token.ASSIGN
                   [lit 25]]))].

Definition plainInfo : types.Info :=
  {| types.Types :=
       {[ 13 := types.Pointer (types.Named plainP []);
          14 := types.Named plainP [] ]};
     types.Defs :=
       {[ 5 := types.ObjTypeName plainP 5;
          12 := types.ObjVar 12 "p" 12 (types.Pointer (types.Named plainP []));
          15 := types.ObjVar 15 "n" 15 TInt ]};
     types.Uses :=
       {[ 20 := types.ObjVar 12 "p" 12 (types.Pointer (types.Named plainP []));
          22 := types.ObjVar 15 "n" 15 TInt;
          24 := types.ObjVar 15 "n" 15 TInt ]};
     types.Selections :=
       {[ 19 := fieldOf (types.Pointer (types.Named plainP [])) ]} |}.

Definition plainPass : Pass :=
  {| Files := [plainFile]; TypesInfo := plainInfo; Pkg_Path := "a";
     Fset_Position := position "plain.go" |}.

(** **** A redeclaration and an increment of a marked parameter

<<
package a

// +const
func Reset(n int) int {
	n, x := 3, 4
	n++
	return n + x
}
>> *)
Definition redeclParam : types.Object := types.ObjVar 12 "n" 12 TInt.

Definition redeclStmt : ast.Node :=
  ast.AssignStmt 16 [ast.Ident (id 17 "n"); ast.Ident (id 18 "x")] token.DEFINE
    [lit 19; lit 20].

Definition incStmt : ast.Node :=
  ast.IncDecStmt 21 (ast.Ident (id 22 "n")) token.INC.

Definition redeclBody : ast.Node :=
  ast.BlockStmt 15 15
    [redeclStmt; incStmt;
     ast.Other 24 "ReturnStmt" 24
       [ast.Other 25 "BinaryExpr" 26
          [ast.Ident (id 26 "n"); ast.Ident (id 27 "x")]]].

Definition redeclFile : ast.Node :=
  ast.File 1 1 (id 2 "a")
    [ast.FuncDecl 10 (comments ["// +const"]) None (id 11 "Reset")
       (ast.mkFuncType 10 (Some [param 12 "n" 13 "int"])
          (Some [ast.mkField None [] (ast.Ident (id 14 "int")) None]))
       (Some redeclBody)].

Definition redeclInfo : types.Info :=
  {| types.Types := ∅;
     types.Defs := {[ 12 := redeclParam; 18 := types.ObjVar 18 "x" 18 TInt ]};
     types.Uses :=
       {[ 17 := redeclParam; 22 := redeclParam; 26 := redeclParam;
          27 := types.ObjVar 18 "x" 18 TInt ]};
     types.Selections := ∅ |}.

Definition redeclPass : Pass :=
  {| Files := [redeclFile]; TypesInfo := redeclInfo; Pkg_Path := "a";
     Fset_Position := position "reset.go" |}.

(** **** A field write in a function literal after a constructor

<<
package a

type T struct {
	F int // +const
}

func NewT() *T { return &T{} }

var reset = func(t *T) { t.F = 1 }
>> *)
Definition resetT : types.TypeName := {| types.obj_id := 8; types.Name := "T" |}.

Definition resetNewT : ast.Node :=
  ast.FuncDecl 10 None None (id 11 "NewT")
    (ast.mkFuncType 10 (Some [])
       (Some [ast.mkField None []
                (ast.Other 12 "StarExpr" 12 [ast.Ident (id 13 "T")]) None]))
    (Some (ast.BlockStmt 14 14
             [ast.Other 15 "ReturnStmt" 15
                [ast.Other 16 "UnaryExpr" 16
                   [ast.CompositeLit 17 (Some (ast.Ident (id 18 "T"))) 18 []]]])).

Definition resetWrite : ast.Node :=
  ast.SelectorExpr 29 (ast.Ident (id 30 "t")) (id 31 "F").

(** The body of the function literal. *)
Definition resetBody : ast.Node :=
  ast.BlockStmt 27 27 [ast.AssignStmt 28 [resetWrite] token.ASSIGN [lit 32]].

Definition resetTypeDecl : ast.Node :=
  ast.GenDecl 3 3
    [ast.TypeSpec 4 (id 5 "T")
       (ast.StructType 6 6
          [ast.mkField None [id 7 "F"] (ast.Ident (id 8 "int"))
             (comments ["// +const"])])].

Definition resetVarDecl : ast.Node :=
  ast.GenDecl 20 20
    [ast.Other 21 "ValueSpec" 22
       [ast.Ident (id 22 "reset");
        ast.Other 23 "FuncLit" 23
          [ast.Ident (id 24 "t");
           ast.Other 25 "StarExpr" 25 [ast.Ident (id 26 "T")];
           resetBody]]].

Definition resetFile : ast.Node :=
  ast.File 1 1 (id 2 "a") [resetTypeDecl; resetNewT; resetVarDecl].

Definition resetInfo : types.Info :=
  {| types.Types :=
       {[ 12 := types.Pointer (types.Named resetT []);
          13 := types.Named resetT [];
          18 := types.Named resetT [];
          25 := types.Pointer (types.Named resetT []);
          26 := types.Named resetT [] ]};
     types.Defs :=
       {[ 5 := types.ObjTypeName resetT 5;
          24 := types.ObjVar 24 "t" 24 (types.Pointer (types.Named resetT [])) ]};
     types.Uses :=
       {[ 30 := types.ObjVar 24 "t" 24 (types.Pointer (types.Named resetT [])) ]};
     types.Selections :=
       {[ 29 := fieldOf (types.Pointer (types.Named resetT [])) ]} |}.

Definition resetPass : Pass :=
  {| Files := [resetFile]; TypesInfo := resetInfo; Pkg_Path := "a";
     Fset_Position := position "newt.go" |}.

(** The same unit with the two last declarations exchanged: the function
    literal comes before [NewT]. *)
Definition resetFirstFile : ast.Node :=
  ast.File 1 1 (id 2 "a") [resetTypeDecl; resetVarDecl; resetNewT].

Definition resetFirstPass : Pass :=
  {| Files := [resetFirstFile]; TypesInfo := resetInfo; Pkg_Path := "a";
     Fset_Position := position "newt.go" |}.

(** **** A marker without the space after the slashes

<<
package a

//+const
func Tight(x int) {
	x = 1
}
>> *)
Definition tightType : ast.FuncType :=
  ast.mkFuncType 10 (Some [param 12 "x" 13 "int"]) None.

Definition tightFile : ast.Node :=
  ast.File 1 1 (id 2 "a")
    [ast.FuncDecl 10 (comments ["//+const"]) None (id 11 "Tight") tightType
       (Some (ast.BlockStmt 14 14
                [ast.AssignStmt 15 [ast.Ident (id 16 "x")] token.ASSIGN
                   [lit 17]]))].

Definition tightInfo : types.Info :=
  {| types.Types := ∅;
     types.Defs := {[ 12 := types.ObjVar 12 "x" 12 TInt ]};
     types.Uses := {[ 16 := types.ObjVar 12 "x" 12 TInt ]};
     types.Selections := ∅ |}.

Definition tightPass : Pass :=
  {| Files := [tightFile]; TypesInfo := tightInfo; Pkg_Path := "a";
     Fset_Position := position "tight.go" |}.

(** **** A marked embedded field

<<
package a

type Inner struct {
	F int // +const
}

type Outer struct {
	Inner // +const
	G int // +const
}

func touch(o *Outer, i Inner) {
	o.Inner = i
	o.Inner.F = 1
	o.F = 2
}
>> *)
Definition embedInner : types.TypeName :=
  {| types.obj_id := 9; types.Name := "Inner" |}.
Definition embedOuter : types.TypeName :=
  {| types.obj_id := 10; types.Name := "Outer" |}.
Definition TInner : types.Type_ := types.Named embedInner [].
Definition TOuter : types.Type_ := types.Named embedOuter [].

(** The embedded field of [Outer]: no names, the type [Inner], and the
    line comment [// +const]. *)
Definition embedField : ast.Field :=
  ast.mkField None [] (ast.Ident (id 14 "Inner")) (comments ["// +const"]).

Definition embedOuterFields : list ast.Field :=
  [embedField;
   ast.mkField None [id 15 "G"] (ast.Ident (id 16 "int"))
     (comments ["// +const"])].

Definition embedOuterSpec : ast.Node :=
  ast.TypeSpec 11 (id 12 "Outer") (ast.StructType 13 13 embedOuterFields).

(** [o.Inner = i], [o.Inner.F = 1] and [o.F = 2]. *)
Definition embedWrite : ast.Node :=
  ast.SelectorExpr 29 (ast.Ident (id 30 "o")) (id 31 "Inner").

Definition innerWrite : ast.Node :=
  ast.SelectorExpr 34
    (ast.SelectorExpr 35 (ast.Ident (id 36 "o")) (id 37 "Inner")) (id 38 "F").

Definition promotedWrite : ast.Node :=
  ast.SelectorExpr 41 (ast.Ident (id 42 "o")) (id 43 "F").

Definition embedTouch : ast.Node :=
  ast.FuncDecl 20 None None (id 21 "touch")
    (ast.mkFuncType 20
       (Some [ast.mkField None [id 22 "o"]
                (ast.Other 23 "StarExpr" 23 [ast.Ident (id 24 "Outer")]) None;
              param 25 "i" 26 "Inner"])
       None)
    (Some (ast.BlockStmt 27 27
             [ast.AssignStmt 28 [embedWrite] token.ASSIGN
                [ast.Ident (id 32 "i")];
              ast.AssignStmt 33 [innerWrite] token.ASSIGN [lit 39];
              ast.AssignStmt 40 [promotedWrite] token.ASSIGN [lit 44]])).

Definition embedFile : ast.Node :=
  ast.File 1 1 (id 2 "a")
    [ast.GenDecl 3 3
       [ast.TypeSpec 4 (id 5 "Inner")
          (ast.StructType 6 6
             [ast.mkField None [id 7 "F"] (ast.Ident (id 8 "int"))
                (comments ["// +const"])])];
     ast.GenDecl 10 10 [embedOuterSpec];
     embedTouch].

(** The receiver of [o.Inner] and of [o.F] is [o], a [*Outer]; the
    receiver of [o.Inner.F] is [o.Inner], an [Inner]. *)
Definition embedInfo : types.Info :=
  {| types.Types :=
       {[ 14 := TInner; 23 := types.Pointer TOuter; 24 := TOuter;
          26 := TInner; 35 := TInner ]};
     types.Defs :=
       {[ 5 := types.ObjTypeName embedInner 5;
          12 := types.ObjTypeName embedOuter 12;
          22 := types.ObjVar 22 "o" 22 (types.Pointer TOuter);
          25 := types.ObjVar 25 "i" 25 TInner ]};
     types.Uses :=
       {[ 30 := types.ObjVar 22 "o" 22 (types.Pointer TOuter);
          32 := types.ObjVar 25 "i" 25 TInner;
          36 := types.ObjVar 22 "o" 22 (types.Pointer TOuter);
          42 := types.ObjVar 22 "o" 22 (types.Pointer TOuter) ]};
     types.Selections :=
       {[ 29 := fieldOf (types.Pointer TOuter);
          35 := fieldOf (types.Pointer TOuter);
          34 := fieldOf TInner;
          41 := fieldOf (types.Pointer TOuter) ]} |}.

Definition embedPass : Pass :=
  {| Files := [embedFile]; TypesInfo := embedInfo; Pkg_Path := "a";
     Fset_Position := position "embed.go" |}.

End sample.

(* ===================================================================== *)
(** * Lemmas: walking a tree                                             *)
(* ===================================================================== *)

Section Scan.
Context {S : Type} (stopped : S -> bool) (g : ast.Node -> S -> S).
Local Abbreviation scan_step := (scan_step stopped g).

Variable f : option ast.Node -> S -> S * bool.
Hypothesis f_some : forall n s,
    f (Some n) s = (scan_step s n, negb (stopped (scan_step s n))).
Hypothesis f_none : forall s, fst (f None s) = s.

Lemma scan_stopped l s : stopped s = true -> fold_left scan_step l s = s.
Proof.
  induction l as [|x l IH]; simpl; intros Hs; [reflexivity|].
  unfold scan_step at 2. rewrite Hs. auto.
Qed.

Lemma scan_step_stopped n s : stopped s = true -> scan_step s n = s.
Proof. unfold scan_step. intros ->. reflexivity. Qed.

Lemma walkIdent_scan id s :
  ast.walkIdent f id s = scan_step s (ast.Ident id).
Proof.
  unfold ast.walkIdent. rewrite f_some.
  destruct (stopped (scan_step s (ast.Ident id))); simpl; auto.
Qed.

Lemma fold_Walk_scan (w : ast.Node -> S -> S) l :
  Forall (fun n => forall s, w n s = fold_left scan_step (ast.nodes n) s) l ->
  forall s, fold_left (fun s e => w e s) l s
            = fold_left scan_step (flat_map ast.nodes l) s.
Proof.
  induction 1 as [|x l Hx _ IH]; intros s; simpl; [reflexivity|].
  rewrite fold_left_app, <- Hx. apply IH.
Qed.

Lemma fold_walkIdent_scan l s :
  fold_left (fun s id => ast.walkIdent f id s) l s
  = fold_left scan_step (map ast.Ident l) s.
Proof.
  revert s; induction l as [|x l IH]; intros s; simpl; [reflexivity|].
  rewrite walkIdent_scan. apply IH.
Qed.

Lemma fold_walkField_scan l :
  Forall (PField (fun n => forall s, ast.Walk f n s = fold_left scan_step (ast.nodes n) s)) l ->
  forall s, fold_left (fun s fld => ast.walkField f fld s) l s
            = fold_left scan_step (flat_map ast.nodesField l) s.
Proof.
  induction 1 as [|x l Hx _ IH]; intros s; simpl; [reflexivity|].
  rewrite fold_left_app, IH. f_equal.
  destruct x as [d names t c]; simpl in *. unfold PField in Hx; simpl in Hx.
  rewrite Hx, fold_left_app, fold_walkIdent_scan. reflexivity.
Qed.

Lemma walkOptFields_scan o s :
  PFields (fun n => forall s, ast.Walk f n s = fold_left scan_step (ast.nodes n) s) o ->
  ast.walkOpt (fun l s => fold_left (fun s fld => ast.walkField f fld s) l s) o s
  = fold_left scan_step
      (match o with Some l => flat_map ast.nodesField l | None => [] end) s.
Proof.
  destruct o as [l|]; simpl; intros H; [|reflexivity].
  apply (fold_walkField_scan _ H).
Qed.

Lemma walkOpt_scan o s :
  POpt (fun n => forall s, ast.Walk f n s = fold_left scan_step (ast.nodes n) s) o ->
  ast.walkOpt (ast.Walk f) o s
  = fold_left scan_step (match o with Some b => ast.nodes b | None => [] end) s.
Proof. destruct o as [b|]; simpl; intros H; [apply H|reflexivity]. Qed.

Lemma Walk_scan n :
  forall s, ast.Walk f n s = fold_left scan_step (ast.nodes n) s.
Proof.
  induction n using Node_induction; intros s; simpl;
    rewrite f_some.
  all: destruct (stopped (scan_step s _)) eqn:Hstop; simpl.
  all: try (rewrite ?(scan_step_stopped _ _ Hstop), ?(scan_stopped _ _ Hstop); reflexivity).
  all: try rewrite f_none.
  - reflexivity.
  - rewrite fold_left_app, walkIdent_scan, IHn. reflexivity.
  - rewrite fold_left_app, (fold_Walk_scan _ _ H0).
    destruct t; simpl in *; [rewrite H|]; reflexivity.
  - rewrite fold_left_app, (fold_Walk_scan _ _ H0), (fold_Walk_scan _ _ H).
    reflexivity.
  - apply IHn.
  - apply (fold_Walk_scan _ _ H).
  - apply (fold_walkField_scan _ H).
  - rewrite IHn, walkIdent_scan. reflexivity.
  - apply (fold_Walk_scan _ _ H).
  - rewrite fold_left_app. simpl. rewrite !fold_left_app.
    rewrite (walkOpt_scan _ _ H2), (walkOptFields_scan _ _ H1),
      (walkOptFields_scan _ _ H0), walkIdent_scan, (walkOptFields_scan _ _ H).
    reflexivity.
  - rewrite (fold_Walk_scan _ _ H), walkIdent_scan. reflexivity.
  - apply (fold_Walk_scan _ _ H).
Qed.
End Scan.

Lemma Inspect_astPath target n s :
  ast.Inspect (astPath_visit target) n s
  = fold_left (astPath_step target) (ast.nodes n) s.
Proof.
  unfold ast.Inspect.
  rewrite (Walk_scan snd
             (fun n s => if ast.same n target then (fst s, true)
                         else (fst s ++ [n], false))).
  - f_equal.
  - intros m [path found]. unfold astPath_visit, scan_step. simpl.
    destruct found; simpl; [reflexivity|].
    destruct (ast.same m target); reflexivity.
  - intros [path found]. simpl. destruct found; reflexivity.
Qed.

Lemma astPath_step_miss target l : forall path,
  (forall n, In n l -> ast.same n target = false) ->
  fold_left (astPath_step target) l (path, false) = (path ++ l, false).
Proof.
  induction l as [|x l IH]; intros path H; simpl.
  - rewrite app_nil_r. reflexivity.
  - unfold astPath_step at 2. simpl. rewrite (H x) by (left; reflexivity).
    rewrite IH by (intros; apply H; right; assumption).
    rewrite <- app_assoc. reflexivity.
Qed.

Lemma astPath_step_found target l s :
  snd s = true -> fold_left (astPath_step target) l s = s.
Proof.
  revert s; induction l as [|x l IH]; intros s Hs; simpl; [reflexivity|].
  unfold astPath_step at 2. rewrite Hs. apply IH, Hs.
Qed.

Lemma astPath_step_hit target pre t post path :
  (forall n, In n pre -> ast.same n target = false) ->
  ast.same t target = true ->
  fold_left (astPath_step target) (pre ++ t :: post) (path, false)
  = (path ++ pre, true).
Proof.
  intros Hpre Ht. rewrite fold_left_app, astPath_step_miss by assumption.
  simpl. unfold astPath_step at 2. simpl. rewrite Ht.
  apply astPath_step_found. reflexivity.
Qed.

Lemma astPath_miss target files :
  (forall n, In n (flat_map ast.nodes files) -> ast.same n target = false) ->
  astPath files target = ([], false).
Proof.
  induction files as [|file rest IH]; intros H; simpl; [reflexivity|].
  rewrite Inspect_astPath, astPath_step_miss.
  - apply IH. intros n Hn. apply H. simpl. apply in_or_app. right. assumption.
  - intros n Hn. apply H. simpl. apply in_or_app. left. assumption.
Qed.

Lemma astPath_hit target fs1 file fs2 pre t post :
  (forall n, In n (flat_map ast.nodes fs1) -> ast.same n target = false) ->
  ast.nodes file = pre ++ t :: post ->
  (forall n, In n pre -> ast.same n target = false) ->
  ast.same t target = true ->
  astPath (fs1 ++ file :: fs2) target = (pre, true).
Proof.
  induction fs1 as [|f fs1 IH]; intros H1 Hfile Hpre Ht; simpl.
  - rewrite Inspect_astPath, Hfile, astPath_step_hit by assumption. reflexivity.
  - rewrite Inspect_astPath, astPath_step_miss.
    + apply IH; try assumption.
      intros n Hn. apply H1. simpl. apply in_or_app. right. assumption.
    + intros n Hn. apply H1. simpl. apply in_or_app. left. assumption.
Qed.

Lemma lastFuncDecl_app q R inner :
  isFuncDecl R = true -> existsb isFuncDecl inner = false ->
  lastFuncDecl (q ++ R :: inner) = Some R.
Proof.
  intros HR Hin. unfold lastFuncDecl.
  rewrite rev_app_distr. simpl. rewrite <- app_assoc. simpl.
  assert (Hrev : forall l k, existsb isFuncDecl l = false ->
                        find isFuncDecl (rev l ++ k) = find isFuncDecl k).
  { clear. induction l as [|x l IH]; intros k H; simpl in *; [reflexivity|].
    apply orb_false_iff in H as [Hx Hl].
    rewrite <- app_assoc. rewrite IH by assumption. simpl. rewrite Hx. reflexivity. }
  rewrite Hrev by assumption. simpl. rewrite HR. reflexivity.
Qed.

Lemma same_refl n : ast.same n n = true.
Proof. unfold ast.same. apply Z.eqb_refl. Qed.

Lemma NoDup_app_same (l1 l2 : list ast.Node) t :
  NoDup (map ast.addr_of (l1 ++ t :: l2)) ->
  forall n, In n l1 -> ast.same n t = false.
Proof.
  intros Hnd n Hn. unfold ast.same. apply Z.eqb_neq. intros Heq.
  rewrite map_app in Hnd. apply NoDup_app in Hnd as (_ & Hdisj & _).
  apply (Hdisj (ast.addr_of n)).
  - apply list_elem_of_In, in_map, Hn.
  - rewrite Heq. simpl. left.
Qed.

Lemma app_reassoc {A} (x p : list A) t y z w :
  x ++ (p ++ t :: y ++ z) ++ w = (x ++ p) ++ t :: y ++ z ++ w.
Proof. rewrite <- !app_assoc. simpl. rewrite <- !app_assoc. reflexivity. Qed.

(** The function [astPath] and the backwards loop find for a node inside a
    top-level function declaration: that declaration. *)
Lemma enclosing_function pass R target :
  enclosed_in pass R target ->
  exists path, astPath (Files pass) target = (path, true)
               /\ lastFuncDecl path = Some R.
Proof.
  intros [Huniq (a & p & name & decls & Hfile & HR) Hfunc Htarget Hflat].
  apply in_split in Hfile as (fs1 & fs2 & Hfiles).
  apply in_split in HR as (d1 & d2 & Hdecls).
  destruct (ast.nodes R) as [|R' inner] eqn:HnR; [destruct R; discriminate|].
  assert (R' = R) by (destruct R; simpl in HnR; congruence). subst R'.
  simpl in Htarget, Hflat.
  apply in_split in Htarget as (i1 & i2 & Hinner).
  set (pre := ast.File a p name decls :: ast.Ident name
              :: flat_map ast.nodes d1 ++ R :: i1).
  assert (Hnodes : ast.nodes (ast.File a p name decls) = pre ++ target :: i2 ++ flat_map ast.nodes d2).
  { unfold pre. simpl. rewrite Hdecls, flat_map_app. simpl.
    rewrite HnR, Hinner. simpl.
    repeat (rewrite <- ?app_assoc; simpl; f_equal). }
  assert (Hall : forall n, In n (flat_map ast.nodes fs1 ++ pre) ->
                       ast.same n target = false).
  { apply NoDup_app_same
      with (l2 := i2 ++ flat_map ast.nodes d2 ++ flat_map ast.nodes fs2).
    unfold unique_addrs in Huniq. rewrite Hfiles, flat_map_app in Huniq.
    cbn [flat_map] in Huniq. rewrite Hnodes in Huniq.
    rewrite app_reassoc in Huniq. exact Huniq. }
  exists pre. split.
  - rewrite Hfiles. eapply astPath_hit; [| exact Hnodes | | apply same_refl].
    + intros n Hn. apply Hall, in_or_app. left. assumption.
    + intros n Hn. apply Hall, in_or_app. right. assumption.
  - unfold pre.
    change (ast.File a p name decls :: ast.Ident name :: flat_map ast.nodes d1 ++ R :: i1)
      with ((ast.File a p name decls :: ast.Ident name :: flat_map ast.nodes d1) ++ R :: i1).
    apply lastFuncDecl_app; [assumption|].
    rewrite Hinner, existsb_app in Hflat. apply orb_false_iff in Hflat. tauto.
Qed.


(* ===================================================================== *)
(** * Lemmas: the first pass                                               *)
(* ===================================================================== *)

Section FoldInsert.
Context {A K V : Type} `{Countable K} (key : A -> K) (val : A -> V).

Local Abbreviation insertAll := (insertAll key val).

Lemma insertAll_keeps l : forall m k,
  is_Some (m !! k) -> is_Some (insertAll l m !! k).
Proof.
  induction l as [|x l IH]; intros m k Hk; simpl; [exact Hk|].
  apply IH. destruct (decide (key x = k)) as [->|Hne].
  - rewrite lookup_insert_eq. eauto.
  - rewrite lookup_insert_ne by exact Hne. exact Hk.
Qed.

Lemma insertAll_adds l : forall m x,
  In x l -> is_Some (insertAll l m !! key x).
Proof.
  induction l as [|y l IH]; intros m x Hx; simpl; [destruct Hx|].
  destruct Hx as [->|Hx]; [|apply IH, Hx].
  apply insertAll_keeps. rewrite lookup_insert_eq. eauto.
Qed.

Lemma insertAll_from l : forall m k v,
  insertAll l m !! k = Some v ->
  m !! k = Some v \/ exists x, In x l /\ key x = k /\ val x = v.
Proof.
  induction l as [|y l IH]; intros m k v Hk; simpl in *; [left; exact Hk|].
  apply IH in Hk as [Hk|(x & Hx & Hkey & Hval)].
  - destruct (decide (key y = k)) as [<-|Hne].
    + rewrite lookup_insert_eq in Hk. injection Hk as <-.
      right. exists y. auto.
    + rewrite lookup_insert_ne in Hk by exact Hne. left. exact Hk.
  - right. exists x. auto.
Qed.

End FoldInsert.

Lemma indexField_spec T cf field :
  indexField T cf field
  = if fieldMarked field
    then insertAll (fun name => {| structType := T; fieldName := ast.Name name |})
                   ast.NamePos (ast.Field_Names field) cf
    else cf.
Proof.
  unfold indexField, fieldMarked.
  destruct field as [doc names t comment]; simpl.
  destruct doc as [d|], comment as [c|]; simpl; try reflexivity.
  - destruct (commentsHaveConst d); simpl; reflexivity.
  - destruct (commentsHaveConst d); simpl; reflexivity.
Qed.

Lemma indexFields_keeps T fields : forall cf k,
  is_Some (cf !! k) -> is_Some (fold_left (indexField T) fields cf !! k).
Proof.
  induction fields as [|f fields IH]; intros cf k Hk; simpl; [exact Hk|].
  apply IH. rewrite indexField_spec.
  destruct (fieldMarked f); [apply insertAll_keeps|]; exact Hk.
Qed.

Lemma indexFields_adds T fields : forall cf field id,
  In field fields -> fieldMarked field = true ->
  In id (ast.Field_Names field) ->
  is_Some (fold_left (indexField T) fields cf
           !! {| structType := T; fieldName := ast.Name id |}).
Proof.
  induction fields as [|f fields IH]; intros cf field id Hin Hm Hid; simpl;
    [destruct Hin|].
  destruct Hin as [->|Hin]; [|eapply IH; eassumption].
  apply indexFields_keeps. rewrite indexField_spec, Hm.
  apply (insertAll_adds
           (fun name => {| structType := T; fieldName := ast.Name name |})
           ast.NamePos _ cf id Hid).
Qed.

Lemma indexFields_from T fields : forall cf k pos,
  fold_left (indexField T) fields cf !! k = Some pos ->
  cf !! k = Some pos
  \/ exists field id, In field fields /\ fieldMarked field = true
       /\ In id (ast.Field_Names field)
       /\ k = {| structType := T; fieldName := ast.Name id |}
       /\ pos = ast.NamePos id.
Proof.
  induction fields as [|f fields IH]; intros cf k pos Hk; simpl in *;
    [left; exact Hk|].
  apply IH in Hk as [Hk|(field & id & Hin & Hm & Hid & -> & ->)].
  - rewrite indexField_spec in Hk. destruct (fieldMarked f) eqn:Hm.
    + apply insertAll_from in Hk as [Hk|(id & Hid & <- & <-)];
        [left; exact Hk|].
      right. exists f, id. auto 10.
    + left. exact Hk.
  - right. exists field, id. auto 10.
Qed.

Lemma indexNode_fields_keeps pass n t k :
  is_Some (fst t !! k) -> is_Some (fst (indexNode pass n t) !! k).
Proof.
  destruct t as [cf cp]. intros Hk. unfold indexNode.
  destruct n; try exact Hk.
  destruct n; try exact Hk.
  destruct (types.Defs (TypesInfo pass) !! ast.id_addr Name) as [[]|];
    try exact Hk.
  simpl. apply indexFields_keeps. exact Hk.
Qed.

Lemma indexNode_params_keeps pass n t k :
  is_Some (snd t !! k) -> is_Some (snd (indexNode pass n t) !! k).
Proof.
  destruct t as [cf cp]. intros Hk. unfold indexNode.
  destruct n; try exact Hk.
  - destruct n; try exact Hk.
    destruct (types.Defs (TypesInfo pass) !! ast.id_addr Name) as [[]|];
      exact Hk.
  - simpl. apply (insertAll_keeps _ (fun _ => _)). exact Hk.
Qed.

Lemma indexNode_fields_adds pass n t k pos :
  declaresField pass n k pos -> is_Some (fst (indexNode pass n t) !! k).
Proof.
  intros (a & name & sa & sp & fields & T & tpos & field & id
          & -> & Hdef & Hin & Hm & Hid & -> & _).
  destruct t as [cf cp]. unfold indexNode. rewrite Hdef. simpl.
  eapply indexFields_adds; eassumption.
Qed.

Lemma indexNode_params_adds pass n t k :
  declaresParam pass n k -> is_Some (snd (indexNode pass n t) !! k).
Proof.
  intros (a & doc & recv & name & ft & body & p & -> & Hp & ->).
  destruct t as [cf cp]. unfold indexNode. simpl.
  apply (insertAll_adds
           (fun paramName => {| funcName := ast.Name name;
                                paramName := paramName;
                                packagePath := Pkg_Path pass |})
           (fun _ => ast.FuncType_Func ft) _ cp p Hp).
Qed.

Lemma indexNode_fields_from pass n t k pos :
  fst (indexNode pass n t) !! k = Some pos ->
  fst t !! k = Some pos \/ declaresField pass n k pos.
Proof.
  destruct t as [cf cp]. unfold indexNode. intros Hk.
  destruct n; try (left; exact Hk).
  destruct n; try (left; exact Hk).
  destruct (types.Defs (TypesInfo pass) !! ast.id_addr Name) as [[T tpos| |]|] eqn:Hdef;
    try (left; exact Hk).
  simpl in Hk. apply indexFields_from in Hk as [Hk|(field & id & H)];
    [left; exact Hk|].
  right. unfold declaresField.
  exists a, Name, a0, Struct, Fields, T, tpos, field, id. tauto.
Qed.

Lemma index_fold_fields_keeps pass l : forall t k,
  is_Some (fst t !! k) ->
  is_Some (fst (fold_left (fun t n => indexNode pass n t) l t) !! k).
Proof.
  induction l as [|n l IH]; intros t k Hk; simpl; [exact Hk|].
  apply IH, indexNode_fields_keeps, Hk.
Qed.

Lemma index_fold_params_keeps pass l : forall t k,
  is_Some (snd t !! k) ->
  is_Some (snd (fold_left (fun t n => indexNode pass n t) l t) !! k).
Proof.
  induction l as [|n l IH]; intros t k Hk; simpl; [exact Hk|].
  apply IH, indexNode_params_keeps, Hk.
Qed.

(** Every marked name of every struct type of the unit is in the table. *)
Lemma index_fields_complete pass n k pos :
  In n (flat_map ast.nodes (Files pass)) -> declaresField pass n k pos ->
  is_Some (fst (index pass) !! k).
Proof.
  unfold index. generalize (flat_map ast.nodes (Files pass)).
  generalize (∅ : gmap constField token.Pos, ∅ : gmap constParam token.Pos).
  intros t l; revert t. induction l as [|m l IH]; intros t Hin Hd; simpl;
    [destruct Hin|].
  destruct Hin as [->|Hin]; [|apply IH; assumption].
  eapply index_fold_fields_keeps, indexNode_fields_adds, Hd.
Qed.

(** Every entry of the table is the position of a marked, named field. *)
Lemma index_fields_sound pass k pos :
  fst (index pass) !! k = Some pos ->
  exists n, In n (flat_map ast.nodes (Files pass)) /\ declaresField pass n k pos.
Proof.
  unfold index. generalize (flat_map ast.nodes (Files pass)). intros l.
  assert (H : forall t, fst (fold_left (fun t n => indexNode pass n t) l t) !! k = Some pos ->
            fst t !! k = Some pos \/ exists n, In n l /\ declaresField pass n k pos).
  { induction l as [|m l IH]; intros t Hk; simpl in *; [left; exact Hk|].
    apply IH in Hk as [Hk|(n & Hn & Hd)].
    - apply indexNode_fields_from in Hk as [Hk|Hd]; [left; exact Hk|].
      right. exists m. auto.
    - right. exists n. auto. }
  intros Hk. apply H in Hk as [Hk|Hk]; [|exact Hk].
  simpl in Hk. rewrite lookup_empty in Hk. discriminate.
Qed.

(** Every marked parameter name of every function of the unit is in the
    table. *)
Lemma index_params_complete pass n k :
  In n (flat_map ast.nodes (Files pass)) -> declaresParam pass n k ->
  is_Some (snd (index pass) !! k).
Proof.
  unfold index. generalize (flat_map ast.nodes (Files pass)).
  generalize (∅ : gmap constField token.Pos, ∅ : gmap constParam token.Pos).
  intros t l; revert t. induction l as [|m l IH]; intros t Hin Hd; simpl;
    [destruct Hin|].
  destruct Hin as [->|Hin]; [|apply IH; assumption].
  eapply index_fold_params_keeps, indexNode_params_adds, Hd.
Qed.

Lemma indexNode_filtered pass n t :
  nodeFilter n = false -> indexNode pass n t = t.
Proof. destruct t as [cf cp]. destruct n; simpl; intros; try reflexivity; discriminate. Qed.

(** The first pass reports nothing and does not panic. *)
Lemma buildIndex_returns pass log :
  buildIndex pass log = (Returned (index pass), log).
Proof.
  unfold buildIndex, inspector.Preorder, index.
  generalize (flat_map ast.nodes (Files pass)).
  generalize (∅ : gmap constField token.Pos, ∅ : gmap constParam token.Pos).
  intros t l; revert t. induction l as [|n l IH]; intros t; simpl; [reflexivity|].
  unfold mbind, M_bind.
  destruct (nodeFilter n) eqn:Hf.
  - unfold mret at 1, M_ret at 1. apply IH.
  - unfold mret at 1, M_ret at 1. rewrite indexNode_filtered by exact Hf. apply IH.
Qed.

(* ===================================================================== *)
(** * Lemmas: strings                                                    *)
(* ===================================================================== *)

Example strings_Index_ex : strings.Index "x // +const:[a]" "// +const:[" = 2.
Proof. reflexivity. Qed.
Example strings_Index_absent : strings.Index "// +const" "// +const:[" = -1.
Proof. reflexivity. Qed.
Example strings_Split_ex : strings.Split "name, age" "," = ["name"; " age"].
Proof. reflexivity. Qed.
Example strings_TrimSpace_ex : strings.TrimSpace "  // +const   " = "// +const".
Proof. reflexivity. Qed.

Lemma prefix_chars p : forall s c,
  String.prefix p s = true ->
  In c (list_ascii_of_string p) -> In c (list_ascii_of_string s).
Proof.
  induction p as [|a p IH]; intros s c Hp Hc; [destruct Hc|].
  destruct s as [|b s]; [discriminate|]. simpl in *.
  destruct (Ascii.ascii_dec a b) as [->|Hne]; [|discriminate].
  destruct Hc as [->|Hc]; [left; reflexivity|right; eapply IH; eassumption].
Qed.

Lemma index_nat_unfold s sub :
  strings.index_nat s sub
  = if String.prefix sub s then Some 0%nat
    else match s with
         | EmptyString => None
         | String _ s' => option_map S (strings.index_nat s' sub)
         end.
Proof. destruct s; reflexivity. Qed.

Lemma index_nat_chars sub s : forall i c,
  strings.index_nat s sub = Some i ->
  In c (list_ascii_of_string sub) -> In c (list_ascii_of_string s).
Proof.
  induction s as [|b s IH]; intros i c Hi Hc; rewrite index_nat_unfold in Hi.
  - destruct (String.prefix sub "") eqn:Hp; [|discriminate].
    eapply prefix_chars; eassumption.
  - destruct (String.prefix sub (String b s)) eqn:Hp.
    + eapply prefix_chars; eassumption.
    + destruct (strings.index_nat s sub) as [j|] eqn:Hj; [|discriminate].
      simpl. right. eapply IH; [reflexivity|exact Hc].
Qed.

(** A character that is not in [s] is in no substring of it. *)
Lemma Index_absent s sub c :
  In c (list_ascii_of_string sub) -> ~ In c (list_ascii_of_string s) ->
  strings.Index s sub = -1.
Proof.
  intros Hc Hs. unfold strings.Index.
  destruct (strings.index_nat s sub) as [i|] eqn:Hi; [|reflexivity].
  exfalso. apply Hs. eapply index_nat_chars; eassumption.
Qed.

Lemma prefix_app sub post : String.prefix sub (sub +:+ post) = true.
Proof.
  induction sub as [|a sub IH]; simpl; [destruct post; reflexivity|].
  destruct (Ascii.ascii_dec a a); [exact IH|congruence].
Qed.

(** A string contains each of its substrings. *)
Lemma Contains_app pre sub post :
  strings.Contains (pre +:+ sub +:+ post) sub = true.
Proof.
  unfold strings.Contains, strings.Index.
  assert (H : exists i, strings.index_nat (pre +:+ sub +:+ post) sub = Some i).
  { induction pre as [|a pre [i IH]]; rewrite index_nat_unfold.
    - exists 0%nat. change ("" +:+ sub +:+ post) with (sub +:+ post).
      rewrite prefix_app. reflexivity.
    - destruct (String.prefix sub (String a pre +:+ sub +:+ post));
        [exists 0%nat; reflexivity|].
      simpl. rewrite IH. exists (S i). reflexivity. }
  destruct H as [i ->]. apply Z.leb_le. lia.
Qed.

Lemma space2_bytes c1 c2 :
  strings.space2 c1 c2 = true -> spaceByte c1 = true /\ spaceByte c2 = true.
Proof.
  unfold strings.space2, spaceByte. intros H.
  apply andb_true_iff in H as [H1 H2]. apply Nat.eqb_eq in H1.
  apply orb_true_iff in H2 as [H2|H2]; apply Nat.eqb_eq in H2;
    rewrite H1, H2; split; apply orb_true_r.
Qed.

Lemma space3_bytes c1 c2 c3 :
  strings.space3 c1 c2 c3 = true ->
  spaceByte c1 = true /\ spaceByte c2 = true /\ spaceByte c3 = true.
Proof.
  unfold strings.space3, spaceByte. intros H.
  assert (Hge : forall c, (128 <=? nat_of_ascii c)%nat = true ->
                     strings.asciiSpace c || (128 <=? nat_of_ascii c)%nat = true)
    by (intros c ->; apply orb_true_r).
  repeat match goal with
         | H : _ || _ = true |- _ => apply orb_true_iff in H as [H|H]
         | H : _ && _ = true |- _ => apply andb_true_iff in H as [? ?]
         end;
    repeat match goal with
           | H : (_ =? _)%nat = true |- _ => apply Nat.eqb_eq in H
           | H : (_ <=? _)%nat = true |- _ => apply Nat.leb_le in H
           end;
    repeat split; apply Hge, Nat.leb_le; lia.
Qed.

(** What [trimLeft] removes is white space bytes. *)
Lemma trimLeft_split n : forall l, (length l <= n)%nat ->
  exists pre, l = pre ++ strings.trimLeft l /\ forallb spaceByte pre = true.
Proof.
  induction n as [|n IH]; intros l Hlen.
  - destruct l; [|simpl in Hlen; lia]. exists []. split; reflexivity.
  - destruct l as [|c1 l1]; [exists []; split; reflexivity|].
    simpl in Hlen. simpl.
    destruct (strings.asciiSpace c1) eqn:H1.
    { destruct (IH l1) as (pre & Hpre & Hall); [lia|].
      exists (c1 :: pre). split; [simpl; congruence|].
      simpl. rewrite Hall. unfold spaceByte. rewrite H1. reflexivity. }
    destruct l1 as [|c2 l2]; [exists []; split; reflexivity|].
    simpl in Hlen.
    destruct (strings.space2 c1 c2) eqn:H2.
    { destruct (IH l2) as (pre & Hpre & Hall); [lia|].
      apply space2_bytes in H2 as [Hb1 Hb2].
      exists (c1 :: c2 :: pre). split; [simpl; congruence|].
      simpl. rewrite Hb1, Hb2, Hall. reflexivity. }
    destruct l2 as [|c3 l3]; [exists []; split; reflexivity|].
    simpl in Hlen.
    destruct (strings.space3 c1 c2 c3) eqn:H3.
    { destruct (IH l3) as (pre & Hpre & Hall); [lia|].
      apply space3_bytes in H3 as (Hb1 & Hb2 & Hb3).
      exists (c1 :: c2 :: c3 :: pre). split; [simpl; congruence|].
      simpl. rewrite Hb1, Hb2, Hb3, Hall. reflexivity. }
    exists []. split; reflexivity.
Qed.

Lemma trimLeftRev_split n : forall l, (length l <= n)%nat ->
  exists pre, l = pre ++ strings.trimLeftRev l /\ forallb spaceByte pre = true.
Proof.
  induction n as [|n IH]; intros l Hlen.
  - destruct l; [|simpl in Hlen; lia]. exists []. split; reflexivity.
  - destruct l as [|c1 l1]; [exists []; split; reflexivity|].
    simpl in Hlen. simpl.
    destruct (strings.asciiSpace c1) eqn:H1.
    { destruct (IH l1) as (pre & Hpre & Hall); [lia|].
      exists (c1 :: pre). split; [simpl; congruence|].
      simpl. rewrite Hall. unfold spaceByte. rewrite H1. reflexivity. }
    destruct l1 as [|c2 l2]; [exists []; split; reflexivity|].
    simpl in Hlen.
    destruct (strings.space2 c2 c1) eqn:H2.
    { destruct (IH l2) as (pre & Hpre & Hall); [lia|].
      apply space2_bytes in H2 as [Hb2 Hb1].
      exists (c1 :: c2 :: pre). split; [simpl; congruence|].
      simpl. rewrite Hb1, Hb2, Hall. reflexivity. }
    destruct l2 as [|c3 l3]; [exists []; split; reflexivity|].
    simpl in Hlen.
    destruct (strings.space3 c3 c2 c1) eqn:H3.
    { destruct (IH l3) as (pre & Hpre & Hall); [lia|].
      apply space3_bytes in H3 as (Hb3 & Hb2 & Hb1).
      exists (c1 :: c2 :: c3 :: pre). split; [simpl; congruence|].
      simpl. rewrite Hb1, Hb2, Hb3, Hall. reflexivity. }
    exists []. split; reflexivity.
Qed.

Lemma kept_after_split (pre rest : list ascii) c :
  forallb spaceByte pre = true -> spaceByte c = false ->
  In c (pre ++ rest) -> In c rest.
Proof.
  intros Hall Hc Hin. apply in_app_or in Hin as [Hin|Hin]; [|exact Hin].
  rewrite forallb_forall in Hall. rewrite (Hall c Hin) in Hc. discriminate.
Qed.

(** [TrimSpace] keeps every byte that is not part of white space. *)
Lemma TrimSpace_keeps s c :
  spaceByte c = false -> In c (list_ascii_of_string s) ->
  In c (list_ascii_of_string (strings.TrimSpace s)).
Proof.
  intros Hc Hin. unfold strings.TrimSpace, strings.trimRight.
  rewrite list_ascii_of_string_of_list_ascii.
  set (l := list_ascii_of_string s) in *.
  destruct (trimLeft_split (length l) l) as (pre & Hpre & Hall); [lia|].
  rewrite Hpre in Hin. apply (kept_after_split _ _ _ Hall Hc) in Hin.
  set (m := strings.trimLeft l) in *.
  destruct (trimLeftRev_split (length (rev m)) (rev m)) as (pre' & Hpre' & Hall');
    [lia|].
  rewrite <- in_rev. rewrite in_rev in Hin. rewrite Hpre' in Hin.
  apply (kept_after_split _ _ _ Hall' Hc) in Hin. exact Hin.
Qed.

Lemma substring_chars s : forall n m c,
  In c (list_ascii_of_string (String.substring n m s)) ->
  In c (list_ascii_of_string s).
Proof.
  induction s as [|b s IH]; intros n m c Hc.
  - destruct n, m; exact Hc.
  - destruct n as [|n].
    + destruct m as [|m]; [destruct Hc|]. simpl in Hc.
      destruct Hc as [->|Hc]; [left; reflexivity|right; eapply IH, Hc].
    + simpl in Hc. right. eapply IH, Hc.
Qed.

(** A list that is never closed is no list: the parameter marker of a
    comment without a closing bracket is not recognised. *)
Lemma unclosed_list_ignored text :
  ~ In "]"%char (list_ascii_of_string text) -> listMarker text = None.
Proof.
  intros Hno. unfold listMarker.
  destruct (negb (strings.Index text "// +const:[" =? -1)); [|reflexivity].
  rewrite (Index_absent _ "]" "]"%char); [reflexivity|left; reflexivity|].
  intros Hin. apply Hno. unfold strings.slice_from in Hin.
  eapply substring_chars, Hin.
Qed.

(** A comment that is the standalone marker has no bracketed list. *)
Lemma standalone_not_listed text :
  strings.TrimSpace text = "// +const" -> listMarker text = None.
Proof.
  intros Htrim. unfold listMarker.
  rewrite (Index_absent text "// +const:[" "["%char).
  - reflexivity.
  - simpl. auto 20.
  - intros Hin. apply (TrimSpace_keeps text "["%char eq_refl) in Hin.
    rewrite Htrim in Hin. simpl in Hin.
    repeat destruct Hin as [Hin|Hin]; try discriminate; exact Hin.
Qed.

(* ===================================================================== *)
(** * Lemmas: the checks of one assignment target                          *)
(* ===================================================================== *)

Lemma head_in_nodes n : In n (ast.nodes n).
Proof. destruct n; left; reflexivity. Qed.

Lemma enclosed_in_unit pass R target :
  enclosed_in pass R target -> In R (flat_map ast.nodes (Files pass)).
Proof.
  intros [_ (a & p & name & decls & Hfile & HR) _ _ _].
  apply in_flat_map. exists (ast.File a p name decls). split; [exact Hfile|].
  simpl. right. right. apply in_flat_map. exists R. split; [exact HR|].
  apply head_in_nodes.
Qed.


(** The field check of a selector whose receiver is the named type [T],
    directly or through one pointer, is the lookup of [T] and the selected
    name. *)
Lemma checkAssignment_named pass cf sa X Sel T targs recvT :
  types.Selections (TypesInfo pass) !! sa
  = Some {| types.Kind := types.FieldVal; types.Recv := Some recvT |} ->
  recvT = types.Named T targs \/ recvT = types.Pointer (types.Named T targs) ->
  checkAssignment pass (ast.SelectorExpr sa X Sel) cf
  = match cf !! {| structType := T; fieldName := ast.Name Sel |} with
    | Some fieldPos =>
        inConstructor ← isInstanciator pass (ast.SelectorExpr sa X Sel)
                          (types.Named T targs);
        if negb inConstructor
        then Reportf (ast.Pos (ast.SelectorExpr sa X Sel))
               (fieldMessage pass T (ast.Name Sel) fieldPos)
        else mret tt
    | None => mret tt
    end.
Proof.
  intros Hsel [-> | ->]; unfold checkAssignment; rewrite Hsel; reflexivity.
Qed.


Lemma checkAssignment_ident pass cf id :
  checkAssignment pass (ast.Ident id) cf = mret tt.
Proof. reflexivity. Qed.

(** A definition [x := ...] is skipped whole, whatever it declares. *)
Lemma define_statement_skipped pass cf cp a lhs rhs log :
  scanNode pass cf cp (ast.AssignStmt a lhs token.DEFINE rhs) log
  = (Returned tt, log).
Proof. reflexivity. Qed.

(* ===================================================================== *)
(** * Lemmas: what a computation can report                              *)
(* ===================================================================== *)

Lemma emits_ret {A} Q (a : A) : emits Q (mret a).
Proof. intros log. exists []. rewrite app_nil_r. split; [reflexivity|constructor]. Qed.

Lemma emits_panic {A} Q : emits Q (@panic A).
Proof. intros log. exists []. rewrite app_nil_r. split; [reflexivity|constructor]. Qed.

Lemma emits_Reportf (Q : Diagnostic -> Prop) pos msg :
  Q {| Pos := pos; Message := msg |} -> emits Q (Reportf pos msg).
Proof. intros HQ log. exists [ {| Pos := pos; Message := msg |} ]. split; [reflexivity|]. repeat constructor. exact HQ. Qed.

Lemma emits_bind {A B} Q (m : M A) (f : A -> M B) :
  emits Q m -> (forall a, emits Q (f a)) -> emits Q (m ≫= f).
Proof.
  intros Hm Hf log. unfold mbind, M_bind.
  destruct (Hm log) as (ds & Hlog & Hds).
  destruct (m log) as [[a|] log'] eqn:E; simpl in Hlog; subst log'.
  - destruct (Hf a (log ++ ds)) as (ds' & Hlog' & Hds').
    exists (ds ++ ds'). rewrite Hlog', app_assoc. split; [reflexivity|].
    apply Forall_app. split; assumption.
  - exists ds. split; [reflexivity|exact Hds].
Qed.

Lemma emits_foldM {A T} Q (body : A -> T -> M T) l :
  (forall x t, In x l -> emits Q (body x t)) ->
  forall t, emits Q (foldM body l t).
Proof.
  induction l as [|x l IH]; intros Hbody t; simpl; [apply emits_ret|].
  apply emits_bind; [apply Hbody; left; reflexivity|].
  intros t'. apply IH. intros y t'' Hy. apply Hbody. right. exact Hy.
Qed.

Lemma emits_weaken {A} (Q Q' : Diagnostic -> Prop) (m : M A) :
  (forall d, Q d -> Q' d) -> emits Q m -> emits Q' m.
Proof.
  intros HQ Hm log. destruct (Hm log) as (ds & Hlog & Hds).
  exists ds. split; [exact Hlog|]. eapply Forall_impl; eassumption.
Qed.

Lemma isInstanciator_silent pass expr T : emits (fun _ => False) (isInstanciator pass expr T).
Proof.
  unfold isInstanciator. destruct (astPath (Files pass) expr) as [path found].
  destruct (lastFuncDecl path) as [[]|]; try apply emits_ret.
  destruct Body; [apply emits_ret|apply emits_panic].
Qed.

(** A field diagnostic is reported at the position of the target, and only
    when the table has the owner and the selected name. *)
Lemma checkAssignment_emits pass expr cf :
  emits (fun d => Pos d = ast.Pos expr
                  /\ exists sa X Sel T, expr = ast.SelectorExpr sa X Sel
                       /\ is_Some (cf !! {| structType := T; fieldName := ast.Name Sel |}))
        (checkAssignment pass expr cf).
Proof.
  unfold checkAssignment. destruct expr; try apply emits_ret.
  destruct (types.Selections (TypesInfo pass) !! a) as [[kind recvo]|];
    [|apply emits_ret]. simpl.
  destruct kind; try apply emits_ret.
  destruct recvo as [recvT|]; [|apply emits_ret].
  assert (Hnamed : forall T targs,
    emits (fun d => Pos d = ast.Pos expr /\ exists sa X Sel' T',
                ast.SelectorExpr a expr Sel = ast.SelectorExpr sa X Sel'
                /\ is_Some (cf !! {| structType := T'; fieldName := ast.Name Sel' |}))
      (match cf !! {| structType := T; fieldName := ast.Name Sel |} with
       | Some fieldPos =>
           inConstructor ← isInstanciator pass (ast.SelectorExpr a expr Sel)
                             (types.Named T targs);
           if negb inConstructor
           then Reportf (ast.Pos expr) (fieldMessage pass T (ast.Name Sel) fieldPos)
           else mret tt
       | None => mret tt
       end)).
  { intros T targs. destruct (cf !! _) as [fieldPos|] eqn:Hk; [|apply emits_ret].
    apply emits_bind.
    - eapply emits_weaken; [|apply isInstanciator_silent]. intros d [].
    - intros [|]; simpl; [apply emits_ret|].
      apply emits_Reportf. simpl. split; [reflexivity|].
      exists a, expr, Sel, T. rewrite Hk. eauto. }
  destruct recvT as [T targs|elem|]; try apply emits_ret.
  - apply Hnamed.
  - destruct elem as [T targs| |]; try apply emits_ret. apply Hnamed.
Qed.

Lemma checkParamAssignment_emits pass expr cp :
  emits (fun d => Pos d = ast.Pos expr) (checkParamAssignment pass expr cp).
Proof.
  unfold checkParamAssignment. destruct expr; try apply emits_ret.
  destruct (astPath (Files pass) (ast.Ident id)) as [path found].
  destruct found; simpl; [|apply emits_ret].
  destruct (lastFuncDecl path) as [[]|]; try apply emits_ret.
  destruct (types.ObjectOf (TypesInfo pass) id) as [obj|]; [|apply emits_ret].
  destruct (types.Object_Pos obj =? token.NoPos); [apply emits_ret|].
  destruct (cp !! _); [|apply emits_ret].
  apply emits_Reportf. reflexivity.
Qed.

Lemma checkLhs_emits pass cf cp lhs :
  emits (fun d => Pos d = ast.Pos lhs) (checkLhs pass cf cp lhs).
Proof.
  unfold checkLhs, checkFieldAssignment. apply emits_bind.
  - eapply emits_weaken; [|apply checkAssignment_emits]. intros d [H _]. exact H.
  - intros _. apply checkParamAssignment_emits.
Qed.

Lemma scanNode_emits pass cf cp n : emits (assignedAt n) (scanNode pass cf cp n).
Proof.
  unfold scanNode. destruct n; try apply emits_ret.
  destruct (token.eqb Tok token.DEFINE) eqn:Htok; [apply emits_ret|].
  unfold forM_. apply emits_foldM. intros e _ He.
  eapply emits_weaken; [|apply checkLhs_emits].
  intros d Hd. exists a, Lhs, Tok, Rhs, e. auto.
Qed.

Lemma run_unfold pass log :
  run pass log
  = inspector.Preorder (Files pass) assignFilter
      (fun n _ => scanNode pass (fst (index pass)) (snd (index pass)) n) tt log.
Proof.
  unfold run. unfold mbind at 1, M_bind at 1. rewrite buildIndex_returns.
  destruct (index pass) as [cf cp]. reflexivity.
Qed.

Lemma run_emits pass :
  emits (fun d => exists n, In n (flat_map ast.nodes (Files pass)) /\ assignedAt n d)
        (run pass).
Proof.
  intros log. rewrite run_unfold. revert log.
  unfold inspector.Preorder. apply emits_foldM. intros n [] Hn.
  destruct (assignFilter n); [|apply emits_ret].
  eapply emits_weaken; [|apply scanNode_emits].
  intros d Hd. exists n. auto.
Qed.

Lemma scanDoc_standalone pre c post :
  strings.TrimSpace (ast.Text c) = "// +const" ->
  (forall c', In c' pre -> listMarker (ast.Text c') = None) ->
  scanDoc (pre ++ c :: post) = (EmptyString, true).
Proof.
  intros Hc Hpre. induction pre as [|c' pre IH]; simpl.
  - rewrite (standalone_not_listed _ Hc), Hc. reflexivity.
  - rewrite (Hpre c') by (left; reflexivity).
    destruct (String.eqb _ _); [reflexivity|].
    apply IH. intros c'' Hin. apply Hpre. right. exact Hin.
Qed.

(** A doc comment none of whose lines has a closing bracket or is the
    standalone marker marks no parameter. *)
Lemma markedParams_unclosed g t :
  (forall c, In c (ast.List_ g) ->
     ~ In "]"%char (list_ascii_of_string (ast.Text c))
     /\ strings.TrimSpace (ast.Text c) <> "// +const") ->
  markedParams (Some g) t = [].
Proof.
  intros H. unfold markedParams.
  assert (Hscan : scanDoc (ast.List_ g) = (EmptyString, false)).
  { induction (ast.List_ g) as [|c l IH]; simpl; [reflexivity|].
    destruct (H c) as [Hno Hne]; [left; reflexivity|].
    rewrite (unclosed_list_ignored _ Hno).
    destruct (String.eqb_spec (strings.TrimSpace (ast.Text c)) "// +const");
      [contradiction|].
    apply IH. intros c' Hc'. apply H. right. exact Hc'. }
  rewrite Hscan. reflexivity.
Qed.

Example markedParams_explicit_list :
  markedParams sample.updateDoc sample.updateType = ["name"; "age"].
Proof. reflexivity. Qed.

Example markedParams_unclosed_list :
  markedParams (sample.comments ["// +const:[name, age"]) sample.updateType = [].
Proof. reflexivity. Qed.

Lemma commentsHaveConst_in g c pre post :
  In c (ast.List_ g) -> ast.Text c = pre +:+ "+const" +:+ post ->
  commentsHaveConst g = true.
Proof.
  intros Hin Htext. unfold commentsHaveConst. apply existsb_exists.
  exists c. split; [exact Hin|]. rewrite Htext. apply Contains_app.
Qed.

(* ===================================================================== *)
(** * Lemmas: a run, target by target                                     *)
(* ===================================================================== *)

Lemma returns_ret {A} (a : A) : returns (mret a) a [].
Proof. intros log. rewrite app_nil_r. reflexivity. Qed.

Lemma returns_Reportf pos msg :
  returns (Reportf pos msg) tt [ {| Pos := pos; Message := msg |} ].
Proof. intros log. reflexivity. Qed.

Lemma returns_bind {A B} (m : M A) (f : A -> M B) a ds b ds' :
  returns m a ds -> returns (f a) b ds' -> returns (m ≫= f) b (ds ++ ds').
Proof.
  intros Hm Hf log. unfold mbind, M_bind. rewrite Hm, Hf, app_assoc.
  reflexivity.
Qed.

Lemma returns_foldM {A T} (body : A -> T -> M T) (out : A -> list Diagnostic) l :
  (forall x t, In x l -> exists t', returns (body x t) t' (out x)) ->
  forall t, exists t', returns (foldM body l t) t' (flat_map out l).
Proof.
  induction l as [|x l IH]; intros Hbody t; simpl.
  - exists t. apply returns_ret.
  - destruct (Hbody x t) as [t1 H1]; [left; reflexivity|].
    destruct (IH (fun y t0 Hy => Hbody y t0 (or_intror Hy)) t1) as [t2 H2].
    exists t2. eapply returns_bind; eassumption.
Qed.

Lemma returns_snd {A} (m : M A) a ds : returns m a ds -> snd (m []) = ds.
Proof. intros H. rewrite H. reflexivity. Qed.

(** The path [astPath] builds is made of nodes of the files. *)
Lemma astPath_step_nodes target l : forall s,
  (forall n, In n (fst s) -> In n (fst s ++ l)) ->
  forall n, In n (fst (fold_left (astPath_step target) l s)) ->
            In n (fst s ++ l).
Proof.
  induction l as [|x l IH]; intros s _ n Hn; simpl in *.
  - rewrite app_nil_r. exact Hn.
  - apply IH in Hn; [|intros; apply in_or_app; left; assumption].
    unfold astPath_step in Hn. destruct s as [path found]. simpl in *.
    destruct found; simpl in *.
    + apply in_app_or in Hn as [Hn|Hn]; apply in_or_app; [left; exact Hn|].
      right. right. exact Hn.
    + destruct (ast.same x target); simpl in *.
      * apply in_app_or in Hn as [Hn|Hn]; apply in_or_app; [left; exact Hn|].
        right. right. exact Hn.
      * rewrite <- app_assoc in Hn. exact Hn.
Qed.

Lemma astPath_nodes files target n :
  In n (fst (astPath files target)) -> In n (flat_map ast.nodes files).
Proof.
  induction files as [|file rest IH]; simpl; [tauto|].
  rewrite Inspect_astPath.
  destruct (fold_left (astPath_step target) (ast.nodes file) ([], false))
    as [path found] eqn:E.
  destruct found; simpl; intros Hn.
  - apply in_or_app. left.
    apply (astPath_step_nodes target (ast.nodes file) ([], false));
      [intros ? []|]. rewrite E. exact Hn.
  - apply in_or_app. right. apply IH, Hn.
Qed.

Lemma lastFuncDecl_in path n : lastFuncDecl path = Some n -> In n path.
Proof.
  unfold lastFuncDecl. intros H. apply find_some in H as [H _].
  apply in_rev. exact H.
Qed.

Lemma isInstanciator_returns pass expr T :
  bodies pass = true -> exists b, returns (isInstanciator pass expr T) b [].
Proof.
  intros Hb. unfold isInstanciator.
  destruct (astPath (Files pass) expr) as [path found] eqn:E.
  destruct (lastFuncDecl path) as [n|] eqn:Hl;
    [|eexists; apply returns_ret].
  destruct n; try (eexists; apply returns_ret).
  destruct Body as [b|]; [eexists; apply returns_ret|].
  exfalso. unfold bodies in Hb. rewrite forallb_forall in Hb.
  specialize (Hb (ast.FuncDecl a Doc Recv Name Type_ None)).
  simpl in Hb. discriminate Hb.
  apply (astPath_nodes _ expr). rewrite E. simpl.
  apply lastFuncDecl_in. exact Hl.
Qed.

Lemma checkAssignment_returns pass expr cf :
  bodies pass = true ->
  exists ds, returns (checkAssignment pass expr cf) tt ds.
Proof.
  intros Hb. unfold checkAssignment.
  destruct expr; try (eexists; apply returns_ret).
  destruct (types.Selections (TypesInfo pass) !! a) as [[kind recvo]|];
    [|eexists; apply returns_ret]. simpl.
  destruct kind; try (eexists; apply returns_ret).
  destruct recvo as [recvT|]; [|eexists; apply returns_ret].
  assert (Hnamed : forall T targs, exists ds, returns
      (match cf !! {| structType := T; fieldName := ast.Name Sel |} with
       | Some fieldPos =>
           inConstructor ← isInstanciator pass (ast.SelectorExpr a expr Sel)
                             (types.Named T targs);
           if negb inConstructor
           then Reportf (ast.Pos expr) (fieldMessage pass T (ast.Name Sel) fieldPos)
           else mret tt
       | None => mret tt
       end) tt ds).
  { intros T targs. destruct (cf !! _) as [fieldPos|];
      [|eexists; apply returns_ret].
    destruct (isInstanciator_returns pass (ast.SelectorExpr a expr Sel)
                (types.Named T targs) Hb) as [b Hr].
    destruct b; eexists; (eapply returns_bind; [exact Hr|]); simpl;
      [apply returns_ret|apply returns_Reportf]. }
  destruct recvT as [T targs|elem|]; try (eexists; apply returns_ret).
  - apply Hnamed.
  - destruct elem as [T targs| |]; try (eexists; apply returns_ret).
    apply Hnamed.
Qed.

Lemma checkParamAssignment_returns pass expr cp :
  exists ds, returns (checkParamAssignment pass expr cp) tt ds.
Proof.
  unfold checkParamAssignment.
  destruct expr; try (eexists; apply returns_ret).
  destruct (astPath (Files pass) (ast.Ident id)) as [path found].
  destruct found; simpl; [|eexists; apply returns_ret].
  destruct (lastFuncDecl path) as [[]|]; try (eexists; apply returns_ret).
  destruct (types.ObjectOf (TypesInfo pass) id) as [obj|];
    [|eexists; apply returns_ret].
  destruct (types.Object_Pos obj =? token.NoPos);
    [eexists; apply returns_ret|].
  destruct (cp !! _); eexists; [apply returns_Reportf|apply returns_ret].
Qed.

Lemma checkLhs_returns pass cf cp lhs :
  bodies pass = true ->
  returns (checkLhs pass cf cp lhs) tt (snd (checkLhs pass cf cp lhs [])).
Proof.
  intros Hb.
  destruct (checkAssignment_returns pass lhs cf Hb) as [ds1 H1].
  destruct (checkParamAssignment_returns pass lhs cp) as [ds2 H2].
  assert (H : returns (checkLhs pass cf cp lhs) tt (ds1 ++ ds2))
    by (unfold checkLhs, checkFieldAssignment; eapply returns_bind; eassumption).
  rewrite (returns_snd _ _ _ H). exact H.
Qed.

Lemma scanNode_returns pass n :
  bodies pass = true ->
  returns (scanNode pass (fst (index pass)) (snd (index pass)) n) tt
          (flat_map (reports pass) (lhsTargets n)).
Proof.
  intros Hb. unfold scanNode, lhsTargets.
  destruct n; try apply returns_ret.
  destruct (token.eqb Tok token.DEFINE); [apply returns_ret|].
  unfold forM_.
  destruct (returns_foldM
              (fun x (_ : unit) => checkLhs pass (fst (index pass)) (snd (index pass)) x)
              (reports pass) Lhs) with (t := tt) as [[] H].
  - intros x [] _. exists tt. apply checkLhs_returns, Hb.
  - exact H.
Qed.

(** When every function declaration has a body, [run] returns, and its
    diagnostics are, target after target in the order of the second pass,
    what the two checks report for the target. *)
Theorem run_reports pass :
  bodies pass = true ->
  run pass [] = (Returned tt, flat_map (reports pass) (targets pass)).
Proof.
  intros Hb. rewrite run_unfold. unfold inspector.Preorder, targets.
  destruct (returns_foldM
              (fun n (t : unit) =>
                 if assignFilter n
                 then scanNode pass (fst (index pass)) (snd (index pass)) n
                 else mret t)
              (fun n => flat_map (reports pass) (lhsTargets n))
              (flat_map ast.nodes (Files pass))) with (t := tt) as [[] H].
  - intros n [] _. exists tt. destruct (assignFilter n) eqn:Hf.
    + apply scanNode_returns, Hb.
    + replace (lhsTargets n) with (@nil ast.Node)
        by (destruct n; try reflexivity; discriminate).
      apply returns_ret.
  - rewrite H. simpl. f_equal. clear H.
    induction (flat_map ast.nodes (Files pass)) as [|x l IH]; simpl;
      [reflexivity|].
    rewrite flat_map_app, IH. reflexivity.
Qed.

(** The diagnostics of a run around one of its targets. *)
Corollary run_reports_at pass t1 target t2 ds :
  bodies pass = true ->
  targets pass = t1 ++ target :: t2 ->
  reports pass target = ds ->
  run pass []
  = (Returned tt,
     flat_map (reports pass) t1 ++ ds ++ flat_map (reports pass) t2).
Proof.
  intros Hb Ht Hd. rewrite (run_reports pass Hb), Ht, flat_map_app.
  simpl. rewrite Hd. reflexivity.
Qed.

(** Without that condition a run can panic.  The path [astPath] returns
    holds every node met before the target, so its last function
    declaration is the last one before the target in the file, here [ext],
    which has no body to inspect. *)
Example run_stubPass :
  bodies sample.stubPass = false
  /\ run sample.stubPass [] = (Panicked, []).
Proof. split; vm_compute; reflexivity. Qed.

(* ===================================================================== *)
(** * Lemmas: the earlier classifier                                       *)
(* ===================================================================== *)

(** Where the three rules of the initialization context come from.  The
    earlier classifier had the result-type rule. *)
Lemma legacy_result_rule Underlying pass R target a doc name t body T :
  R = ast.FuncDecl a doc None name t body ->
  enclosed_in pass R target ->
  legacy.returnsOwnType pass t T = true ->
  legacy.isInConstructor Underlying pass target T = true.
Proof.
  intros -> Henc Hret.
  destruct (enclosing_function _ _ _ Henc) as (path & Hp & Hl).
  unfold legacy.isInConstructor. rewrite Hp, Hl. exact Hret.
Qed.

(** It consulted the name of a method only when the receiver's type was
    the underlying type of the owner.  The underlying type of a type is
    never a named type and the type of a receiver, one pointer unwrapped,
    always is: for a method the earlier classifier was the result-type
    rule too, whatever the name. *)
Lemma legacy_name_rule_unreachable
    Underlying pass R target a doc recvField name t body T recvT o args :
  R = ast.FuncDecl a doc (Some [recvField]) name t body ->
  enclosed_in pass R target ->
  types.TypeOf (TypesInfo pass) (ast.Field_Type recvField) = Some recvT ->
  recvT = types.Named o args \/ recvT = types.Pointer (types.Named o args) ->
  (forall o' args', Underlying T <> types.Named o' args') ->
  legacy.isInConstructor Underlying pass target T
  = legacy.returnsOwnType pass t T.
Proof.
  intros -> Henc Hrecv Hshape Hunder.
  destruct (enclosing_function _ _ _ Henc) as (path & Hp & Hl).
  unfold legacy.isInConstructor. rewrite Hp, Hl, Hrecv.
  assert (Hne : types.Identical (types.Named o args) (Underlying T) = false).
  { destruct (Underlying T) as [o' args'| |] eqn:E; try reflexivity.
    exfalso. exact (Hunder o' args' eq_refl). }
  destruct Hshape as [-> | ->]; rewrite Hne; reflexivity.
Qed.

(* ===================================================================== *)
(** * Lemmas: more on the first pass                                       *)
(* ===================================================================== *)

Lemma insertAll_other {A K V : Type} `{Countable K} (key : A -> K)
    (val : A -> V) l : forall (m : gmap K V) k,
  (forall x, In x l -> key x <> k) ->
  insertAll key val l m !! k = m !! k.
Proof.
  induction l as [|y l IH]; intros m k Hk; simpl; [reflexivity|].
  rewrite IH by (intros x Hx; apply Hk; right; exact Hx).
  apply lookup_insert_ne. apply Hk. left. reflexivity.
Qed.

Lemma insertAll_const_keeps {A K V : Type} `{Countable K} (key : A -> K)
    (v : V) l : forall (m : gmap K V) k,
  m !! k = Some v -> insertAll key (fun _ => v) l m !! k = Some v.
Proof.
  induction l as [|y l IH]; intros m k Hk; simpl; [exact Hk|].
  apply IH. destruct (decide (key y = k)) as [->|Hne].
  - apply lookup_insert_eq.
  - rewrite lookup_insert_ne by exact Hne. exact Hk.
Qed.

Lemma insertAll_const {A K V : Type} `{Countable K} (key : A -> K)
    (v : V) l : forall (m : gmap K V) x,
  In x l -> insertAll key (fun _ => v) l m !! key x = Some v.
Proof.
  induction l as [|y l IH]; intros m x Hx; simpl; [destruct Hx|].
  destruct Hx as [->|Hx]; [|apply IH, Hx].
  apply insertAll_const_keeps, lookup_insert_eq.
Qed.

Lemma indexNode_params_declared pass n t k :
  declaresParam pass n k -> snd (indexNode pass n t) !! k = Some (ast.Pos n).
Proof.
  intros (a & doc & recv & name & ft & body & p & -> & Hp & ->).
  destruct t as [cf cp]. unfold indexNode. simpl.
  apply (insertAll_const
           (fun paramName => {| funcName := ast.Name name;
                                paramName := paramName;
                                packagePath := Pkg_Path pass |})
           (ast.FuncType_Func ft) _ cp p Hp).
Qed.

Lemma indexNode_params_undeclared pass n t k :
  ~ declaresParam pass n k -> snd (indexNode pass n t) !! k = snd t !! k.
Proof.
  intros Hno. destruct t as [cf cp]. unfold indexNode.
  destruct n; try reflexivity.
  - destruct n; try reflexivity.
    destruct (types.Defs (TypesInfo pass) !! ast.id_addr Name) as [[]|];
      reflexivity.
  - simpl.
    apply (insertAll_other
             (fun paramName => {| funcName := ast.Name Name;
                                  paramName := paramName;
                                  packagePath := Pkg_Path pass |})
             (fun _ => ast.FuncType_Func Type_)).
    intros p Hp Hk. apply Hno. unfold declaresParam.
    exists a, Doc, Recv, Name, Type_, Body, p. auto.
Qed.

Lemma indexNode_params_from pass n t k pos :
  snd (indexNode pass n t) !! k = Some pos ->
  snd t !! k = Some pos \/ (declaresParam pass n k /\ pos = ast.Pos n).
Proof.
  destruct t as [cf cp]. unfold indexNode. intros Hk.
  destruct n; try (left; exact Hk).
  - destruct n; try (left; exact Hk).
    destruct (types.Defs (TypesInfo pass) !! ast.id_addr Name) as [[]|];
      left; exact Hk.
  - simpl in Hk.
    apply (insertAll_from
             (fun paramName => {| funcName := ast.Name Name;
                                  paramName := paramName;
                                  packagePath := Pkg_Path pass |})
             (fun _ => ast.FuncType_Func Type_)) in Hk
      as [Hk|(p & Hp & <- & <-)]; [left; exact Hk|].
    right. split; [|reflexivity]. unfold declaresParam.
    exists a, Doc, Recv, Name, Type_, Body, p. auto.
Qed.

(** Every entry of the parameter table is the position of a function
    declaration of the unit that marks the name. *)
Lemma index_params_sound pass k pos :
  snd (index pass) !! k = Some pos ->
  exists n, In n (flat_map ast.nodes (Files pass))
            /\ declaresParam pass n k /\ pos = ast.Pos n.
Proof.
  unfold index. generalize (flat_map ast.nodes (Files pass)). intros l.
  assert (H : forall t,
             snd (fold_left (fun t n => indexNode pass n t) l t) !! k = Some pos ->
             snd t !! k = Some pos
             \/ exists n, In n l /\ declaresParam pass n k /\ pos = ast.Pos n).
  { induction l as [|m l IH]; intros t Hk; simpl in *; [left; exact Hk|].
    apply IH in Hk as [Hk|(n & Hn & Hd)].
    - apply indexNode_params_from in Hk as [Hk|Hd]; [left; exact Hk|].
      right. exists m. tauto.
    - right. exists n. tauto. }
  intros Hk. apply H in Hk as [Hk|Hk]; [|exact Hk].
  simpl in Hk. rewrite lookup_empty in Hk. discriminate.
Qed.

Lemma index_fold_params_last pass l2 : forall t k,
  (forall m, In m l2 -> ~ declaresParam pass m k) ->
  snd (fold_left (fun t n => indexNode pass n t) l2 t) !! k = snd t !! k.
Proof.
  induction l2 as [|m l2 IH]; intros t k Hno; simpl; [reflexivity|].
  rewrite IH by (intros m' Hm'; apply Hno; right; exact Hm').
  apply indexNode_params_undeclared, Hno. left. reflexivity.
Qed.

(* ===================================================================== *)
(** * Lemmas: more on [astPath]                                            *)
(* ===================================================================== *)

Lemma astPath_step_snd target l : forall path,
  snd (fold_left (astPath_step target) l (path, false))
  = existsb (fun n => ast.same n target) l.
Proof.
  induction l as [|x l IH]; intros path; simpl; [reflexivity|].
  unfold astPath_step at 2. simpl. destruct (ast.same x target); simpl.
  - rewrite astPath_step_found by reflexivity. reflexivity.
  - apply IH.
Qed.

Lemma app_reassoc2 {A} (x p : list A) t y w :
  x ++ (p ++ t :: y) ++ w = (x ++ p) ++ t :: y ++ w.
Proof. rewrite <- !app_assoc. simpl. reflexivity. Qed.

(** With distinct addresses, the path of a target is the part of the walk
    of its file that comes before it. *)
Lemma astPath_prefix files file pre target post :
  unique_addrs files -> In file files ->
  ast.nodes file = pre ++ target :: post ->
  astPath files target = (pre, true).
Proof.
  intros Huniq Hfile Hnodes.
  apply in_split in Hfile as (fs1 & fs2 & ->).
  assert (Hall : forall n, In n (flat_map ast.nodes fs1 ++ pre) ->
                       ast.same n target = false).
  { apply NoDup_app_same with (l2 := post ++ flat_map ast.nodes fs2).
    unfold unique_addrs in Huniq. rewrite flat_map_app in Huniq.
    cbn [flat_map] in Huniq. rewrite Hnodes, app_reassoc2 in Huniq.
    exact Huniq. }
  eapply astPath_hit; [| exact Hnodes | | apply same_refl].
  - intros n Hn. apply Hall, in_or_app. left. exact Hn.
  - intros n Hn. apply Hall, in_or_app. right. exact Hn.
Qed.

Lemma lastFuncDecl_none path :
  existsb isFuncDecl path = false -> lastFuncDecl path = None.
Proof.
  intros H. unfold lastFuncDecl.
  destruct (find isFuncDecl (rev path)) as [n|] eqn:E; [|reflexivity].
  apply find_some in E as [Hin Hf]. apply in_rev in Hin.
  assert (existsb isFuncDecl path = true)
    by (apply existsb_exists; exists n; auto).
  congruence.
Qed.

(** The function the two checks take for the enclosing one: the last
    function declaration the walk of the file meets before the target. *)
Lemma attributed_function pass file q F mid target post :
  unique_addrs (Files pass) -> In file (Files pass) ->
  ast.nodes file = q ++ F :: mid ++ target :: post ->
  isFuncDecl F = true -> existsb isFuncDecl mid = false ->
  astPath (Files pass) target = (q ++ F :: mid, true)
  /\ lastFuncDecl (q ++ F :: mid) = Some F.
Proof.
  intros Huniq Hfile Hnodes HF Hmid. split.
  - apply (astPath_prefix _ file _ _ post Huniq Hfile).
    rewrite Hnodes, <- app_assoc. reflexivity.
  - apply lastFuncDecl_app; assumption.
Qed.

Lemma unattributed pass file pre target post :
  unique_addrs (Files pass) -> In file (Files pass) ->
  ast.nodes file = pre ++ target :: post ->
  existsb isFuncDecl pre = false ->
  astPath (Files pass) target = (pre, true) /\ lastFuncDecl pre = None.
Proof.
  intros Huniq Hfile Hnodes Hpre. split.
  - exact (astPath_prefix _ file _ _ post Huniq Hfile Hnodes).
  - apply lastFuncDecl_none, Hpre.
Qed.

Lemma checkAssignment_writesField pass cf target T targs F :
  writesField pass target T targs F ->
  checkAssignment pass target cf
  = match cf !! {| structType := T; fieldName := F |} with
    | Some fieldPos =>
        inConstructor ← isInstanciator pass target (types.Named T targs);
        if negb inConstructor
        then Reportf (ast.Pos target) (fieldMessage pass T F fieldPos)
        else mret tt
    | None => mret tt
    end.
Proof.
  intros (sa & X & Sel & recvT & -> & <- & Hsel & Hrecv).
  apply (checkAssignment_named _ _ _ _ _ _ _ _ Hsel Hrecv).
Qed.

Lemma checkParamAssignment_writesField pass cp target T targs F :
  writesField pass target T targs F ->
  checkParamAssignment pass target cp = mret tt.
Proof. intros (sa & X & Sel & recvT & -> & _). reflexivity. Qed.

(* ===================================================================== *)
(** * Lemmas: when a run returns, when it panics                           *)
(* ===================================================================== *)

Lemma checkLhs_returns_when pass cf cp lhs :
  (exists ds, returns (checkAssignment pass lhs cf) tt ds) ->
  returns (checkLhs pass cf cp lhs) tt (snd (checkLhs pass cf cp lhs [])).
Proof.
  intros [ds1 H1].
  destruct (checkParamAssignment_returns pass lhs cp) as [ds2 H2].
  assert (H : returns (checkLhs pass cf cp lhs) tt (ds1 ++ ds2))
    by (unfold checkLhs, checkFieldAssignment; eapply returns_bind; eassumption).
  rewrite (returns_snd _ _ _ H). exact H.
Qed.

Lemma scanNode_returns_when pass n :
  (forall lhs, In lhs (lhsTargets n) ->
     exists ds, returns (checkAssignment pass lhs (fst (index pass))) tt ds) ->
  returns (scanNode pass (fst (index pass)) (snd (index pass)) n) tt
          (flat_map (reports pass) (lhsTargets n)).
Proof.
  intros Hok. unfold scanNode, lhsTargets in *.
  destruct n; try apply returns_ret.
  destruct (token.eqb Tok token.DEFINE); [apply returns_ret|].
  unfold forM_.
  destruct (returns_foldM
              (fun x (_ : unit) => checkLhs pass (fst (index pass)) (snd (index pass)) x)
              (reports pass) Lhs) with (t := tt) as [[] H].
  - intros x [] Hx. exists tt. apply checkLhs_returns_when, Hok, Hx.
  - exact H.
Qed.

Lemma flat_map_flat_map {A B C} (f : A -> list B) (g : B -> list C) l :
  flat_map (fun x => flat_map g (f x)) l = flat_map g (flat_map f l).
Proof.
  induction l as [|x l IH]; simpl; [reflexivity|].
  rewrite flat_map_app, IH. reflexivity.
Qed.

(** A run in which the field check of every target returns, returns, and
    reports target after target what the two checks report. *)
Lemma run_returns_when pass :
  (forall lhs, In lhs (targets pass) ->
     exists ds, returns (checkAssignment pass lhs (fst (index pass))) tt ds) ->
  returns (run pass) tt (flat_map (reports pass) (targets pass)).
Proof.
  intros Hok log. rewrite run_unfold. unfold inspector.Preorder.
  unfold targets in *. rewrite <- flat_map_flat_map.
  destruct (returns_foldM
              (fun n (t : unit) =>
                 if assignFilter n
                 then scanNode pass (fst (index pass)) (snd (index pass)) n
                 else mret t)
              (fun n => flat_map (reports pass) (lhsTargets n))
              (flat_map ast.nodes (Files pass))) with (t := tt) as [[] H].
  - intros n [] Hn. exists tt. destruct (assignFilter n) eqn:Hf.
    + apply scanNode_returns_when. intros lhs Hlhs. apply Hok.
      apply in_flat_map. exists n. auto.
    + replace (lhsTargets n) with (@nil ast.Node)
        by (destruct n; try reflexivity; discriminate).
      apply returns_ret.
  - apply H.
Qed.

Lemma checkAssignment_unmarked pass expr cf :
  (forall k, cf !! k = None) -> checkAssignment pass expr cf = mret tt.
Proof.
  intros Hno. unfold checkAssignment. destruct expr; try reflexivity.
  destruct (types.Selections (TypesInfo pass) !! a) as [[kind recvo]|];
    [|reflexivity]. simpl.
  destruct kind; try reflexivity.
  destruct recvo as [[T targs|[T targs| |]|]|]; try reflexivity;
    rewrite Hno; reflexivity.
Qed.

Lemma checkParamAssignment_unmarked pass expr cp :
  (forall k, cp !! k = None) -> checkParamAssignment pass expr cp = mret tt.
Proof.
  intros Hno. unfold checkParamAssignment. destruct expr; try reflexivity.
  destruct (astPath (Files pass) (ast.Ident id)) as [path found].
  destruct found; simpl; [|reflexivity].
  destruct (lastFuncDecl path) as [[]|]; try reflexivity.
  destruct (types.ObjectOf (TypesInfo pass) id) as [obj|]; [|reflexivity].
  destruct (types.Object_Pos obj =? token.NoPos); [reflexivity|].
  rewrite Hno. reflexivity.
Qed.

Lemma index_fields_none pass k :
  (forall n pos, In n (flat_map ast.nodes (Files pass)) ->
     ~ declaresField pass n k pos) ->
  fst (index pass) !! k = None.
Proof.
  intros Hno. destruct (fst (index pass) !! k) as [pos|] eqn:E; [|reflexivity].
  apply index_fields_sound in E as (n & Hn & Hd). destruct (Hno n pos Hn Hd).
Qed.

Lemma index_params_none pass k :
  (forall n, In n (flat_map ast.nodes (Files pass)) -> ~ declaresParam pass n k) ->
  snd (index pass) !! k = None.
Proof.
  intros Hno. destruct (snd (index pass) !! k) as [pos|] eqn:E; [|reflexivity].
  apply index_params_sound in E as (n & Hn & Hd & _). destruct (Hno n Hn Hd).
Qed.

(** Once an iteration panics whatever the state, the loop panics. *)
Lemma foldM_panics {A T} (body : A -> T -> M T) l x :
  In x l -> (forall t log, fst (body x t log) = Panicked) ->
  forall t log, fst (foldM body l t log) = Panicked.
Proof.
  intros Hx Hp. induction l as [|y l IH]; intros t log; [destruct Hx|].
  simpl. unfold mbind, M_bind.
  destruct (body y t log) as [[t'|] log'] eqn:E; [|reflexivity].
  destruct Hx as [->|Hx]; [|apply IH, Hx].
  specialize (Hp t log). rewrite E in Hp. discriminate Hp.
Qed.

Lemma run_panics_when pass target :
  In target (targets pass) ->
  (forall log, fst (checkLhs pass (fst (index pass)) (snd (index pass)) target log)
               = Panicked) ->
  forall log, fst (run pass log) = Panicked.
Proof.
  intros Ht Hp log. rewrite run_unfold. unfold inspector.Preorder.
  unfold targets in Ht. apply in_flat_map in Ht as (n & Hn & Hlhs).
  apply (foldM_panics _ _ n Hn). intros [] log'.
  destruct n; try destruct Hlhs. simpl in *.
  destruct (token.eqb Tok token.DEFINE); [destruct Hlhs|].
  unfold forM_. apply (foldM_panics _ _ target Hlhs). intros [] log''. apply Hp.
Qed.

(* ===================================================================== *)
(** * Lemmas: how many diagnostics, and what they cite                     *)
(* ===================================================================== *)

Lemma emitsUpTo_ret {A} k (a : A) : emitsUpTo k (mret a).
Proof. intros log. exists []. rewrite app_nil_r. split; [reflexivity|simpl; lia]. Qed.

Lemma emitsUpTo_Reportf k pos msg : (1 <= k)%nat -> emitsUpTo k (Reportf pos msg).
Proof.
  intros Hk log. exists [ {| Pos := pos; Message := msg |} ].
  split; [reflexivity|exact Hk].
Qed.

Lemma emitsUpTo_bind {A B} k1 k2 (m : M A) (f : A -> M B) :
  emitsUpTo k1 m -> (forall a, emitsUpTo k2 (f a)) ->
  emitsUpTo (k1 + k2) (m ≫= f).
Proof.
  intros Hm Hf log. unfold mbind, M_bind.
  destruct (Hm log) as (ds & Hlog & Hds).
  destruct (m log) as [[a|] log'] eqn:E; simpl in Hlog; subst log'.
  - destruct (Hf a (log ++ ds)) as (ds' & Hlog' & Hds').
    exists (ds ++ ds'). rewrite Hlog', app_assoc. split; [reflexivity|].
    rewrite length_app. lia.
  - exists ds. split; [reflexivity|lia].
Qed.

Lemma emitsUpTo_foldM {A T} (w : A -> nat) (body : A -> T -> M T) l :
  (forall x t, emitsUpTo (w x) (body x t)) ->
  forall t, emitsUpTo (list_sum (map w l)) (foldM body l t).
Proof.
  intros Hbody. induction l as [|x l IH]; intros t; simpl; [apply emitsUpTo_ret|].
  apply emitsUpTo_bind; [apply Hbody|exact IH].
Qed.

Lemma isInstanciator_emitsUpTo pass expr T :
  emitsUpTo 0 (isInstanciator pass expr T).
Proof.
  intros log. destruct (isInstanciator_silent pass expr T log) as (ds & Hlog & Hds).
  exists ds. split; [exact Hlog|].
  destruct ds as [|d ds]; [simpl; lia|].
  rewrite List.Forall_forall in Hds. destruct (Hds d). left. reflexivity.
Qed.

Lemma checkAssignment_emitsUpTo pass expr cf :
  emitsUpTo (match expr with ast.SelectorExpr _ _ _ => 1 | _ => 0 end)
            (checkAssignment pass expr cf).
Proof.
  unfold checkAssignment. destruct expr; try apply emitsUpTo_ret.
  destruct (types.Selections (TypesInfo pass) !! a) as [[kind recvo]|];
    [|apply emitsUpTo_ret]. simpl.
  destruct kind; try apply emitsUpTo_ret.
  assert (Hnamed : forall T targs,
    emitsUpTo 1
      (match cf !! {| structType := T; fieldName := ast.Name Sel |} with
       | Some fieldPos =>
           inConstructor ← isInstanciator pass (ast.SelectorExpr a expr Sel)
                             (types.Named T targs);
           if negb inConstructor
           then Reportf (ast.Pos expr) (fieldMessage pass T (ast.Name Sel) fieldPos)
           else mret tt
       | None => mret tt
       end)).
  { intros T targs. destruct (cf !! _) as [fieldPos|]; [|apply emitsUpTo_ret].
    apply (emitsUpTo_bind 0 1); [apply isInstanciator_emitsUpTo|].
    intros [|]; simpl; [apply emitsUpTo_ret|apply emitsUpTo_Reportf; lia]. }
  destruct recvo as [[T targs|[T targs| |]|]|]; try apply emitsUpTo_ret;
    apply Hnamed.
Qed.

Lemma checkParamAssignment_emitsUpTo pass expr cp :
  emitsUpTo (match expr with ast.Ident _ => 1 | _ => 0 end)
            (checkParamAssignment pass expr cp).
Proof.
  unfold checkParamAssignment. destruct expr; try apply emitsUpTo_ret.
  destruct (astPath (Files pass) (ast.Ident id)) as [path found].
  destruct found; simpl; [|apply emitsUpTo_ret].
  destruct (lastFuncDecl path) as [[]|]; try apply emitsUpTo_ret.
  destruct (types.ObjectOf (TypesInfo pass) id) as [obj|]; [|apply emitsUpTo_ret].
  destruct (types.Object_Pos obj =? token.NoPos); [apply emitsUpTo_ret|].
  destruct (cp !! _); [|apply emitsUpTo_ret].
  apply emitsUpTo_Reportf. lia.
Qed.

Lemma checkLhs_emitsUpTo pass cf cp lhs : emitsUpTo 1 (checkLhs pass cf cp lhs).
Proof.
  unfold checkLhs, checkFieldAssignment.
  pose proof (checkAssignment_emitsUpTo pass lhs cf) as H1.
  pose proof (checkParamAssignment_emitsUpTo pass lhs cp) as H2.
  destruct lhs;
    first [ apply (emitsUpTo_bind 1 0); [exact H1|intros _; exact H2]
          | apply (emitsUpTo_bind 0 1); [exact H1|intros _; exact H2]
          | apply (emitsUpTo_bind 0 1); [exact H1|intros _];
            intros log; destruct (H2 log) as (ds & Hlog & Hds);
            exists ds; split; [exact Hlog|lia] ].
Qed.

Lemma scanNode_emitsUpTo pass cf cp n :
  emitsUpTo (length (lhsTargets n)) (scanNode pass cf cp n).
Proof.
  unfold scanNode, lhsTargets. destruct n; try apply emitsUpTo_ret.
  destruct (token.eqb Tok token.DEFINE); [apply emitsUpTo_ret|].
  unfold forM_.
  replace (length Lhs) with (list_sum (map (fun _ : ast.Node => 1%nat) Lhs)).
  - apply emitsUpTo_foldM. intros x []. apply checkLhs_emitsUpTo.
  - induction Lhs as [|x l IH]; simpl; [reflexivity|]. rewrite IH. reflexivity.
Qed.

Lemma length_flat_map_sum {A B} (f : A -> list B) l :
  length (flat_map f l) = list_sum (map (fun x => length (f x)) l).
Proof.
  induction l as [|x l IH]; simpl; [reflexivity|].
  rewrite length_app, IH. reflexivity.
Qed.

(** What the field check reports names an entry of the table. *)
Lemma checkAssignment_cites pass expr cf :
  emits (fun d => exists T F pos,
                    Message d = fieldMessage pass T F pos
                    /\ cf !! {| structType := T; fieldName := F |} = Some pos)
        (checkAssignment pass expr cf).
Proof.
  unfold checkAssignment. destruct expr; try apply emits_ret.
  destruct (types.Selections (TypesInfo pass) !! a) as [[kind recvo]|];
    [|apply emits_ret]. simpl.
  destruct kind; try apply emits_ret.
  assert (Hnamed : forall T targs,
    emits (fun d => exists T F pos,
                    Message d = fieldMessage pass T F pos
                    /\ cf !! {| structType := T; fieldName := F |} = Some pos)
      (match cf !! {| structType := T; fieldName := ast.Name Sel |} with
       | Some fieldPos =>
           inConstructor ← isInstanciator pass (ast.SelectorExpr a expr Sel)
                             (types.Named T targs);
           if negb inConstructor
           then Reportf (ast.Pos expr) (fieldMessage pass T (ast.Name Sel) fieldPos)
           else mret tt
       | None => mret tt
       end)).
  { intros T targs. destruct (cf !! _) as [fieldPos|] eqn:Hk; [|apply emits_ret].
    apply emits_bind.
    - eapply emits_weaken; [|apply isInstanciator_silent]. intros d [].
    - intros [|]; simpl; [apply emits_ret|].
      apply emits_Reportf. simpl. exists T, (ast.Name Sel), fieldPos. auto. }
  destruct recvo as [[T targs|[T targs| |]|]|]; try apply emits_ret;
    apply Hnamed.
Qed.

(** What the parameter check reports names an entry of the table. *)
Lemma checkParamAssignment_cites pass expr cp :
  emits (fun d => exists k pos,
                    Message d = paramMessage pass (paramName k) pos
                    /\ cp !! k = Some pos)
        (checkParamAssignment pass expr cp).
Proof.
  unfold checkParamAssignment. destruct expr; try apply emits_ret.
  destruct (astPath (Files pass) (ast.Ident id)) as [path found].
  destruct found; simpl; [|apply emits_ret].
  destruct (lastFuncDecl path) as [[]|]; try apply emits_ret.
  destruct (types.ObjectOf (TypesInfo pass) id) as [obj|]; [|apply emits_ret].
  destruct (types.Object_Pos obj =? token.NoPos); [apply emits_ret|].
  destruct (cp !! _) as [pos|] eqn:Hk; [|apply emits_ret].
  apply emits_Reportf. simpl.
  exists {| funcName := ast.Name Name; paramName := ast.Name id;
            packagePath := Pkg_Path pass |}, pos. auto.
Qed.

(* ===================================================================== *)
(** * Lemmas: the list marker                                              *)
(* ===================================================================== *)

Lemma prefix_empty s : String.prefix "" s = true.
Proof. destruct s; reflexivity. Qed.

Lemma prefix_split p : forall s,
  String.prefix p s = true -> exists post, s = p +:+ post.
Proof.
  induction p as [|a p IH]; intros s H.
  - exists s. reflexivity.
  - destruct s as [|b s]; [discriminate|]. simpl in H.
    destruct (Ascii.ascii_dec a b) as [->|]; [|discriminate].
    destruct (IH s H) as [post ->]. exists post. reflexivity.
Qed.

(** [Index] answers with the start of an occurrence. *)
Lemma index_nat_split sub s : forall i,
  strings.index_nat s sub = Some i ->
  exists pre post, s = pre +:+ sub +:+ post /\ String.length pre = i.
Proof.
  induction s as [|b s IH]; intros i Hi; rewrite index_nat_unfold in Hi.
  - destruct (String.prefix sub "") eqn:Hp; [|discriminate]. injection Hi as <-.
    apply prefix_split in Hp as [post Hpost]. exists "", post. auto.
  - destruct (String.prefix sub (String b s)) eqn:Hp.
    + injection Hi as <-. apply prefix_split in Hp as [post Hpost].
      exists "", post. auto.
    + destruct (strings.index_nat s sub) as [j|] eqn:Hj; [|discriminate].
      simpl in Hi. injection Hi as <-.
      destruct (IH j eq_refl) as (pre & post & -> & Hlen).
      exists (String b pre), post. split; [reflexivity|simpl; lia].
Qed.

(** [Index] of one byte answers with its first occurrence. *)
Lemma index_nat_char c s : forall j,
  strings.index_nat s (String c "") = Some j ->
  exists a b, s = a +:+ String c b /\ String.length a = j
              /\ ~ In c (list_ascii_of_string a).
Proof.
  induction s as [|d s IH]; intros j Hj; rewrite index_nat_unfold in Hj.
  - discriminate.
  - simpl in Hj. destruct (Ascii.ascii_dec c d) as [<-|Hne].
    + rewrite prefix_empty in Hj. injection Hj as <-.
      exists "", s. split; [reflexivity|]. split; [reflexivity|]. intros [].
    + destruct (strings.index_nat s (String c "")) as [i|] eqn:Hi; [|discriminate].
      simpl in Hj. injection Hj as <-.
      destruct (IH i eq_refl) as (a & b & -> & Hlen & Hno).
      exists (String d a), b. split; [reflexivity|]. split; [simpl; lia|].
      simpl. intros [H|H]; [congruence|contradiction].
Qed.

Lemma index_nat_char_first c b : forall a,
  ~ In c (list_ascii_of_string a) ->
  strings.index_nat (a +:+ String c b) (String c "") = Some (String.length a).
Proof.
  induction a as [|d a IH]; intros Hno; rewrite index_nat_unfold; simpl.
  - destruct (Ascii.ascii_dec c c); [|congruence].
    rewrite prefix_empty. reflexivity.
  - destruct (Ascii.ascii_dec c d) as [->|Hne];
      [exfalso; apply Hno; left; reflexivity|].
    rewrite IH by (intros H; apply Hno; right; exact H). reflexivity.
Qed.

Lemma substring_skip pre : forall n rest,
  String.substring (String.length pre) n (pre +:+ rest)
  = String.substring 0 n rest.
Proof. induction pre as [|a pre IH]; intros n rest; simpl; [reflexivity|apply IH]. Qed.

Lemma substring_take a : forall b,
  String.substring 0 (String.length a) (a +:+ b) = a.
Proof.
  induction a as [|c a IH]; intros b; simpl; [destruct b; reflexivity|].
  rewrite IH. reflexivity.
Qed.

Lemma substring_all s : String.substring 0 (String.length s) s = s.
Proof. induction s as [|c s IH]; simpl; [reflexivity|]. rewrite IH. reflexivity. Qed.

Lemma length_append a b :
  String.length (a +:+ b) = (String.length a + String.length b)%nat.
Proof. induction a as [|c a IH]; simpl; [reflexivity|]. rewrite IH. reflexivity. Qed.

Lemma append_assoc a b c : (a +:+ b) +:+ c = a +:+ b +:+ c.
Proof.
  induction a as [|x a IH]; [reflexivity|].
  change (String x ((a +:+ b) +:+ c) = String x (a +:+ b +:+ c)).
  rewrite IH. reflexivity.
Qed.

Lemma Index_some s sub i :
  strings.index_nat s sub = Some i -> strings.Index s sub = Z.of_nat i.
Proof. unfold strings.Index. intros ->. reflexivity. Qed.

(** The first test at a line whose first occurrence of the opening is
    known: the list runs to the first closing bracket after it. *)
Lemma listMarker_at pre rest :
  strings.index_nat (pre +:+ "// +const:[" +:+ rest) "// +const:["
  = Some (String.length pre) ->
  listMarker (pre +:+ "// +const:[" +:+ rest)
  = match strings.index_nat rest "]" with
    | Some j => Some (String.substring 0 j rest)
    | None => None
    end.
Proof.
  intros Hi. unfold listMarker. rewrite (Index_some _ _ _ Hi).
  replace (Z.of_nat (String.length pre) =? -1) with false
    by (symmetry; apply Z.eqb_neq; lia).
  cbn [negb].
  assert (Hstart : Z.to_nat (Z.of_nat (String.length pre) + strings.len "// +const:[")
                   = String.length (pre +:+ "// +const:[")).
  { rewrite length_append. unfold strings.len. lia. }
  assert (Hfrom : strings.slice_from (pre +:+ "// +const:[" +:+ rest)
                    (Z.of_nat (String.length pre) + strings.len "// +const:[")
                  = rest).
  { unfold strings.slice_from. rewrite Hstart, <- append_assoc.
    rewrite substring_skip, !length_append.
    replace (String.length pre + String.length "// +const:[" + String.length rest
             - (String.length pre + String.length "// +const:["))%nat
      with (String.length rest) by lia.
    apply substring_all. }
  rewrite Hfrom. unfold strings.Index.
  destruct (strings.index_nat rest "]") as [j|]; [|reflexivity].
  replace (Z.of_nat j =? -1) with false by (symmetry; apply Z.eqb_neq; lia).
  cbn [negb]. f_equal. unfold strings.slice. rewrite Hstart.
  replace (Z.to_nat (Z.of_nat (String.length pre) + strings.len "// +const:["
                     + Z.of_nat j
                     - (Z.of_nat (String.length pre) + strings.len "// +const:[")))
    with j by lia.
  rewrite <- append_assoc. apply substring_skip.
Qed.

(** A line that starts with a closed list. *)
Lemma listMarker_closed lst post :
  ~ In "]"%char (list_ascii_of_string lst) ->
  listMarker ("// +const:[" +:+ lst +:+ "]" +:+ post) = Some lst.
Proof.
  intros Hno.
  change ("// +const:[" +:+ lst +:+ "]" +:+ post)
    with ("" +:+ "// +const:[" +:+ (lst +:+ "]" +:+ post)).
  rewrite listMarker_at.
  - change (lst +:+ "]" +:+ post) with (lst +:+ String "]" post).
    rewrite (index_nat_char_first _ _ _ Hno), substring_take. reflexivity.
  - rewrite index_nat_unfold.
    change ("" +:+ "// +const:[" +:+ lst +:+ "]" +:+ post)
      with ("// +const:[" +:+ (lst +:+ "]" +:+ post)).
    rewrite prefix_app. reflexivity.
Qed.

Lemma Split_clean x :
  ~ In ","%char (list_ascii_of_string x) -> strings.Split x "," = [x].
Proof.
  induction x as [|c x IH]; intros Hno; simpl; [reflexivity|].
  destruct (Ascii.eqb_spec c ",") as [->|Hne];
    [exfalso; apply Hno; left; reflexivity|].
  rewrite IH by (intros H; apply Hno; right; exact H). reflexivity.
Qed.

Lemma Split_cons rest : forall x,
  ~ In ","%char (list_ascii_of_string x) ->
  strings.Split (x +:+ "," +:+ rest) "," = x :: strings.Split rest ",".
Proof.
  induction x as [|c x IH]; intros Hno; simpl; [reflexivity|].
  destruct (Ascii.eqb_spec c ",") as [->|Hne];
    [exfalso; apply Hno; left; reflexivity|].
  rewrite IH by (intros H; apply Hno; right; exact H). reflexivity.
Qed.

(** Splitting at the commas undoes joining with commas. *)
Lemma Split_concat items :
  items <> [] ->
  Forall (fun x => ~ In ","%char (list_ascii_of_string x)) items ->
  strings.Split (String.concat "," items) "," = items.
Proof.
  induction items as [|x items IH]; intros Hne Hall; [congruence|].
  apply Forall_cons in Hall as [Hx Hall].
  destruct items as [|y items].
  - simpl. apply Split_clean, Hx.
  - change (String.concat "," (x :: y :: items))
      with (x +:+ "," +:+ String.concat "," (y :: items)).
    rewrite (Split_cons _ _ Hx), IH; [reflexivity|discriminate|exact Hall].
Qed.

Lemma append_chars a b c :
  In c (list_ascii_of_string (a +:+ b))
  -> In c (list_ascii_of_string a) \/ In c (list_ascii_of_string b).
Proof.
  induction a as [|d a IH]; simpl; [auto|].
  intros [H|H]; [auto|]. destruct (IH H); auto.
Qed.

Lemma concat_chars sep items c :
  In c (list_ascii_of_string (String.concat sep items)) ->
  In c (list_ascii_of_string sep)
  \/ exists x, In x items /\ In c (list_ascii_of_string x).
Proof.
  induction items as [|x items IH]; [intros []|].
  destruct items as [|y items].
  - simpl. intros H. right. exists x. auto.
  - change (String.concat sep (x :: y :: items))
      with (x +:+ sep +:+ String.concat sep (y :: items)).
    intros H. apply append_chars in H as [H|H];
      [right; exists x; split; [left; reflexivity|exact H]|].
    apply append_chars in H as [H|H]; [left; exact H|].
    destruct (IH H) as [H'|(z & Hz & Hc)]; [left; exact H'|].
    right. exists z. split; [right; exact Hz|exact Hc].
Qed.

(** The first line with a closed list decides, whatever follows it. *)
Lemma scanDoc_list pre c post lst :
  listMarker (ast.Text c) = Some lst ->
  (forall c', In c' pre ->
     listMarker (ast.Text c') = None
     /\ strings.TrimSpace (ast.Text c') <> "// +const") ->
  scanDoc (pre ++ c :: post) = (lst, false).
Proof.
  intros Hc Hpre. induction pre as [|c' pre IH]; simpl.
  - rewrite Hc. reflexivity.
  - destruct (Hpre c') as [Hl Ht]; [left; reflexivity|]. rewrite Hl.
    destruct (String.eqb_spec (strings.TrimSpace (ast.Text c')) "// +const");
      [contradiction|].
    apply IH. intros c'' Hin. apply Hpre. right. exact Hin.
Qed.

Lemma chars_append a b c :
  In c (list_ascii_of_string a) \/ In c (list_ascii_of_string b) ->
  In c (list_ascii_of_string (a +:+ b)).
Proof.
  induction a as [|d a IH]; intros H.
  - destruct H as [[]|H]. exact H.
  - change (In c (d :: list_ascii_of_string (a +:+ b))).
    destruct H as [[H|H]|H];
      [left; exact H|right; apply IH; left; exact H
      |right; apply IH; right; exact H].
Qed.

(** A list the scan finds is a closed list of the line. *)
Lemma listMarker_closes text lst :
  listMarker text = Some lst -> hasClosedList text.
Proof.
  intros H.
  destruct (strings.index_nat text "// +const:[") as [i|] eqn:Hi.
  - destruct (index_nat_split _ _ _ Hi) as (pre & rest & -> & Hlen).
    subst i. rewrite (listMarker_at _ _ Hi) in H.
    destruct (strings.index_nat rest "]") as [j|] eqn:Hj; [|discriminate].
    destruct (index_nat_char _ _ _ Hj) as (a & b & -> & <- & Hno).
    exists pre, a, b. reflexivity.
  - unfold listMarker, strings.Index in H. rewrite Hi in H. discriminate H.
Qed.

Lemma no_closed_list text : ~ hasClosedList text -> listMarker text = None.
Proof.
  intros H. destruct (listMarker text) as [lst|] eqn:E; [|reflexivity].
  destruct (H (listMarker_closes _ _ E)).
Qed.

(** A line with a closed list has a closing bracket. *)
Lemma hasClosedList_bracket text :
  hasClosedList text -> In "]"%char (list_ascii_of_string text).
Proof.
  intros (pre & lst & post & ->).
  apply chars_append. right. apply chars_append. right.
  apply chars_append. right. left. reflexivity.
Qed.

Lemma firstMarkerLine_scan g c :
  firstMarkerLine g c ->
  exists pre post,
    ast.List_ g = pre ++ c :: post
    /\ forall c', In c' pre ->
         listMarker (ast.Text c') = None
         /\ strings.TrimSpace (ast.Text c') <> "// +const".
Proof.
  intros (pre & post & Hg & Hpre). exists pre, post. split; [exact Hg|].
  intros c' Hc'. destruct (Hpre c' Hc') as [Hl Ht].
  split; [apply no_closed_list, Hl|exact Ht].
Qed.

(** A name of the list of the first marker line is marked. *)
Lemma markedParams_listed g t c name :
  firstMarkerLine g c -> listsParam (ast.Text c) name ->
  In name (markedParams (Some g) t).
Proof.
  intros Hfirst (items & rest & Htext & Hitems & Hne & item & Hitem & Htrim).
  destruct (firstMarkerLine_scan _ _ Hfirst) as (pre & post & Hg & Hpre).
  assert (Hlist : listMarker (ast.Text c) = Some (String.concat "," items)).
  { rewrite Htext. apply listMarker_closed. intros Hin.
    apply concat_chars in Hin as [Hin|(x & Hx & Hin)].
    - simpl in Hin. destruct Hin as [Hin|[]]. discriminate Hin.
    - rewrite List.Forall_forall in Hitems. destruct (Hitems x Hx) as [_ Hno].
      exact (Hno Hin). }
  unfold markedParams. rewrite Hg, (scanDoc_list _ _ _ _ Hlist Hpre).
  destruct (String.eqb_spec (String.concat "," items) "") as [He|_];
    [contradiction|].
  simpl. rewrite Split_concat.
  - rewrite <- Htrim. apply in_map, Hitem.
  - intros ->. destruct Hitem.
  - eapply List.Forall_impl; [|exact Hitems]. intros x [H _]. exact H.
Qed.

(** The names gathered for the standalone marker are the names the
    signature declares. *)
Lemma allParamNames_declares t name :
  In name (allParamNames t) <-> declaresParamName t name.
Proof.
  unfold allParamNames, declaresParamName.
  destruct (ast.FuncType_Params t) as [params|]; split.
  - intros H. apply in_flat_map in H as (field & Hf & Hn).
    apply in_map_iff in Hn as (id & Hid & Hin).
    exists params, field, id. auto.
  - intros (params' & field & id & Heq & Hf & Hid & Hname).
    injection Heq as <-. apply in_flat_map. exists field. split; [exact Hf|].
    apply in_map_iff. exists id. auto.
  - intros [].
  - intros (params' & field & id & Heq & _). discriminate Heq.
Qed.

(** The standalone marker, no closed list before it, marks what the
    signature declares. *)
Lemma markedParams_standalone g t pre c post :
  ast.List_ g = pre ++ c :: post ->
  strings.TrimSpace (ast.Text c) = "// +const" ->
  (forall c', In c' pre -> ~ hasClosedList (ast.Text c')) ->
  markedParams (Some g) t = allParamNames t.
Proof.
  intros Hg Hc Hpre. unfold markedParams.
  rewrite Hg, (scanDoc_standalone _ _ _ Hc); [reflexivity|].
  intros c' Hc'. apply no_closed_list, Hpre, Hc'.
Qed.

(* ===================================================================== *)
(** * Proof steps on the samples                                         *)
(* ===================================================================== *)

Ltac in_list := simpl; repeat (first [left; reflexivity | right]).

Ltac enclosed :=
  split;
  [ unfold unique_addrs; compute_done
  | do 4 eexists; split; [left; reflexivity | in_list]
  | reflexivity
  | in_list
  | reflexivity ].

(* ===================================================================== *)
(** * The claims                                                         *)
(* ===================================================================== *)

(** ** C1 *)




(** ** C2 *)

(** C2, as amended.  The field marker is the substring [+const]: a field
    comment that holds it anywhere, an unclosed [+const:[] included, marks
    the field.  The first pass enters each name of the field in the
    table, and ends without a diagnostic or a panic. *)
Theorem C2_field_marker_is_substring
    pass n a name sa sp fields T tpos field c pre post id log :
  In n (flat_map ast.nodes (Files pass)) ->
  n = ast.TypeSpec a name (ast.StructType sa sp fields) ->
  types.Defs (TypesInfo pass) !! ast.id_addr name = Some (types.ObjTypeName T tpos) ->
  In field fields ->
  In c (commentsOf (ast.Field_Doc field) ++ commentsOf (ast.Field_Comment field)) ->
  ast.Text c = pre +:+ "+const" +:+ post ->
  In id (ast.Field_Names field) ->
  buildIndex pass log = (Returned (index pass), log)
  /\ is_Some (fst (index pass) !! {| structType := T; fieldName := ast.Name id |}).
Proof.
  intros Hn -> Hdef Hfield Hc Htext Hid. split; [apply buildIndex_returns|].
  apply (index_fields_complete pass _ _ (ast.NamePos id) Hn).
  unfold declaresField. exists a, name, sa, sp, fields, T, tpos, field, id.
  split; [reflexivity|]. split; [exact Hdef|]. split; [exact Hfield|].
  split; [|auto].
  unfold fieldMarked. apply orb_true_iff.
  apply in_app_or in Hc as [Hc|Hc]; [left|right].
  - destruct (ast.Field_Doc field) as [g|]; [|destruct Hc].
    eapply commentsHaveConst_in; eassumption.
  - destruct (ast.Field_Comment field) as [g|]; [|destruct Hc].
    eapply commentsHaveConst_in; eassumption.
Qed.

(** The field [APIKey], whose line comment is [// +const:[]. *)
Lemma C2_witness :
  buildIndex sample.configPass [] = (Returned (index sample.configPass), [])
  /\ is_Some (fst (index sample.configPass)
                !! {| structType := sample.Config; fieldName := "APIKey" |}).
Proof.
  refine (C2_field_marker_is_substring sample.configPass sample.configSpec
            4 (sample.id 5 "Config") 6 6 [sample.apiKeyField] sample.Config 5
            sample.apiKeyField {| ast.Slash := 0; ast.Text := "// +const:[" |}
            "// " ":[" (sample.id 7 "APIKey") [] _ eq_refl _ _ _ _ _).
  - in_list.
  - reflexivity.
  - in_list.
  - in_list.
  - reflexivity.
  - in_list.
Defined.

(** [APIKey], marked by the unclosed [// +const:[], has an entry and the
    write to it is reported. *)
Lemma C2_counterexample :
  In sample.apiKeyField [sample.apiKeyField]
  /\ ast.Field_Comment sample.apiKeyField = sample.comments ["// +const:["]
  /\ fst (index sample.configPass)
       !! {| structType := sample.Config; fieldName := "APIKey" |} = Some 7
  /\ run sample.configPass []
     = (Returned tt,
        [ {| Pos := 18;
             Message := "assignment to const field Config.APIKey (marked with // +const at config.go:7)" |} ]).
Proof.
  split; [in_list|]. split; [reflexivity|]. split; vm_compute; reflexivity.
Qed.

(** ** C3 *)

(** C3. The parameter check never looks at what the written name is bound
    to.  In [Shadow], whose parameter [name] is marked, the inner block
    declares a variable [name], assigns to it and uses it; the written
    identifier resolves to that variable, not to the parameter, and the
    scanner reports the assignment all the same (the definition before it
    is skipped, and [_ = name] after it reports nothing). *)
Theorem C3_write_to_shadowing_local_is_reported :
  types.Defs sample.paramsInfo !! 52 = Some sample.shadowParam
  /\ types.ObjectOf sample.paramsInfo (sample.id 60 "name") = Some sample.shadowLocal
  /\ sample.shadowLocal <> sample.shadowParam
  /\ scanNode sample.paramsPass (fst (index sample.paramsPass))
       (snd (index sample.paramsPass))
       (ast.AssignStmt 56 [ast.Ident (sample.id 57 "name")] token.DEFINE
          [sample.lit 58]) []
     = (Returned tt, [])
  /\ scanNode sample.paramsPass (fst (index sample.paramsPass))
       (snd (index sample.paramsPass))
       (ast.AssignStmt 59 [ast.Ident (sample.id 60 "name")] token.ASSIGN
          [sample.lit 61]) []
     = (Returned tt,
        [ {| Pos := 60;
             Message := "assignment to const parameter name (marked with // +const at const_params.go:50)" |} ])
  /\ In {| Pos := 60;
           Message := "assignment to const parameter name (marked with // +const at const_params.go:50)" |}
        (snd (run sample.paramsPass []))
  /\ In (ast.AssignStmt 59 [ast.Ident (sample.id 60 "name")] token.ASSIGN
           [sample.lit 61]) (ast.nodes sample.shadow)
  /\ types.ObjectOf sample.paramsInfo (sample.id 64 "name") = Some sample.shadowLocal
  /\ scanNode sample.paramsPass (fst (index sample.paramsPass))
       (snd (index sample.paramsPass))
       (ast.AssignStmt 62 [ast.Ident (sample.id 63 "_")] token.ASSIGN
          [ast.Ident (sample.id 64 "name")]) []
     = (Returned tt, []).
Proof.
  split; [reflexivity|]. split; [reflexivity|]. split; [discriminate|].
  split; [reflexivity|]. split; [vm_compute; reflexivity|].
  split; [vm_compute; auto 10|]. split; [in_list|].
  split; [reflexivity|]. vm_compute. reflexivity.
Qed.

(** What a run reports on the sample with the parameters: the writes to
    [name] and [age], the write to [x] in [Scale], nothing for [email], nothing
    for [b] in [Both], and the write to the local [name] in [Shadow]. *)
Example run_paramsPass :
  run sample.paramsPass []
  = (Returned tt,
     [ {| Pos := 20;
          Message := "assignment to const parameter name (marked with // +const at const_params.go:10)" |};
       {| Pos := 23;
          Message := "assignment to const parameter age (marked with // +const at const_params.go:10)" |};
       {| Pos := 38;
          Message := "assignment to const parameter x (marked with // +const at const_params.go:30)" |};
       {| Pos := 60;
          Message := "assignment to const parameter name (marked with // +const at const_params.go:50)" |} ]).
Proof. vm_compute. reflexivity. Qed.

(** ** C4 *)

(** C4, as amended.  Let the first marker line of the doc comment of the
    function [R] mark the name [P]: the line starts with a list that has
    [P] among its items, or it is the standalone marker and the signature
    of [R] declares [P].  An assignment statement inside [R] that is not
    a definition and has the bare name [P] on its left, [P] resolving to
    an object with a position, makes the scanner report exactly one
    diagnostic, at the position of the name, whose message names [P] and
    the position stored for it; no property of the body of [R] is
    consulted.  In a run over a unit whose functions all have bodies,
    that diagnostic is what the run reports for the target. *)
Theorem C4_param_write_reported
    pass R a g recv name t body id c :
  R = ast.FuncDecl a (Some g) recv name t body ->
  enclosed_in pass R (ast.Ident id) ->
  firstMarkerLine g c ->
  listsParam (ast.Text c) (ast.Name id)
  \/ (strings.TrimSpace (ast.Text c) = "// +const"
      /\ declaresParamName t (ast.Name id)) ->
  (exists obj, types.ObjectOf (TypesInfo pass) id = Some obj
               /\ types.Object_Pos obj <> token.NoPos) ->
  exists paramPos,
    let d := {| Pos := ast.NamePos id;
                Message := "assignment to const parameter " +:+ ast.Name id
                           +:+ " (marked with // +const at "
                           +:+ Fset_Position pass paramPos +:+ ")" |} in
    snd (index pass) !! {| funcName := ast.Name name;
                           paramName := ast.Name id;
                           packagePath := Pkg_Path pass |} = Some paramPos
    /\ (forall log,
          checkLhs pass (fst (index pass)) (snd (index pass)) (ast.Ident id) log
          = (Returned tt, log ++ [d]))
    /\ (bodies pass = true ->
        forall t1 t2,
          targets pass = t1 ++ ast.Ident id :: t2 ->
          run pass []
          = (Returned tt,
             flat_map (reports pass) t1 ++ [d] ++ flat_map (reports pass) t2)).
Proof.
  intros HR Henc Hfirst Hform (obj & Hobj & Hpos).
  assert (Hmarked : In (ast.Name id) (markedParams (Some g) t)).
  { destruct Hform as [Hlist|[Hc Hdecl]].
    - eapply markedParams_listed; eassumption.
    - destruct Hfirst as (pre & post & Hg & Hpre).
      rewrite (markedParams_standalone g t pre c post Hg Hc)
        by (intros c' Hc'; apply Hpre, Hc').
      apply allParamNames_declares, Hdecl. }
  assert (Hin : is_Some (snd (index pass) !! {| funcName := ast.Name name;
                           paramName := ast.Name id;
                           packagePath := Pkg_Path pass |})).
  { apply (index_params_complete pass R); [eapply enclosed_in_unit, Henc|].
    subst R. unfold declaresParam. eauto 10. }
  destruct Hin as [paramPos Hlook]. exists paramPos. intros d.
  assert (Hcheck : forall log,
             checkLhs pass (fst (index pass)) (snd (index pass)) (ast.Ident id) log
             = (Returned tt, log ++ [d])).
  { intros log. destruct (enclosing_function _ _ _ Henc) as (path & Hp & Hl).
    unfold checkLhs, checkFieldAssignment. rewrite checkAssignment_ident.
    unfold mbind, M_bind, mret, M_ret. unfold checkParamAssignment.
    rewrite Hp, Hl. subst R. simpl. rewrite Hobj.
    apply Z.eqb_neq in Hpos. rewrite Hpos, Hlook. reflexivity. }
  split; [exact Hlook|]. split; [exact Hcheck|].
  intros Hb t1 t2 Ht.
  apply (run_reports_at pass t1 _ t2 [d] Hb Ht).
  unfold reports. rewrite Hcheck. reflexivity.
Qed.

(** The write to [name] in [UpdatePersonWithConstParams], whose doc
    comment lists it, and the write to [x] in [Scale], whose doc comment
    is the standalone marker. *)
Lemma C4_witness :
  (exists paramPos,
    let d := {| Pos := 20;
                Message := "assignment to const parameter " +:+ "name"
                           +:+ " (marked with // +const at "
                           +:+ sample.position "const_params.go" paramPos
                           +:+ ")" |} in
    snd (index sample.paramsPass)
      !! {| funcName := "UpdatePersonWithConstParams"; paramName := "name";
            packagePath := "a" |} = Some paramPos
    /\ (forall log,
          checkLhs sample.paramsPass (fst (index sample.paramsPass))
            (snd (index sample.paramsPass)) (ast.Ident (sample.id 20 "name")) log
          = (Returned tt, log ++ [d]))
    /\ (bodies sample.paramsPass = true ->
        forall t1 t2,
          targets sample.paramsPass = t1 ++ ast.Ident (sample.id 20 "name") :: t2 ->
          run sample.paramsPass []
          = (Returned tt,
             flat_map (reports sample.paramsPass) t1 ++ [d]
             ++ flat_map (reports sample.paramsPass) t2)))
  /\ (exists paramPos,
    let d := {| Pos := 38;
                Message := "assignment to const parameter " +:+ "x"
                           +:+ " (marked with // +const at "
                           +:+ sample.position "const_params.go" paramPos
                           +:+ ")" |} in
    snd (index sample.paramsPass)
      !! {| funcName := "Scale"; paramName := "x"; packagePath := "a" |}
    = Some paramPos
    /\ (forall log,
          checkLhs sample.paramsPass (fst (index sample.paramsPass))
            (snd (index sample.paramsPass)) (ast.Ident (sample.id 38 "x")) log
          = (Returned tt, log ++ [d]))
    /\ (bodies sample.paramsPass = true ->
        forall t1 t2,
          targets sample.paramsPass = t1 ++ ast.Ident (sample.id 38 "x") :: t2 ->
          run sample.paramsPass []
          = (Returned tt,
             flat_map (reports sample.paramsPass) t1 ++ [d]
             ++ flat_map (reports sample.paramsPass) t2))).
Proof.
  split.
  - refine (C4_param_write_reported sample.paramsPass sample.update
              10 {| ast.List_ :=
                      [ {| ast.Slash := 0;
                           ast.Text := "// UpdatePersonWithConstParams updates a person with const parameters." |};
                        {| ast.Slash := 0; ast.Text := "// +const:[name, age]" |} ] |}
              None (sample.id 11 "UpdatePersonWithConstParams")
              sample.updateType _ (sample.id 20 "name")
              {| ast.Slash := 0; ast.Text := "// +const:[name, age]" |}
              eq_refl _ _ _ _).
    + enclosed.
    + exists [ {| ast.Slash := 0;
                  ast.Text := "// UpdatePersonWithConstParams updates a person with const parameters." |} ],
        [].
      split; [reflexivity|]. intros c' [<-|[]]. split.
      * intros H. apply hasClosedList_bracket in H. simpl in H.
        repeat destruct H as [H|H]; try discriminate H. exact H.
      * vm_compute. discriminate.
    + left. exists ["name"; " age"], "". split; [reflexivity|].
      split; [|split; [discriminate|]].
      * repeat constructor; simpl; intros H;
          repeat destruct H as [H|H]; try discriminate H; exact H.
      * exists "name". split; [left; reflexivity|reflexivity].
    + eexists. split; [reflexivity|]. vm_compute. discriminate.
  - refine (C4_param_write_reported sample.paramsPass sample.scale
              30 sample.scaleDoc None (sample.id 31 "Scale") sample.scaleType _
              (sample.id 38 "x") {| ast.Slash := 28; ast.Text := "// +const" |}
              eq_refl _ _ _ _).
    + enclosed.
    + exists [], []. split; [reflexivity|]. intros c' [].
    + right. split; [reflexivity|].
      exists [sample.param 32 "x" 33 "int"; sample.param 34 "y" 35 "int"],
        (sample.param 32 "x" 33 "int"), (sample.id 32 "x").
      split; [reflexivity|]. split; [left; reflexivity|].
      split; [left; reflexivity|reflexivity].
    + eexists. split; [reflexivity|]. vm_compute. discriminate.
Defined.

(** Two reassignments of a marked parameter that are not reported.  The
    doc comment of [Reset] is the standalone marker and [n] is its
    parameter.  In [n, x := 3, 4] only [x] is new: the [n] on the left
    is the parameter, which the statement assigns; [n++] assigns it
    again.  The first is a definition, which the scanner skips whole, the
    second is no assignment statement: the unit has no target and a run
    reports nothing. *)
Lemma C4_counterexample :
  snd (index sample.redeclPass)
    !! {| funcName := "Reset"; paramName := "n"; packagePath := "a" |} = Some 10
  /\ types.Defs sample.redeclInfo !! 12 = Some sample.redeclParam
  /\ In sample.redeclStmt (ast.nodes sample.redeclBody)
  /\ sample.redeclStmt
     = ast.AssignStmt 16 [ast.Ident (sample.id 17 "n"); ast.Ident (sample.id 18 "x")]
         token.DEFINE [sample.lit 19; sample.lit 20]
  /\ types.ObjectOf sample.redeclInfo (sample.id 17 "n") = Some sample.redeclParam
  /\ In sample.incStmt (ast.nodes sample.redeclBody)
  /\ sample.incStmt = ast.IncDecStmt 21 (ast.Ident (sample.id 22 "n")) token.INC
  /\ types.ObjectOf sample.redeclInfo (sample.id 22 "n") = Some sample.redeclParam
  /\ targets sample.redeclPass = []
  /\ run sample.redeclPass [] = (Returned tt, []).
Proof.
  split; [vm_compute; reflexivity|]. split; [reflexivity|].
  split; [in_list|]. split; [reflexivity|]. split; [reflexivity|].
  split; [in_list|]. split; [reflexivity|]. split; [reflexivity|].
  split; [reflexivity|]. vm_compute. reflexivity.
Qed.

(** ** C5 *)

(** C5. The field check takes for the enclosing routine of a write the
    last function declaration before it in the file.  In the sample the
    field [F] of [T] is marked; the write [t.F = 1] is in the body of a
    function literal that has no receiver, no result and no composite
    literal of [T], and is bound to a package-level variable; it is
    inside no function declaration.  [astPath] answers with a path whose last function
    declaration is [NewT], whose body holds [&T{}], and the write is not
    reported: a run over the unit reports nothing.  With the function
    literal declared before [NewT] the same write is reported. *)
Theorem C5_write_after_constructor_is_not_reported :
  fst (index sample.resetPass)
    !! {| structType := sample.resetT; fieldName := "F" |} = Some 7
  /\ In sample.resetWrite (targets sample.resetPass)
  /\ writesField sample.resetPass sample.resetWrite sample.resetT [] "F"
  /\ In sample.resetWrite (ast.nodes sample.resetBody)
  /\ existsb (instantiates sample.resetPass (types.Named sample.resetT []))
       (ast.nodes sample.resetBody) = false
  /\ (forall n, In n (flat_map ast.nodes (Files sample.resetPass)) ->
        isFuncDecl n = true -> ~ In sample.resetWrite (ast.nodes n))
  /\ (exists path,
        astPath (Files sample.resetPass) sample.resetWrite = (path, true)
        /\ lastFuncDecl path = Some sample.resetNewT)
  /\ spec_rule_instantiates sample.resetPass sample.resetNewT
       (types.Named sample.resetT []) = true
  /\ (forall log,
        isInstanciator sample.resetPass sample.resetWrite
          (types.Named sample.resetT []) log
        = (Returned true, log))
  /\ (forall log,
        checkLhs sample.resetPass (fst (index sample.resetPass))
          (snd (index sample.resetPass)) sample.resetWrite log
        = (Returned tt, log))
  /\ run sample.resetPass [] = (Returned tt, [])
  /\ run sample.resetFirstPass []
     = (Returned tt,
        [ {| Pos := 30;
             Message := "assignment to const field T.F (marked with // +const at newt.go:7)" |} ]).
Proof.
  assert (Hpath : astPath (Files sample.resetPass) sample.resetWrite
                  = (firstn 8 (ast.nodes sample.resetFile) ++ sample.resetNewT
                     :: firstn 17 (skipn 9 (ast.nodes sample.resetFile)), true)
                  /\ lastFuncDecl
                       (firstn 8 (ast.nodes sample.resetFile) ++ sample.resetNewT
                        :: firstn 17 (skipn 9 (ast.nodes sample.resetFile)))
                     = Some sample.resetNewT).
  { apply (attributed_function sample.resetPass sample.resetFile
             (firstn 8 (ast.nodes sample.resetFile)) sample.resetNewT
             (firstn 17 (skipn 9 (ast.nodes sample.resetFile)))
             sample.resetWrite (skipn 27 (ast.nodes sample.resetFile))).
    - unfold unique_addrs. compute_done.
    - left. reflexivity.
    - reflexivity.
    - reflexivity.
    - reflexivity. }
  assert (Hw : writesField sample.resetPass sample.resetWrite sample.resetT [] "F").
  { exists 29, (ast.Ident (sample.id 30 "t")), (sample.id 31 "F"),
      (types.Pointer (types.Named sample.resetT [])).
    split; [reflexivity|]. split; [reflexivity|]. split; [reflexivity|].
    right. reflexivity. }
  split; [vm_compute; reflexivity|]. split; [left; reflexivity|].
  split; [exact Hw|]. split; [in_list|]. split; [reflexivity|].
  split.
  { intros n Hn Hf H. simpl in Hn.
    repeat destruct Hn as [Hn|Hn]; try (subst n; discriminate Hf);
      [|exact Hn].
    subst n. simpl in H. repeat destruct H as [H|H]; try discriminate H.
    exact H. }
  split; [eexists; exact Hpath|]. split; [reflexivity|].
  split.
  { intros log. destruct Hpath as [Hp Hl].
    unfold isInstanciator. rewrite Hp, Hl. reflexivity. }
  split; [|split; vm_compute; reflexivity].
  intros log. destruct Hpath as [Hp Hl].
  unfold checkLhs, checkFieldAssignment.
  rewrite (checkAssignment_writesField _ (fst (index sample.resetPass))
             _ _ _ _ Hw).
  rewrite (checkParamAssignment_writesField _ (snd (index sample.resetPass))
             _ _ _ _ Hw).
  replace (fst (index sample.resetPass)
             !! {| structType := sample.resetT; fieldName := "F" |})
    with (Some 7 : option token.Pos) by (vm_compute; reflexivity).
  unfold mbind, M_bind, isInstanciator. rewrite Hp, Hl. reflexivity.
Qed.

(** ** C6 *)

(** C6, as amended.  When a line of a function's doc comment is, trimmed
    of white space, exactly [// +const], and no line before it carries a
    closed list [// +const:[...]], the first pass enters every parameter
    name the signature declares in the table; a function that declares
    no parameter name enters nothing, and the pass goes on without a
    diagnostic or a panic. *)
Theorem C6_standalone_marks_all pass n a g recv name t body pre c post :
  In n (flat_map ast.nodes (Files pass)) ->
  n = ast.FuncDecl a (Some g) recv name t body ->
  ast.List_ g = pre ++ c :: post ->
  strings.TrimSpace (ast.Text c) = "// +const" ->
  (forall c', In c' pre -> ~ hasClosedList (ast.Text c')) ->
  (forall p, declaresParamName t p ->
     is_Some (snd (index pass) !! {| funcName := ast.Name name; paramName := p;
                                     packagePath := Pkg_Path pass |}))
  /\ ((forall p, ~ declaresParamName t p) ->
      forall tables, indexNode pass n tables = tables)
  /\ (forall log, buildIndex pass log = (Returned (index pass), log)).
Proof.
  intros Hn -> Hg Hc Hpre.
  pose proof (markedParams_standalone g t pre c post Hg Hc Hpre) as Hmarked.
  split; [|split].
  - intros p Hp. apply (index_params_complete pass _ _ Hn).
    unfold declaresParam. exists a, (Some g), recv, name, t, body, p.
    rewrite Hmarked. split; [reflexivity|]. split; [|reflexivity].
    apply allParamNames_declares, Hp.
  - intros Hnone [cf cp]. unfold indexNode. rewrite Hmarked.
    destruct (allParamNames t) as [|p l] eqn:E; [reflexivity|].
    destruct (Hnone p). apply allParamNames_declares. rewrite E. left.
    reflexivity.
  - apply buildIndex_returns.
Qed.

(** [Scale], whose doc comment is the line [// +const]. *)
Lemma C6_witness :
  (forall p, declaresParamName sample.scaleType p ->
     is_Some (snd (index sample.paramsPass)
                !! {| funcName := "Scale"; paramName := p; packagePath := "a" |}))
  /\ ((forall p, ~ declaresParamName sample.scaleType p) ->
      forall tables, indexNode sample.paramsPass sample.scale tables = tables)
  /\ (forall log, buildIndex sample.paramsPass log
                  = (Returned (index sample.paramsPass), log)).
Proof.
  refine (C6_standalone_marks_all sample.paramsPass sample.scale
            30 sample.scaleDoc None (sample.id 31 "Scale") sample.scaleType _
            [] {| ast.Slash := 28; ast.Text := "// +const" |} [] _ eq_refl eq_refl _ _).
  - in_list.
  - reflexivity.
  - intros c' [].
Defined.

(** The marker is the comment [// +const], slashes and space included.
    The doc comment of [Tight] is the line [//+const]: what follows the
    slashes is, trimmed or not, exactly [+const], and the line is no
    marker.  The parameter [x] is not entered, and the write to it is not
    reported. *)
Lemma C6_counterexample :
  In (ast.FuncDecl 10 (sample.comments ["//+const"]) None (sample.id 11 "Tight")
        sample.tightType
        (Some (ast.BlockStmt 14 14
                 [ast.AssignStmt 15 [ast.Ident (sample.id 16 "x")] token.ASSIGN
                    [sample.lit 17]])))
     (flat_map ast.nodes (Files sample.tightPass))
  /\ "//+const" = "//" +:+ "+const"
  /\ strings.TrimSpace "+const" = "+const"
  /\ declaresParamName sample.tightType "x"
  /\ snd (index sample.tightPass)
       !! {| funcName := "Tight"; paramName := "x"; packagePath := "a" |} = None
  /\ In (ast.Ident (sample.id 16 "x")) (targets sample.tightPass)
  /\ run sample.tightPass [] = (Returned tt, []).
Proof.
  split; [in_list|]. split; [reflexivity|]. split; [reflexivity|].
  split.
  { exists [sample.param 12 "x" 13 "int"], (sample.param 12 "x" 13 "int"),
      (sample.id 12 "x").
    split; [reflexivity|]. split; [left; reflexivity|].
    split; [left; reflexivity|reflexivity]. }
  split; [vm_compute; reflexivity|]. split; [left; reflexivity|].
  vm_compute. reflexivity.
Qed.

(** ** C7 *)

(** C7. Two type names that print alike are two keys: a store under one
    leaves the other's entry alone; the check of a write through a
    receiver of the second type reads the second type's entry only; the
    second type's entry in the table of a unit comes from a declaration
    of the unit that resolves to the second type; and when the unit has
    no such declaration, a write to the field of the second type is not
    reported, whatever the first type marks. *)
Theorem C7_owner_identity_not_name pass i1 i2 name F :
  i1 <> i2 ->
  let T1 := {| types.obj_id := i1; types.Name := name |} in
  let T2 := {| types.obj_id := i2; types.Name := name |} in
  (forall (m : gmap constField token.Pos) pos,
      <[ {| structType := T1; fieldName := F |} := pos ]> m
        !! {| structType := T2; fieldName := F |}
      = m !! {| structType := T2; fieldName := F |})
  /\ (forall cf cf' sa X Sel targs recvT log,
        ast.Name Sel = F ->
        types.Selections (TypesInfo pass) !! sa
        = Some {| types.Kind := types.FieldVal; types.Recv := Some recvT |} ->
        recvT = types.Named T2 targs \/ recvT = types.Pointer (types.Named T2 targs) ->
        cf !! {| structType := T2; fieldName := F |}
        = cf' !! {| structType := T2; fieldName := F |} ->
        checkAssignment pass (ast.SelectorExpr sa X Sel) cf log
        = checkAssignment pass (ast.SelectorExpr sa X Sel) cf' log)
  /\ (forall pos,
        fst (index pass) !! {| structType := T2; fieldName := F |} = Some pos ->
        exists n, In n (flat_map ast.nodes (Files pass))
                  /\ declaresField pass n {| structType := T2; fieldName := F |} pos)
  /\ (forall sa X Sel targs recvT log,
        ast.Name Sel = F ->
        types.Selections (TypesInfo pass) !! sa
        = Some {| types.Kind := types.FieldVal; types.Recv := Some recvT |} ->
        recvT = types.Named T2 targs \/ recvT = types.Pointer (types.Named T2 targs) ->
        (forall n pos, In n (flat_map ast.nodes (Files pass)) ->
           ~ declaresField pass n {| structType := T2; fieldName := F |} pos) ->
        checkLhs pass (fst (index pass)) (snd (index pass))
          (ast.SelectorExpr sa X Sel) log
        = (Returned tt, log)).
Proof.
  intros Hne T1 T2. split; [|split; [|split]].
  - intros m pos. apply lookup_insert_ne. intros Heq.
    injection Heq as Heq. apply Hne. exact Heq.
  - intros cf cf' sa X Sel targs recvT log HF Hsel Hrecv Hsame.
    rewrite !(checkAssignment_named _ _ _ _ _ _ _ _ Hsel Hrecv).
    rewrite HF, Hsame. reflexivity.
  - intros pos. apply index_fields_sound.
  - intros sa X Sel targs recvT log HF Hsel Hrecv Hnone.
    unfold checkLhs, checkFieldAssignment.
    rewrite (checkAssignment_named _ _ _ _ _ _ _ _ Hsel Hrecv), HF.
    destruct (fst (index pass) !! {| structType := T2; fieldName := F |})
      as [pos|] eqn:Hk; [|reflexivity].
    exfalso. apply index_fields_sound in Hk as (n & Hn & Hd).
    exact (Hnone n pos Hn Hd).
Qed.

(** The two types [Local] of the sample: [f]'s marks [ID], [g]'s does
    not. *)
Lemma C7_witness :
  let T1 := sample.LocalF in
  let T2 := sample.LocalG in
  (forall (m : gmap constField token.Pos) pos,
      <[ {| structType := T1; fieldName := "ID" |} := pos ]> m
        !! {| structType := T2; fieldName := "ID" |}
      = m !! {| structType := T2; fieldName := "ID" |})
  /\ (forall cf cf' sa X Sel targs recvT log,
        ast.Name Sel = "ID" ->
        types.Selections (TypesInfo sample.localsPass) !! sa
        = Some {| types.Kind := types.FieldVal; types.Recv := Some recvT |} ->
        recvT = types.Named T2 targs \/ recvT = types.Pointer (types.Named T2 targs) ->
        cf !! {| structType := T2; fieldName := "ID" |}
        = cf' !! {| structType := T2; fieldName := "ID" |} ->
        checkAssignment sample.localsPass (ast.SelectorExpr sa X Sel) cf log
        = checkAssignment sample.localsPass (ast.SelectorExpr sa X Sel) cf' log)
  /\ (forall pos,
        fst (index sample.localsPass)
          !! {| structType := T2; fieldName := "ID" |} = Some pos ->
        exists n, In n (flat_map ast.nodes (Files sample.localsPass))
                  /\ declaresField sample.localsPass n
                       {| structType := T2; fieldName := "ID" |} pos)
  /\ (forall sa X Sel targs recvT log,
        ast.Name Sel = "ID" ->
        types.Selections (TypesInfo sample.localsPass) !! sa
        = Some {| types.Kind := types.FieldVal; types.Recv := Some recvT |} ->
        recvT = types.Named T2 targs \/ recvT = types.Pointer (types.Named T2 targs) ->
        (forall n pos, In n (flat_map ast.nodes (Files sample.localsPass)) ->
           ~ declaresField sample.localsPass n
               {| structType := T2; fieldName := "ID" |} pos) ->
        checkLhs sample.localsPass (fst (index sample.localsPass))
          (snd (index sample.localsPass)) (ast.SelectorExpr sa X Sel) log
        = (Returned tt, log)).
Proof.
  refine (C7_owner_identity_not_name sample.localsPass 3 4 "Local" "ID" _).
  lia.
Defined.

(** What a run reports on the sample with the two types [Local]: the
    write in [f], and nothing for the write in [g]. *)
Example run_localsPass :
  fst (index sample.localsPass)
    !! {| structType := sample.LocalF; fieldName := "ID" |} = Some 18
  /\ fst (index sample.localsPass)
       !! {| structType := sample.LocalG; fieldName := "ID" |} = None
  /\ run sample.localsPass []
     = (Returned tt,
        [ {| Pos := 27;
             Message := "assignment to const field Local.ID (marked with // +const at locals.go:18)" |} ]).
Proof. split; [|split]; vm_compute; reflexivity. Qed.

(** ** C8 *)

(** C8. The field check unwraps one pointer and no more.  With the
    receiver typed [T] or [*T] it is the lookup of [T]; with no recorded
    selection, a selection that is not a field, a nil receiver type or a
    receiver of any other shape ([**T], a pointer to an unnamed type, an
    unnamed type) it returns at once: no diagnostic, no panic. *)
Theorem C8_receiver_unwrapped_once pass cf sa X Sel log :
  (forall T targs recvT,
      types.Selections (TypesInfo pass) !! sa
      = Some {| types.Kind := types.FieldVal; types.Recv := Some recvT |} ->
      recvT = types.Named T targs \/ recvT = types.Pointer (types.Named T targs) ->
      checkAssignment pass (ast.SelectorExpr sa X Sel) cf log
      = match cf !! {| structType := T; fieldName := ast.Name Sel |} with
        | Some fieldPos =>
            (inConstructor ← isInstanciator pass (ast.SelectorExpr sa X Sel)
                              (types.Named T targs);
             if negb inConstructor
             then Reportf (ast.Pos X)
                    (fieldMessage pass T (ast.Name Sel) fieldPos)
             else mret tt) log
        | None => (Returned tt, log)
        end)
  /\ (forall sel,
      types.Selections (TypesInfo pass) !! sa = Some sel ->
      (types.Kind sel <> types.FieldVal
       \/ types.Recv sel = None
       \/ (exists t, types.Recv sel = Some (types.Pointer (types.Pointer t)))
       \/ (exists s, types.Recv sel = Some (types.Pointer (types.Unnamed s)))
       \/ (exists s, types.Recv sel = Some (types.Unnamed s))) ->
      checkAssignment pass (ast.SelectorExpr sa X Sel) cf log = (Returned tt, log))
  /\ (types.Selections (TypesInfo pass) !! sa = None ->
      checkAssignment pass (ast.SelectorExpr sa X Sel) cf log = (Returned tt, log)).
Proof.
  split; [|split].
  - intros T targs recvT Hsel Hrecv.
    rewrite (checkAssignment_named _ _ _ _ _ _ _ _ Hsel Hrecv).
    destruct (cf !! _); reflexivity.
  - intros [kind recvo] Hsel Hshape. unfold checkAssignment. rewrite Hsel.
    simpl in *.
    destruct Hshape as [Hk | [-> | [(t & ->) | [(s & ->) | (s & ->)]]]];
      destruct kind; try reflexivity; congruence.
  - intros Hsel. unfold checkAssignment. rewrite Hsel. reflexivity.
Qed.

(** ** C9 *)

(** C9, as amended.  Let the struct type [T], declared once, have an
    embedded field, and let [E] be the name it goes by, which no named
    field of [T] has.  The embedded field has no names, so its marker
    stores nothing, whatever its comments, while every name of a marked
    named field of [T] is entered; the table has no entry for [T] and
    [E]; and a write to the embedded field, [x.E = ...] with [x] a
    [T] or a [*T], is never reported.  A write through it, as any field
    write, is looked up under the type of its own receiver and the name
    it selects. *)
Theorem C9_embedded_field_not_indexed
    pass n a name sa sp fields T tpos doc ty comment E :
  In n (flat_map ast.nodes (Files pass)) ->
  n = ast.TypeSpec a name (ast.StructType sa sp fields) ->
  types.Defs (TypesInfo pass) !! ast.id_addr name = Some (types.ObjTypeName T tpos) ->
  (forall a' name' sa' sp' fields' tpos',
     In (ast.TypeSpec a' name' (ast.StructType sa' sp' fields'))
        (flat_map ast.nodes (Files pass)) ->
     types.Defs (TypesInfo pass) !! ast.id_addr name'
     = Some (types.ObjTypeName T tpos') ->
     fields' = fields) ->
  In (ast.mkField doc [] ty comment) fields ->
  embeddedName ty = Some E ->
  (forall field id, In field fields -> In id (ast.Field_Names field) ->
     ast.Name id <> E) ->
  (forall T' cf, indexField T' cf (ast.mkField doc [] ty comment) = cf)
  /\ (forall field id,
        In field fields -> fieldMarked field = true ->
        In id (ast.Field_Names field) ->
        is_Some (fst (index pass)
                   !! {| structType := T; fieldName := ast.Name id |}))
  /\ fst (index pass) !! {| structType := T; fieldName := E |} = None
  /\ (forall target targs log,
        writesField pass target T targs E ->
        checkLhs pass (fst (index pass)) (snd (index pass)) target log
        = (Returned tt, log))
  /\ (forall target T' targs F cf,
        writesField pass target T' targs F ->
        checkAssignment pass target cf
        = match cf !! {| structType := T'; fieldName := F |} with
          | Some fieldPos =>
              inConstructor ← isInstanciator pass target (types.Named T' targs);
              if negb inConstructor
              then Reportf (ast.Pos target) (fieldMessage pass T' F fieldPos)
              else mret tt
          | None => mret tt
          end).
Proof.
  intros Hn Heq Hdef Hdecl _ _ Hname.
  assert (Hnone : fst (index pass) !! {| structType := T; fieldName := E |} = None).
  { destruct (fst (index pass) !! _) as [pos|] eqn:Hk; [|reflexivity].
    exfalso. apply index_fields_sound in Hk as (n' & Hn' & Hd).
    destruct Hd as (a' & name' & sa' & sp' & fields' & T' & tpos' & field & id
                    & -> & Hdef' & Hfield & _ & Hid & Hkey & _).
    injection Hkey as <- HE.
    rewrite (Hdecl _ _ _ _ _ _ Hn' Hdef') in Hfield.
    exact (Hname field id Hfield Hid (eq_sym HE)). }
  split; [|split; [|split; [exact Hnone|split]]].
  - intros T' cf. rewrite indexField_spec. simpl.
    destruct (fieldMarked _); reflexivity.
  - intros field id Hfield Hm Hid.
    apply (index_fields_complete pass n _ (ast.NamePos id) Hn).
    unfold declaresField.
    exists a, name, sa, sp, fields, T, tpos, field, id. auto 10.
  - intros target targs log Hw. unfold checkLhs, checkFieldAssignment.
    rewrite (checkAssignment_writesField _ _ _ _ _ _ Hw), Hnone.
    rewrite (checkParamAssignment_writesField _ _ _ _ _ _ Hw). reflexivity.
  - intros target T' targs F cf Hw. apply checkAssignment_writesField, Hw.
Qed.

(** The type [Outer], whose embedded field [Inner] and whose field [G]
    carry a marker. *)
Lemma C9_witness :
  (forall T' cf, indexField T' cf sample.embedField = cf)
  /\ (forall field id,
        In field sample.embedOuterFields -> fieldMarked field = true ->
        In id (ast.Field_Names field) ->
        is_Some (fst (index sample.embedPass)
                   !! {| structType := sample.embedOuter;
                         fieldName := ast.Name id |}))
  /\ fst (index sample.embedPass)
       !! {| structType := sample.embedOuter; fieldName := "Inner" |} = None
  /\ (forall target targs log,
        writesField sample.embedPass target sample.embedOuter targs "Inner" ->
        checkLhs sample.embedPass (fst (index sample.embedPass))
          (snd (index sample.embedPass)) target log
        = (Returned tt, log))
  /\ (forall target T' targs F cf,
        writesField sample.embedPass target T' targs F ->
        checkAssignment sample.embedPass target cf
        = match cf !! {| structType := T'; fieldName := F |} with
          | Some fieldPos =>
              inConstructor ← isInstanciator sample.embedPass target
                                (types.Named T' targs);
              if negb inConstructor
              then Reportf (ast.Pos target)
                     (fieldMessage sample.embedPass T' F fieldPos)
              else mret tt
          | None => mret tt
          end).
Proof.
  refine (C9_embedded_field_not_indexed sample.embedPass sample.embedOuterSpec
            11 (sample.id 12 "Outer") 13 13 sample.embedOuterFields
            sample.embedOuter 12 None (ast.Ident (sample.id 14 "Inner"))
            (sample.comments ["// +const"]) "Inner" _ eq_refl eq_refl _ _
            eq_refl _).
  - in_list.
  - intros a' name' sa' sp' fields' tpos' Hin Hdef. simpl in Hin.
    repeat destruct Hin as [Hin|Hin]; try discriminate Hin; [| |exact (False_ind _ Hin)].
    + injection Hin as <- <- <- <- <-. vm_compute in Hdef. discriminate Hdef.
    + injection Hin as <- <- <- <- <-. reflexivity.
  - left. reflexivity.
  - intros field id Hf Hid. simpl in Hf.
    destruct Hf as [<-|[<-|[]]]; simpl in Hid; [destruct Hid|].
    destruct Hid as [<-|[]]. discriminate.
Defined.

(** A write through the marked embedded field that is reported.  The
    embedded field [Inner] of [Outer] has no names and carries a marker;
    [o.Inner.F = 1] selects [F] through it, its receiver [o.Inner] is an
    [Inner], and [F] carries its own marker in the declaration of
    [Inner]: the write is reported.  The write to the embedded field,
    [o.Inner = i], and the write to the promoted [o.F] are not. *)
Lemma C9_counterexample :
  In sample.embedField sample.embedOuterFields
  /\ ast.Field_Names sample.embedField = []
  /\ fieldMarked sample.embedField = true
  /\ sample.innerWrite
     = ast.SelectorExpr 34
         (ast.SelectorExpr 35 (ast.Ident (sample.id 36 "o")) (sample.id 37 "Inner"))
         (sample.id 38 "F")
  /\ targets sample.embedPass
     = [sample.embedWrite; sample.innerWrite; sample.promotedWrite]
  /\ reports sample.embedPass sample.innerWrite
     = [ {| Pos := 36;
            Message := "assignment to const field Inner.F (marked with // +const at embed.go:7)" |} ]
  /\ run sample.embedPass []
     = (Returned tt,
        [ {| Pos := 36;
             Message := "assignment to const field Inner.F (marked with // +const at embed.go:7)" |} ]).
Proof.
  split; [left; reflexivity|]. split; [reflexivity|]. split; [reflexivity|].
  split; [reflexivity|]. split; [reflexivity|].
  split; vm_compute; reflexivity.
Qed.

(** ** C10 *)

(** C10. The second pass scans assignment statements, plain and compound,
    and nothing else.  Its filter rejects an increment or decrement
    statement and its callback returns at once on one; on an assignment
    statement that is not a definition it checks each left-hand side,
    whatever the assignment token; and every diagnostic of a run is at the
    position of a left-hand side of such a statement of the unit. *)
Theorem C10_incdec_never_reported pass :
  (forall a X tok cf cp log,
      assignFilter (ast.IncDecStmt a X tok) = false
      /\ scanNode pass cf cp (ast.IncDecStmt a X tok) log = (Returned tt, log))
  /\ (forall a lhs tok rhs cf cp,
        tok <> token.DEFINE ->
        assignFilter (ast.AssignStmt a lhs tok rhs) = true
        /\ scanNode pass cf cp (ast.AssignStmt a lhs tok rhs)
           = forM_ lhs (checkLhs pass cf cp))
  /\ (forall d, In d (snd (run pass [])) ->
        exists a lhs tok rhs e,
          In (ast.AssignStmt a lhs tok rhs) (flat_map ast.nodes (Files pass))
          /\ token.eqb tok token.DEFINE = false
          /\ In e lhs /\ Pos d = ast.Pos e).
Proof.
  split; [|split].
  - intros. split; reflexivity.
  - intros a lhs tok rhs cf cp Htok. split; [reflexivity|].
    destruct tok; try reflexivity. contradiction.
  - intros d Hd. destruct (run_emits pass []) as (ds & Hlog & Hds).
    rewrite Hlog in Hd. simpl in Hd.
    rewrite List.Forall_forall in Hds.
    destruct (Hds d Hd) as (n & Hn & a & lhs & tok & rhs & e & -> & Htok & He & Hpos).
    exists a, lhs, tok, rhs, e. auto.
Qed.

(* ===================================================================== *)
(** * Further properties: the path to a target                             *)
(* ===================================================================== *)

(** X1. [astPath] finds a target exactly when a node of the files has
    its address, and returns no path when it does not find it. *)
Theorem astPath_found_iff_present files target :
  snd (astPath files target)
  = existsb (fun n => ast.same n target) (flat_map ast.nodes files)
  /\ (snd (astPath files target) = false -> fst (astPath files target) = []).
Proof.
  induction files as [|file rest [IH1 IH2]]; simpl; [split; reflexivity|].
  rewrite Inspect_astPath, existsb_app.
  pose proof (astPath_step_snd target (ast.nodes file) []) as Hs.
  destruct (fold_left (astPath_step target) (ast.nodes file) ([], false))
    as [path found]. simpl in Hs. rewrite <- Hs.
  destruct found; simpl; [split; [reflexivity|discriminate]|].
  split; assumption.
Qed.

(** X2. With distinct addresses, the path [astPath] returns for a node of
    a file is every node the walk of that file meets before the node, in
    that order: the ancestors of the node and, with them, everything to
    their left. *)
Theorem astPath_returns_walk_prefix files file pre target post :
  unique_addrs files -> In file files ->
  ast.nodes file = pre ++ target :: post ->
  astPath files target = (pre, true).
Proof. intros Huniq Hfile Hnodes. eapply astPath_prefix; eassumption. Qed.

(** The path of the write in [SetName] starts with the whole declaration
    of [Person]. *)
Lemma astPath_returns_walk_prefix_witness :
  astPath [sample.fieldsFile] sample.setNameWrite
  = (firstn 21 (ast.nodes sample.fieldsFile), true).
Proof.
  refine (astPath_returns_walk_prefix [sample.fieldsFile] sample.fieldsFile
            (firstn 21 (ast.nodes sample.fieldsFile)) sample.setNameWrite
            (skipn 22 (ast.nodes sample.fieldsFile)) _ _ _).
  - unfold unique_addrs. compute_done.
  - left. reflexivity.
  - reflexivity.
Defined.



(** X4. The parameter check charges a write to a bare name to the last
    function declaration the walk of the file meets before it, whether
    the write is inside that function or after it: when the table has
    the name under the name of that function, the write is reported. *)
Theorem param_write_charged_to_preceding_function
    pass file q a doc recv name t body mid id post obj pos log :
  unique_addrs (Files pass) -> In file (Files pass) ->
  ast.nodes file
  = q ++ ast.FuncDecl a doc recv name t body :: mid ++ ast.Ident id :: post ->
  existsb isFuncDecl mid = false ->
  types.ObjectOf (TypesInfo pass) id = Some obj ->
  types.Object_Pos obj <> token.NoPos ->
  snd (index pass) !! {| funcName := ast.Name name; paramName := ast.Name id;
                         packagePath := Pkg_Path pass |} = Some pos ->
  checkLhs pass (fst (index pass)) (snd (index pass)) (ast.Ident id) log
  = (Returned tt,
     log ++ [ {| Pos := ast.NamePos id;
                 Message := paramMessage pass (ast.Name id) pos |} ]).
Proof.
  intros Huniq Hfile Hnodes Hmid Hobj Hpos Hk.
  destruct (attributed_function pass file q _ mid _ post
              Huniq Hfile Hnodes eq_refl Hmid) as [Hp Hl].
  unfold checkLhs, checkFieldAssignment. rewrite checkAssignment_ident.
  unfold mbind, M_bind, mret, M_ret, checkParamAssignment.
  rewrite Hp, Hl. simpl. rewrite Hobj.
  apply Z.eqb_neq in Hpos. rewrite Hpos, Hk. reflexivity.
Qed.

(** The parameter [n] of the function literal of the sample is not the
    parameter [n] of [NewT], which the marker names; the write to it is
    reported against [NewT]. *)
Lemma param_write_charged_to_preceding_function_witness :
  checkLhs sample.literalPass (fst (index sample.literalPass))
    (snd (index sample.literalPass)) sample.litParamWrite []
  = (Returned tt,
     [] ++ [ {| Pos := 46;
                Message := paramMessage sample.literalPass "n" 10 |} ]).
Proof.
  refine (param_write_charged_to_preceding_function sample.literalPass
            sample.literalFile (firstn 8 (ast.nodes sample.literalFile))
            10 (sample.comments ["// +const"]) None (sample.id 11 "NewT")
            sample.newTType (Some sample.newTBody)
            (firstn 26 (skipn 9 (ast.nodes sample.literalFile)))
            (sample.id 46 "n") (skipn 36 (ast.nodes sample.literalFile))
            (types.ObjVar 37 "n" 37 sample.TInt) 10 [] _ _ _ _ _ _ _).
  - unfold unique_addrs. compute_done.
  - left. reflexivity.
  - reflexivity.
  - reflexivity.
  - reflexivity.
  - vm_compute. discriminate.
  - vm_compute. reflexivity.
Defined.

(** X5. Before the first function declaration of its file a write has no
    function at all, whatever the files before it declare: a parameter
    marker never reaches it, and no function can exempt it, so a write
    there to a marked field is always reported. *)
Theorem write_before_any_function pass file pre target post :
  unique_addrs (Files pass) -> In file (Files pass) ->
  ast.nodes file = pre ++ target :: post ->
  existsb isFuncDecl pre = false ->
  (forall cp log, checkParamAssignment pass target cp log = (Returned tt, log))
  /\ (forall T targs F pos log,
        writesField pass target T targs F ->
        fst (index pass) !! {| structType := T; fieldName := F |} = Some pos ->
        checkLhs pass (fst (index pass)) (snd (index pass)) target log
        = (Returned tt,
           log ++ [ {| Pos := ast.Pos target;
                       Message := fieldMessage pass T F pos |} ])).
Proof.
  intros Huniq Hfile Hnodes Hpre.
  destruct (unattributed pass file pre target post Huniq Hfile Hnodes Hpre)
    as [Hp Hl].
  split.
  - intros cp log. unfold checkParamAssignment.
    destruct target; try reflexivity. rewrite Hp, Hl. reflexivity.
  - intros T targs F pos log Hw Hpos.
    unfold checkLhs, checkFieldAssignment.
    rewrite (checkAssignment_writesField _ _ _ _ _ _ Hw), Hpos.
    rewrite (checkParamAssignment_writesField _ _ _ _ _ _ Hw).
    unfold mbind, M_bind, isInstanciator. rewrite Hp, Hl. reflexivity.
Qed.

(** The function literal in a file of its own: [NewT], in the file
    before, is not taken for its function; its write to [t.F] is reported
    and its write to [n] is not. *)
Lemma write_before_any_function_witness :
  (forall cp log,
      checkParamAssignment sample.splitPass sample.litFieldWrite cp log
      = (Returned tt, log))
  /\ (forall T targs F pos log,
        writesField sample.splitPass sample.litFieldWrite T targs F ->
        fst (index sample.splitPass) !! {| structType := T; fieldName := F |}
        = Some pos ->
        checkLhs sample.splitPass (fst (index sample.splitPass))
          (snd (index sample.splitPass)) sample.litFieldWrite log
        = (Returned tt,
           log ++ [ {| Pos := ast.Pos sample.litFieldWrite;
                       Message := fieldMessage sample.splitPass T F pos |} ])).
Proof.
  refine (write_before_any_function sample.splitPass sample.splitFileH
            (firstn 13 (ast.nodes sample.splitFileH)) sample.litFieldWrite
            (skipn 14 (ast.nodes sample.splitFileH)) _ _ _ _).
  - unfold unique_addrs. compute_done.
  - right. left. reflexivity.
  - reflexivity.
  - reflexivity.
Defined.

(** What a run reports on the three samples: after [NewT] the write to
    the field is exempt and the write to [n] is charged to [NewT]; before
    it, or in another file, the write to the field is reported and the
    write to [n] is not. *)
Example run_literalPass :
  ~ In sample.litFieldWrite (ast.nodes sample.newT)
  /\ ~ In sample.litParamWrite (ast.nodes sample.newT)
  /\ run sample.literalPass []
     = (Returned tt,
        [ {| Pos := 46;
             Message := "assignment to const parameter n (marked with // +const at literal.go:10)" |} ])
  /\ run sample.topPass []
     = (Returned tt,
        [ {| Pos := 42;
             Message := "assignment to const field T.F (marked with // +const at top.go:7)" |} ])
  /\ run sample.splitPass []
     = (Returned tt,
        [ {| Pos := 42;
             Message := "assignment to const field T.F (marked with // +const at t.go:7)" |} ]).
Proof.
  split; [|split; [|split; [|split]]]; try (vm_compute; reflexivity).
  - intros H. simpl in H. repeat destruct H as [H|H]; try discriminate H.
    exact H.
  - intros H. simpl in H. repeat destruct H as [H|H]; try discriminate H.
    exact H.
Qed.

(* ===================================================================== *)
(** * Further properties: how a run ends                                   *)
(* ===================================================================== *)

(** X6. A write to a marked field that comes after a function
    declaration without a body, no other function declaration between
    them, makes the whole run panic, whatever was reported before. *)
Theorem run_panics_after_bodyless_function
    pass file q a doc recv name t mid target post T targs F log :
  unique_addrs (Files pass) -> In file (Files pass) ->
  ast.nodes file
  = q ++ ast.FuncDecl a doc recv name t None :: mid ++ target :: post ->
  existsb isFuncDecl mid = false ->
  In target (targets pass) ->
  writesField pass target T targs F ->
  is_Some (fst (index pass) !! {| structType := T; fieldName := F |}) ->
  fst (run pass log) = Panicked.
Proof.
  intros Huniq Hfile Hnodes Hmid Ht Hw [pos Hpos].
  destruct (attributed_function pass file q _ mid target post
              Huniq Hfile Hnodes eq_refl Hmid) as [Hp Hl].
  apply (run_panics_when pass target Ht). intros log'.
  unfold checkLhs, checkFieldAssignment.
  rewrite (checkAssignment_writesField _ _ _ _ _ _ Hw), Hpos.
  unfold mbind, M_bind, isInstanciator. rewrite Hp, Hl. reflexivity.
Qed.

(** The write in the function literal that follows [ext]. *)
Lemma run_panics_after_bodyless_function_witness :
  fst (run sample.stubPass []) = Panicked.
Proof.
  refine (run_panics_after_bodyless_function sample.stubPass sample.stubFile
            (firstn 8 (ast.nodes sample.stubFile))
            10 None None (sample.id 11 "ext") (ast.mkFuncType 10 (Some []) None)
            (firstn 10 (skipn 9 (ast.nodes sample.stubFile)))
            (ast.SelectorExpr 29 (ast.Ident (sample.id 30 "t")) (sample.id 31 "F"))
            (skipn 20 (ast.nodes sample.stubFile))
            sample.StubT [] "F" [] _ _ _ _ _ _ _).
  - unfold unique_addrs. compute_done.
  - left. reflexivity.
  - reflexivity.
  - reflexivity.
  - left. reflexivity.
  - exists 29, (ast.Ident (sample.id 30 "t")), (sample.id 31 "F"),
      (types.Pointer (types.Named sample.StubT [])).
    split; [reflexivity|]. split; [reflexivity|]. split; [reflexivity|].
    right. reflexivity.
  - vm_compute. eauto.
Defined.

(** X7. When every function declaration of the unit has a body, a run
    returns, whatever was reported before it, and appends, target after
    target in the order of the second pass, what the two checks report
    for the target. *)
Theorem run_returns_with_reports pass log :
  bodies pass = true ->
  run pass log
  = (Returned tt, log ++ flat_map (reports pass) (targets pass)).
Proof.
  intros Hb. apply run_returns_when. intros lhs _.
  apply checkAssignment_returns, Hb.
Qed.

Lemma run_returns_with_reports_witness :
  run sample.fieldsPass []
  = (Returned tt,
     [] ++ flat_map (reports sample.fieldsPass) (targets sample.fieldsPass)).
Proof. exact (run_returns_with_reports sample.fieldsPass [] eq_refl). Defined.

(** X8. A unit in which no field is marked cannot make a run panic,
    with or without function bodies: the body of a function is only
    inspected after the field table answered. *)
Theorem run_returns_without_marked_fields pass log :
  (forall n k pos, In n (flat_map ast.nodes (Files pass)) ->
     ~ declaresField pass n k pos) ->
  run pass log
  = (Returned tt, log ++ flat_map (reports pass) (targets pass)).
Proof.
  intros Hno. apply run_returns_when. intros lhs _. exists [].
  rewrite checkAssignment_unmarked; [apply returns_ret|].
  intros k. apply index_fields_none. intros n pos. apply Hno.
Qed.

(** The sample with the parameters declares no struct type. *)
Lemma run_returns_without_marked_fields_witness :
  run sample.paramsPass []
  = (Returned tt,
     [] ++ flat_map (reports sample.paramsPass) (targets sample.paramsPass)).
Proof.
  refine (run_returns_without_marked_fields sample.paramsPass [] _).
  intros n k pos Hn (a & name & sa & sp & fields & T & tpos & field & id
                     & Heq & _).
  simpl in Hn. repeat destruct Hn as [Hn|Hn]; try (subst n; discriminate Heq).
  exact Hn.
Defined.

(** X9. A unit without a marker gets no diagnostic and no panic: a run
    over it leaves the diagnostics as they were. *)
Theorem run_silent_without_markers pass log :
  (forall n k pos, In n (flat_map ast.nodes (Files pass)) ->
     ~ declaresField pass n k pos) ->
  (forall n k, In n (flat_map ast.nodes (Files pass)) ->
     ~ declaresParam pass n k) ->
  run pass log = (Returned tt, log).
Proof.
  intros Hf Hp.
  assert (Hnil : flat_map (reports pass) (targets pass) = []).
  { induction (targets pass) as [|x l IH]; simpl; [reflexivity|].
    rewrite IH, app_nil_r. unfold reports, checkLhs, checkFieldAssignment.
    rewrite checkAssignment_unmarked
      by (intros k; apply index_fields_none; intros n pos; apply Hf).
    rewrite checkParamAssignment_unmarked
      by (intros k; apply index_params_none; intros n; apply Hp).
    reflexivity. }
  assert (Hrun : returns (run pass) tt (flat_map (reports pass) (targets pass))).
  { apply run_returns_when. intros lhs _. exists [].
    rewrite checkAssignment_unmarked; [apply returns_ret|].
    intros k. apply index_fields_none. intros n pos. apply Hf. }
  rewrite Hrun. f_equal.
  rewrite Hnil. apply app_nil_r.
Qed.

Lemma run_silent_without_markers_witness :
  run sample.plainPass [] = (Returned tt, []).
Proof.
  refine (run_silent_without_markers sample.plainPass [] _ _).
  - intros n k pos Hn (a & name & sa & sp & fields & T & tpos & field & id
                       & Heq & _ & Hin & Hm & _).
    simpl in Hn.
    repeat destruct Hn as [Hn|Hn]; try (subst n; discriminate Heq);
      [|exact Hn].
    subst n. injection Heq as _ _ _ _ <-.
    destruct Hin as [<-|[]]. discriminate Hm.
  - intros n k Hn (a & doc & recv & name & t & body & p & Heq & Hp & _).
    simpl in Hn.
    repeat destruct Hn as [Hn|Hn]; try (subst n; discriminate Heq);
      [|exact Hn].
    subst n. injection Heq as _ <- _ _ <- _. exact Hp.
Defined.

(* ===================================================================== *)
(** * Further properties: the diagnostics of a run                         *)
(* ===================================================================== *)

(** X10. The two checks report at most one diagnostic for an assignment
    target, and a run, whether it returns or panics, at most one for each
    target of the unit. *)
Theorem one_diagnostic_per_target pass :
  (forall cf cp lhs, emitsUpTo 1 (checkLhs pass cf cp lhs))
  /\ emitsUpTo (length (targets pass)) (run pass).
Proof.
  split; [intros; apply checkLhs_emitsUpTo|].
  intros log. rewrite run_unfold. revert log.
  unfold inspector.Preorder, targets. rewrite length_flat_map_sum.
  apply emitsUpTo_foldM. intros n [].
  destruct (assignFilter n); [apply scanNode_emitsUpTo|apply emitsUpTo_ret].
Qed.

(** X11. Every diagnostic of a run cites a marker of the unit: its
    message is the field message for a marked field of a struct type of
    the unit and the position of that field's name, or the parameter
    message for a name that a function declaration of the unit marks and
    the position of that declaration. *)
Theorem diagnostics_cite_markers pass :
  emits (fun d => citesField pass d \/ citesParam pass d) (run pass).
Proof.
  intros log. rewrite run_unfold. revert log.
  unfold inspector.Preorder. apply emits_foldM. intros n [] _.
  destruct (assignFilter n); [|apply emits_ret].
  unfold scanNode. destruct n; try apply emits_ret.
  destruct (token.eqb Tok token.DEFINE); [apply emits_ret|].
  unfold forM_. apply emits_foldM. intros e _ _.
  unfold checkLhs, checkFieldAssignment. apply emits_bind.
  - eapply emits_weaken; [|apply checkAssignment_cites].
    intros d (T & F & pos & Hmsg & Hk). left.
    apply index_fields_sound in Hk as (m & Hm & Hd).
    exists T, F, pos, m. auto.
  - intros _. eapply emits_weaken; [|apply checkParamAssignment_cites].
    intros d (k & pos & Hmsg & Hk). right.
    apply index_params_sound in Hk as (m & Hm & Hd & ->).
    exists m, k. auto.
Qed.

(* ===================================================================== *)
(** * Further properties: the parameter table                              *)
(* ===================================================================== *)

(** X12. The parameter table holds a key exactly when a function
    declaration of the unit marks the name under its own name and the
    path of the package, and the position it stores is the position of
    such a declaration. *)
Theorem param_table_characterised pass k :
  (is_Some (snd (index pass) !! k)
   <-> exists n, In n (flat_map ast.nodes (Files pass))
                 /\ declaresParam pass n k)
  /\ (forall pos, snd (index pass) !! k = Some pos ->
        exists n, In n (flat_map ast.nodes (Files pass))
                  /\ declaresParam pass n k /\ pos = ast.Pos n).
Proof.
  split; [split|].
  - intros [pos Hk]. apply index_params_sound in Hk as (n & Hn & Hd & _).
    exists n. auto.
  - intros (n & Hn & Hd). eapply index_params_complete; eassumption.
  - intros pos. apply index_params_sound.
Qed.

(** X13. Functions are keyed by their simple name, so declarations of one
    name share their entries: the position stored for a marked name is
    that of the last declaration of the unit, in the order of the walk,
    that marks it. *)
Theorem last_marking_function_wins pass l1 n l2 k :
  flat_map ast.nodes (Files pass) = l1 ++ n :: l2 ->
  declaresParam pass n k ->
  (forall m, In m l2 -> ~ declaresParam pass m k) ->
  snd (index pass) !! k = Some (ast.Pos n).
Proof.
  intros Hnodes Hd Hlast. unfold index. rewrite Hnodes, fold_left_app. simpl.
  rewrite index_fold_params_last by exact Hlast.
  apply indexNode_params_declared, Hd.
Qed.

(** The three methods [Set] of the sample: the entry for [x] is the
    position of the last one. *)
Lemma last_marking_function_wins_witness :
  snd (index sample.methodsPass)
    !! {| funcName := "Set"; paramName := "x"; packagePath := "a" |}
  = Some (ast.Pos sample.setC).
Proof.
  refine (last_marking_function_wins sample.methodsPass
            (firstn 34 (ast.nodes sample.methodsFile)) sample.setC
            (skipn 35 (ast.nodes sample.methodsFile))
            {| funcName := "Set"; paramName := "x"; packagePath := "a" |}
            _ _ _).
  - reflexivity.
  - unfold declaresParam. do 6 eexists. exists "x".
    split; [reflexivity|]. split; [left; reflexivity|reflexivity].
  - intros m Hm (a & doc & recv & name & t & body & p & Heq & _).
    simpl in Hm. repeat destruct Hm as [Hm|Hm]; try (subst m; discriminate Heq).
    exact Hm.
Defined.

(** X14. Inside a function declaration a write to a bare name is
    reported exactly when the name resolves to an object with a
    position and some function declaration of the unit with the same
    simple name marks the name: the marker of one method reaches the
    methods of that name of every other type. *)
Theorem param_write_reported_by_simple_name
    pass R a doc recv name t body id :
  R = ast.FuncDecl a doc recv name t body ->
  enclosed_in pass R (ast.Ident id) ->
  reports pass (ast.Ident id) <> []
  <-> (exists obj, types.ObjectOf (TypesInfo pass) id = Some obj
                   /\ types.Object_Pos obj <> token.NoPos)
      /\ exists n, In n (flat_map ast.nodes (Files pass))
                   /\ declaresParam pass n
                        {| funcName := ast.Name name; paramName := ast.Name id;
                           packagePath := Pkg_Path pass |}.
Proof.
  intros -> Henc.
  destruct (enclosing_function _ _ _ Henc) as (path & Hp & Hl).
  unfold reports, checkLhs, checkFieldAssignment.
  rewrite checkAssignment_ident.
  unfold mbind, M_bind, mret, M_ret, checkParamAssignment.
  rewrite Hp, Hl. simpl.
  destruct (types.ObjectOf (TypesInfo pass) id) as [obj|] eqn:Hobj.
  - destruct (types.Object_Pos obj =? token.NoPos) eqn:Hpos.
    + split; [intros H; destruct (H eq_refl)|].
      intros [(obj' & Ho & Hne) _]. injection Ho as <-.
      apply Z.eqb_eq in Hpos. contradiction.
    + destruct (snd (index pass) !! _) as [pos|] eqn:Hk.
      * split; [|discriminate]. intros _. split.
        -- exists obj. split; [reflexivity|]. apply Z.eqb_neq, Hpos.
        -- apply index_params_sound in Hk as (n & Hn & Hd & _). exists n. auto.
      * split; [intros H; destruct (H eq_refl)|].
        intros [_ (n & Hn & Hd)].
        destruct (index_params_complete pass n _ Hn Hd) as [pos Hk'].
        rewrite Hk in Hk'. discriminate Hk'.
  - split; [intros H; destruct (H eq_refl)|].
    intros [(obj' & Ho & _) _]. discriminate Ho.
Qed.

(** The method [Set] of [B] has no marker; its write to [x] is reported
    for the markers of the methods [Set] of [A] and [C]. *)
Lemma param_write_reported_by_simple_name_witness :
  reports sample.methodsPass (ast.Ident (sample.id 38 "x")) <> []
  <-> (exists obj, types.ObjectOf (TypesInfo sample.methodsPass) (sample.id 38 "x")
                   = Some obj
                   /\ types.Object_Pos obj <> token.NoPos)
      /\ exists n, In n (flat_map ast.nodes (Files sample.methodsPass))
                   /\ declaresParam sample.methodsPass n
                        {| funcName := "Set"; paramName := "x";
                           packagePath := "a" |}.
Proof.
  refine (param_write_reported_by_simple_name sample.methodsPass sample.setB
            30 None _ (sample.id 33 "Set") _ _ (sample.id 38 "x") eq_refl _).
  enclosed.
Defined.

(** What a run reports on the sample with the methods: the three writes,
    each against the last declaration. *)
Example run_methodsPass :
  markedParams None (ast.mkFuncType 30 (Some [sample.param 34 "x" 35 "int"]) None) = []
  /\ run sample.methodsPass []
     = (Returned tt,
        [ {| Pos := 28;
             Message := "assignment to const parameter x (marked with // +const at methods.go:40)" |};
          {| Pos := 38;
             Message := "assignment to const parameter x (marked with // +const at methods.go:40)" |};
          {| Pos := 48;
             Message := "assignment to const parameter x (marked with // +const at methods.go:40)" |} ]).
Proof. split; [reflexivity|vm_compute; reflexivity]. Qed.

(* ===================================================================== *)
(** * Further properties: the markers of a function                        *)
(* ===================================================================== *)

(** X15. The list a doc line gives is the text between the first
    [// +const:[] of the line and the first closing bracket after it:
    [listMarker] answers [lst] exactly when the line reads
    [pre // +const:[lst] post] with that opening the first of the line
    and no closing bracket in [lst]. *)
Theorem listMarker_spec text lst :
  listMarker text = Some lst
  <-> exists pre post,
        text = pre +:+ "// +const:[" +:+ lst +:+ "]" +:+ post
        /\ strings.Index text "// +const:[" = strings.len pre
        /\ ~ In "]"%char (list_ascii_of_string lst).
Proof.
  split.
  - intros H.
    destruct (strings.index_nat text "// +const:[") as [i|] eqn:Hi.
    + destruct (index_nat_split _ _ _ Hi) as (pre & rest & -> & Hlen).
      subst i. rewrite (listMarker_at _ _ Hi) in H.
      destruct (strings.index_nat rest "]") as [j|] eqn:Hj; [|discriminate].
      injection H as <-.
      destruct (index_nat_char _ _ _ Hj) as (a & b & -> & <- & Hno).
      rewrite substring_take. exists pre, b.
      split; [reflexivity|]. split; [apply Index_some, Hi|exact Hno].
    + unfold listMarker, strings.Index in H. rewrite Hi in H. discriminate H.
  - intros (pre & post & -> & Hidx & Hno).
    assert (Hi : strings.index_nat (pre +:+ "// +const:[" +:+ lst +:+ "]" +:+ post)
                   "// +const:[" = Some (String.length pre)).
    { unfold strings.Index, strings.len in Hidx.
      destruct (strings.index_nat _ _) as [i|]; [|lia].
      f_equal. lia. }
    rewrite (listMarker_at _ _ Hi).
    change (lst +:+ "]" +:+ post) with (lst +:+ String "]" post).
    rewrite (index_nat_char_first _ _ _ Hno), substring_take. reflexivity.
Qed.

(** X16. When the first marker line of a function's doc comment starts
    with [// +const:[], the text up to the next closing bracket is a
    non-empty comma-separated list: the names the function marks are the
    items of the list, each trimmed of white space, whatever the
    parameters of the function and whatever the later lines say. *)
Theorem explicit_list_marks_its_items g t pre c post items rest :
  ast.List_ g = pre ++ c :: post ->
  ast.Text c = "// +const:[" +:+ String.concat "," items +:+ "]" +:+ rest ->
  Forall (fun x => ~ In ","%char (list_ascii_of_string x)
                   /\ ~ In "]"%char (list_ascii_of_string x)) items ->
  String.concat "," items <> "" ->
  (forall c', In c' pre ->
     listMarker (ast.Text c') = None
     /\ strings.TrimSpace (ast.Text c') <> "// +const") ->
  markedParams (Some g) t = map strings.TrimSpace items.
Proof.
  intros Hg Htext Hitems Hne Hpre.
  assert (Hlist : listMarker (ast.Text c) = Some (String.concat "," items)).
  { rewrite Htext. apply listMarker_closed. intros Hin.
    apply concat_chars in Hin as [Hin|(x & Hx & Hin)].
    - simpl in Hin. destruct Hin as [Hin|[]]. discriminate Hin.
    - rewrite List.Forall_forall in Hitems. destruct (Hitems x Hx) as [_ Hno].
      exact (Hno Hin). }
  unfold markedParams. rewrite Hg, (scanDoc_list _ _ _ _ Hlist Hpre).
  destruct (String.eqb_spec (String.concat "," items) "") as [He|_];
    [contradiction|].
  simpl. f_equal. apply Split_concat.
  - intros ->. apply Hne. reflexivity.
  - eapply List.Forall_impl; [|exact Hitems]. intros x [H _]. exact H.
Qed.

(** The doc comment of [UpdatePersonWithConstParams]. *)
Lemma explicit_list_marks_its_items_witness :
  markedParams sample.updateDoc sample.updateType
  = map strings.TrimSpace ["name"; " age"].
Proof.
  refine (explicit_list_marks_its_items
            {| ast.List_ :=
                 [ {| ast.Slash := 0;
                      ast.Text := "// UpdatePersonWithConstParams updates a person with const parameters." |};
                   {| ast.Slash := 0; ast.Text := "// +const:[name, age]" |} ] |}
            sample.updateType
            [ {| ast.Slash := 0;
                 ast.Text := "// UpdatePersonWithConstParams updates a person with const parameters." |} ]
            {| ast.Slash := 0; ast.Text := "// +const:[name, age]" |} []
            ["name"; " age"] "" eq_refl eq_refl _ _ _).
  - repeat constructor; simpl; intros H;
      repeat destruct H as [H|H]; try discriminate H; exact H.
  - discriminate.
  - intros c' [<-|[]]. split; [reflexivity|]. vm_compute. discriminate.
Defined.

(** X17. An empty list [// +const:[]] is a marker that marks nothing:
    met first, it ends the scan of the doc comment, and a standalone
    [// +const] on a later line no longer marks the parameters. *)
Theorem empty_list_marks_nothing g t pre c post rest :
  ast.List_ g = pre ++ c :: post ->
  ast.Text c = "// +const:[]" +:+ rest ->
  (forall c', In c' pre ->
     listMarker (ast.Text c') = None
     /\ strings.TrimSpace (ast.Text c') <> "// +const") ->
  markedParams (Some g) t = [].
Proof.
  intros Hg Htext Hpre.
  assert (Hlist : listMarker (ast.Text c) = Some "").
  { rewrite Htext. apply (listMarker_closed "" rest). intros []. }
  unfold markedParams. rewrite Hg, (scanDoc_list _ _ _ _ Hlist Hpre).
  reflexivity.
Qed.

(** The doc comment [// +const:[]], [// +const] on [Scale]. *)
Lemma empty_list_marks_nothing_witness :
  markedParams (sample.comments ["// +const:[]"; "// +const"]) sample.scaleType
  = [].
Proof.
  refine (empty_list_marks_nothing
            {| ast.List_ := [ {| ast.Slash := 0; ast.Text := "// +const:[]" |};
                              {| ast.Slash := 0; ast.Text := "// +const" |} ] |}
            sample.scaleType []
            {| ast.Slash := 0; ast.Text := "// +const:[]" |}
            [ {| ast.Slash := 0; ast.Text := "// +const" |} ] "" eq_refl eq_refl _).
  intros c' [].
Defined.

(* ===================================================================== *)
(** * Further properties: the earlier classifier                           *)
(* ===================================================================== *)

(** X18. The earlier classifier, [isInConstructor], was the result-type
    rule and nothing else.  It consulted the name of the function only
    when the type of the receiver, one pointer unwrapped, was the
    underlying type of the owner; an underlying type is never a named
    type and the type of a receiver always is, so for every function,
    with or without a receiver, its answer is that of [returnsOwnType]. *)
Theorem legacy_classifier_is_result_rule
    Underlying pass R target a doc recv name t body T :
  R = ast.FuncDecl a doc recv name t body ->
  enclosed_in pass R target ->
  (forall o args, Underlying T <> types.Named o args) ->
  (forall recvField, recv = Some [recvField] ->
     exists o args,
       types.TypeOf (TypesInfo pass) (ast.Field_Type recvField)
       = Some (types.Named o args)
       \/ types.TypeOf (TypesInfo pass) (ast.Field_Type recvField)
          = Some (types.Pointer (types.Named o args))) ->
  legacy.isInConstructor Underlying pass target T
  = legacy.returnsOwnType pass t T.
Proof.
  intros -> Henc Hunder Hrecv.
  destruct (enclosing_function _ _ _ Henc) as (path & Hp & Hl).
  unfold legacy.isInConstructor. rewrite Hp, Hl.
  destruct recv as [[|recvField [|]]|]; try reflexivity.
  destruct (Hrecv recvField eq_refl) as (o & args & Hty).
  assert (Hne : types.Identical (types.Named o args) (Underlying T) = false).
  { destruct (Underlying T) as [o' args'| |] eqn:E; try reflexivity.
    exfalso. exact (Hunder o' args' eq_refl). }
  destruct Hty as [-> | ->]; rewrite Hne; reflexivity.
Qed.

(** [NewName], a method of [*Person] with a constructor prefix: the
    earlier classifier answers by its result type. *)
Lemma legacy_classifier_is_result_rule_witness :
  legacy.isInConstructor (fun _ => types.Unnamed 0) sample.fieldsPass
    sample.newNameWrite sample.TPerson
  = legacy.returnsOwnType sample.fieldsPass
      (ast.mkFuncType 60
         (Some [ast.mkField None [sample.id 65 "n"]
                  (ast.Ident (sample.id 66 "string")) None])
         (Some [ast.mkField None []
                  (ast.Other 67 "StarExpr" 67 [ast.Ident (sample.id 68 "Person")])
                  None]))
      sample.TPerson.
Proof.
  refine (legacy_classifier_is_result_rule (fun _ => types.Unnamed 0)
            sample.fieldsPass sample.newName sample.newNameWrite
            60 None
            (Some [ast.mkField None [sample.id 61 "p"]
                     (ast.Other 62 "StarExpr" 62 [ast.Ident (sample.id 63 "Person")])
                     None])
            (sample.id 64 "NewName") _ _ sample.TPerson eq_refl _ _ _).
  - enclosed.
  - discriminate.
  - intros recvField Heq. injection Heq as <-.
    exists sample.Person, []. right. reflexivity.
Defined.

(** X19. The standalone marker is all that the rewrite added to the
    parameter markers: a doc comment none of whose lines is, trimmed,
    [// +const] marks for the current [run] the names it marked for the
    earlier one. *)
Theorem markedParams_agrees_with_earlier doc t :
  (forall c, In c (commentsOf doc) ->
     strings.TrimSpace (ast.Text c) <> "// +const") ->
  markedParams doc t = legacy.markedParams doc.
Proof.
  destruct doc as [g|]; [|reflexivity]. simpl. intros Hno.
  unfold markedParams, legacy.markedParams.
  assert (Hscan : scanDoc (ast.List_ g) = (legacy.scanDoc (ast.List_ g), false)).
  { induction (ast.List_ g) as [|c l IH]; simpl; [reflexivity|].
    destruct (listMarker (ast.Text c)); [reflexivity|].
    destruct (String.eqb_spec (strings.TrimSpace (ast.Text c)) "// +const") as [He|_].
    - destruct (Hno c); [left; reflexivity|exact He].
    - apply IH. intros c' Hc'. apply Hno. right. exact Hc'. }
  rewrite Hscan. simpl.
  destruct (String.eqb (legacy.scanDoc (ast.List_ g)) ""); reflexivity.
Qed.

(** The doc comment of [UpdatePersonWithConstParams]. *)
Lemma markedParams_agrees_with_earlier_witness :
  markedParams sample.updateDoc sample.updateType
  = legacy.markedParams sample.updateDoc.
Proof.
  refine (markedParams_agrees_with_earlier sample.updateDoc sample.updateType _).
  intros c Hc. simpl in Hc.
  destruct Hc as [<-|[<-|[]]]; vm_compute; discriminate.
Defined.
